(** * skulls: lock store, update oracle, installer and skill selection

    A shallow embedding of the decision logic of the [skulls] command-line
    tool (TypeScript): [src/installer.ts], [src/skill-lock.ts], [src/cli.ts]
    and the selection step of [src/add.ts].

    Conventions of the embedding.
    - A JavaScript string is a Rocq [string].  Every pattern the code matches
      on ('/', '.', '-', 'SKILL.md', '.git', [a-z0-9._]) is made of ASCII
      characters, so matching and slicing on the UTF-8 bytes agrees with
      matching and slicing on UTF-16 code units.
    - [String.prototype.toLowerCase] depends on the Unicode case tables of the
      JavaScript engine; it is a parameter of [sanitizeName].
    - A JavaScript object used as a dictionary ([lock.skills],
      [skillFiles]) is a [gmap string _] of the keys it has of its own;
      what the code does with the names every object inherits
      ('__proto__', 'toString', ...) is written out where it reads, tests
      or assigns a key.
    - [null] / [undefined] results are [None]; thrown exceptions that the
      code catches are explicit error results.
    - File operations awaited one at a time are sequenced in a monad over
      the log of the operations issued.  The operations [copyDirectory]
      starts under [Promise.all] are calls that wait together; the order
      in which they settle is a parameter. *)

From Stdlib Require Import Ascii String QArith.
From stdpp Require Import gmap strings list fin_maps pretty.

Local Open Scope nat_scope.
Set Warnings "-register-all".

(** ** JavaScript string primitives used by the sources *)
Module JsString.

Definition chars (s : string) : list ascii := String.list_ascii_of_string s.
Definition str (l : list ascii) : string := String.string_of_list_ascii l.

(** [s.endsWith(suf)] *)
Definition endsWith (s suf : string) : bool :=
  bool_decide (chars suf `suffix_of` chars s).

(** [s.startsWith(pre)] *)
Definition startsWith (s pre : string) : bool :=
  bool_decide (chars pre `prefix_of` chars s).

(** [s.slice(0, -n)] for a positive literal [n] *)
Definition sliceEnd (s : string) (n : nat) : string :=
  str (take (length (chars s) - n) (chars s)).

(** [s.substring(0, n)] *)
Definition substring0 (s : string) (n : nat) : string :=
  str (take n (chars s)).

(** JavaScript truthiness of a string: the empty string is falsy. *)
Definition truthy (s : string) : bool :=
  match s with EmptyString => false | String _ _ => true end.

(** Truthiness of [string | null | undefined]. *)
Definition truthyOpt (o : option string) : bool :=
  match o with Some s => truthy s | None => false end.

(** [s.replace(/\\/g, '/')] *)
Definition backslashToSlash (s : string) : string :=
  str (map (fun c => if Ascii.eqb c "\"%char then "/"%char else c) (chars s)).

(** [s.replace(/\.git$/, '')]: without the [m] flag [$] is the end of input. *)
Definition stripDotGit (s : string) : string :=
  if endsWith s ".git" then sliceEnd s 4 else s.

(** [s.replace(/\/$/, '')] *)
Definition stripSlashEnd (s : string) : string :=
  if endsWith s "/" then sliceEnd s 1 else s.

(** ASCII lower-casing: what [toLowerCase] does on a string whose code
    units are all below 128. *)
Definition lowerAscii (c : ascii) : ascii :=
  let n := nat_of_ascii c in
  if (65 <=? n) && (n <=? 90) then ascii_of_nat (n + 32) else c.

Definition toLowerCaseAscii (s : string) : string :=
  str (map lowerAscii (chars s)).

End JsString.

(** ** src/installer.ts *)
Module Installer.
Import JsString.

(** The character class [[a-z0-9._]]. *)
Definition allowedChar (c : ascii) : bool :=
  let n := nat_of_ascii c in
  ((97 <=? n) && (n <=? 122)) || ((48 <=? n) && (n <=? 57))
  || (n =? 46) || (n =? 95).

(** The character class [[.\-]]. *)
Definition dotOrHyphen (c : ascii) : bool :=
  let n := nat_of_ascii c in (n =? 46) || (n =? 45).

(** [.replace(/[^a-z0-9._]+/g, '-')]: every maximal run of characters
    outside the class becomes one hyphen.  [inRun] records that the
    previous character already belonged to the run being replaced. *)
Fixpoint replaceDisallowed (inRun : bool) (l : list ascii) : list ascii :=
  match l with
  | [] => []
  | c :: tl =>
      if allowedChar c then c :: replaceDisallowed false tl
      else if inRun then replaceDisallowed true tl
      else "-"%char :: replaceDisallowed true tl
  end.

Fixpoint dropWhile (p : ascii -> bool) (l : list ascii) : list ascii :=
  match l with
  | [] => []
  | c :: tl => if p c then dropWhile p tl else l
  end.

(** [.replace(/^[.\-]+|[.\-]+$/g, '')]: the leading run and the trailing
    run of dots and hyphens are removed. *)
Definition trimDotsHyphens (l : list ascii) : list ascii :=
  reverse (dropWhile dotOrHyphen (reverse (dropWhile dotOrHyphen l))).

Definition sanitized (toLowerCase : string -> string) (name : string) : string :=
  str (trimDotsHyphens (replaceDisallowed false (chars (toLowerCase name)))).

Definition sanitizeName (toLowerCase : string -> string) (name : string) : string :=
  let cut := substring0 (sanitized toLowerCase name) 255 in
  if truthy cut then cut else "unnamed-skill".

(** *** Paths

    The functions of Node's [path] module that the installer calls.  They
    are library code outside the repository, so the installer is written
    against this interface; [posix] below is the POSIX flavour. *)
Record PathApi := {
  join : string -> string -> string;
  resolve : string -> string;
  normalize : string -> string;
  dirname : string -> string;
  basename : string -> string;
  sep : string
}.

Definition isSlash (c : ascii) : bool := Ascii.eqb c "/"%char.
Definition notSlash (c : ascii) : bool := negb (isSlash c).

Fixpoint takeWhile (p : ascii -> bool) (l : list ascii) : list ascii :=
  match l with
  | [] => []
  | c :: tl => if p c then c :: takeWhile p tl else []
  end.

(** Split at every '/'; [cur] is the segment being read, reversed. *)
Fixpoint splitSlash (cur : list ascii) (l : list ascii) : list string :=
  match l with
  | [] => [str (reverse cur)]
  | c :: tl =>
      if isSlash c then str (reverse cur) :: splitSlash [] tl
      else splitSlash (c :: cur) tl
  end.

(** Node's [normalizeString]: empty and '.' segments vanish, '..' removes
    the segment before it; above the top it is kept when [allowAboveRoot]
    and dropped otherwise.  [acc] holds the result so far, last segment
    first. *)
Fixpoint normalizeSegments (allowAboveRoot : bool) (acc : list string)
    (segs : list string) : list string :=
  match segs with
  | [] => reverse acc
  | seg :: rest =>
      if String.eqb seg "" || String.eqb seg "." then
        normalizeSegments allowAboveRoot acc rest
      else if String.eqb seg ".." then
        match acc with
        | last :: before =>
            if String.eqb last ".." then
              normalizeSegments allowAboveRoot
                (if allowAboveRoot then ".." :: acc else acc) rest
            else normalizeSegments allowAboveRoot before rest
        | [] =>
            normalizeSegments allowAboveRoot
              (if allowAboveRoot then [".."] else []) rest
        end
      else normalizeSegments allowAboveRoot (seg :: acc) rest
  end.

Fixpoint joinSlash (segs : list string) : string :=
  match segs with
  | [] => ""
  | [s] => s
  | s :: rest => s +:+ "/" +:+ joinSlash rest
  end.

Definition normalizeString (p : string) (allowAboveRoot : bool) : string :=
  joinSlash (normalizeSegments allowAboveRoot [] (splitSlash [] (chars p))).

Definition isAbsolute (p : string) : bool := startsWith p "/".

Definition posixNormalize (p : string) : string :=
  if negb (truthy p) then "."
  else
    let trailing := endsWith p "/" in
    let body := normalizeString p (negb (isAbsolute p)) in
    if negb (truthy body) then
      (if isAbsolute p then "/" else if trailing then "./" else ".")
    else
      let body' := if trailing then body +:+ "/" else body in
      if isAbsolute p then "/" +:+ body' else body'.

Definition posixJoin (a b : string) : string :=
  match truthy a, truthy b with
  | false, false => "."
  | true, false => posixNormalize a
  | false, true => posixNormalize b
  | true, true => posixNormalize (a +:+ "/" +:+ b)
  end.

(** [resolve(p)] in a process whose working directory is [cwd]. *)
Definition posixResolve (cwd : string) (p : string) : string :=
  let withCwd :=
    if negb (truthy p) then cwd +:+ "/"
    else if isAbsolute p then p +:+ "/"
    else cwd +:+ "/" +:+ p +:+ "/" in
  if isAbsolute withCwd then "/" +:+ normalizeString withCwd false
  else
    let r := normalizeString withCwd true in
    if truthy r then r else ".".

(** [dirname]: trailing slashes and then the last segment are dropped;
    the first character is never examined by the scan. *)
Definition posixDirname (p : string) : string :=
  match chars p with
  | [] => "."
  | c0 :: tl =>
      match dropWhile notSlash (dropWhile isSlash (reverse tl)) with
      | [] => if isSlash c0 then "/" else "."
      | _ :: before =>
          match before with
          | [] => if isSlash c0 then "//" else str [c0]
          | _ :: _ => str (c0 :: reverse before)
          end
      end
  end.

Definition posixBasename (p : string) : string :=
  str (reverse (takeWhile notSlash (dropWhile isSlash (reverse (chars p))))).

Definition posix (cwd : string) : PathApi := {|
  join := posixJoin;
  resolve := posixResolve cwd;
  normalize := posixNormalize;
  dirname := posixDirname;
  basename := posixBasename;
  sep := "/"
|}.

(** *** What is copied *)

(** A source tree as [readdir] with [withFileTypes] shows it: regular
    files, directories and symbolic links, a link with what it resolves
    to.  The names are file names: none holds a '/' and none is '.' or
    '..'.  An entry that [cp] cannot copy, such as a link that resolves to
    nothing or a socket, is an entry on which [cp] throws, which is up to
    [fsError] below. *)
Inductive Node :=
| File (content : string)
| Dir (entries : list (string * Node))
| Link (target : Node).

(** [entry.isDirectory()]: false for a symbolic link, also for one that
    resolves to a directory. *)
Definition isDirectory (n : Node) : bool :=
  match n with Dir _ => true | _ => false end.

Definition EXCLUDE_FILES : list string := ["README.md"; "metadata.json"].
Definition EXCLUDE_DIRS : list string := [".git"].

Definition has (set : list string) (name : string) : bool :=
  existsb (String.eqb name) set.

Definition isExcluded (name : string) (isDir : bool) : bool :=
  if has EXCLUDE_FILES name then true
  else if startsWith name "_" then true
  else if isDir && has EXCLUDE_DIRS name then true
  else false.

(** [!isExcluded(entry.name, entry.isDirectory())], the predicate handed
    to [entries.filter]. *)
Definition admitted (entry : string * Node) : bool :=
  negb (isExcluded entry.1 (isDirectory entry.2)).

(** *** What a directory holds

    A directory is described by what it holds path by path, a path being
    the names that lead to an entry from the directory, and the empty path
    the directory itself. *)
Inductive Kind :=
| IsFile (content : string)
| IsDir.

Abbreviation Holds := (gmap (list string) Kind).

(** What [cp(src, dest, { dereference: true, recursive: true })] creates
    at [dest] when [src] is the given node, by the path from [dest]: a
    link is followed, at every depth, and no name is left out. *)
Fixpoint created (n : Node) : list (list string * Kind) :=
  match n with
  | File c => [([], IsFile c)]
  | Dir es =>
      ([], IsDir)
      :: (fix below (l : list (string * Node)) : list (list string * Kind) :=
            match l with
            | [] => []
            | (name, child) :: tl =>
                map (fun e => (name :: e.1, e.2)) (created child) ++ below tl
            end) es
  | Link target => created target
  end.

(** The directory once [made] has been put under the path [here]. *)
Definition put (here : list string) (made : list (list string * Kind)) (holds : Holds)
    : Holds :=
  foldr (fun e h => <[here ++ e.1 := e.2]> h) holds made.

(** *** File-system effects

    A run is recorded as the list of the operations it issued, oldest
    first; whether an operation throws is decided by [fsError] from the
    operations issued before it, which covers every deterministic file
    system started in a given state. *)
Inductive FsOp :=
| Rm (target : string)
| Mkdir (target : string)
| WriteFile (target content : string)
| Readdir (src : string)
| Cp (src dest : string).

Inductive Result (A : Type) :=
| Ok (a : A)
| Throw (message : string).
Arguments Ok {A} a.
Arguments Throw {A} message.

Definition M (A : Type) : Type := list FsOp -> list FsOp * Result A.

Definition ret {A} (a : A) : M A := fun done => (done, Ok a).

Definition bind {A B} (m : M A) (k : A -> M B) : M B :=
  fun done =>
    match m done with
    | (done', Ok a) => k a done'
    | (done', Throw msg) => (done', Throw msg)
    end.

(** [try { m } catch (error) { handler(error.message) }] *)
Definition tryCatch {A} (m : M A) (handler : string -> M A) : M A :=
  fun done =>
    match m done with
    | (done', Ok a) => (done', Ok a)
    | (done', Throw msg) => handler msg done'
    end.

Notation "x <- m ;; k" := (bind m (fun x => k))
  (at level 100, m at next level, right associativity).
Notation "m ;; k" := (bind m (fun _ => k))
  (at level 100, right associativity).

Fixpoint forEach {A} (l : list A) (body : A -> M unit) : M unit :=
  match l with
  | [] => ret tt
  | x :: tl => body x ;; forEach tl body
  end.

Record Skill := {
  name : string;
  description : string;
  path : string
}.

Record RemoteSkill := {
  remoteName : string;
  remoteDescription : string;
  content : string;
  installName : string;
  sourceUrl : string;
  providerId : string;
  sourceIdentifier : string
}.

(** [files] is a [Map] from relative path to content, read in insertion
    order. *)
Record WellKnownSkill := {
  wkName : string;
  wkDescription : string;
  wkInstallName : string;
  wkSourceUrl : string;
  files : list (string * string)
}.

Record InstallResult := {
  success : bool;
  installedPath : string;
  error : option string
}.

Definition traversalError : string :=
  "Invalid skill name: potential path traversal detected".

(** *** The calls of [copyDirectory]

    [copyDirectory] awaits one operation at a time, but the callbacks it
    hands to [map] all run up to their first [await] before
    [Promise.all] is awaited: the operations of the entries of one
    directory, and of everything below them, are under way together and
    settle in an order the code does not choose.

    A call is an activation of [copyDirectory], or of the callback for an
    entry that is no directory, waiting for the operation it has issued.
    [here] is the path from the install directory to what the call
    creates; [dest] is the same place as the string the code builds with
    [join]. *)
Inductive Call :=
| AtMkdir (src dest : string) (here : list string) (entries : list (string * Node))
| AtReaddir (src dest : string) (here : list string) (entries : list (string * Node))
| AtCp (here : list string) (found : Node).

(** A copy under way: the operations issued so far, the calls that wait,
    each with what its operation will throw, what [await copyDirectory]
    has thrown in [installSkill], and what the operations fulfilled so far
    have made of the install directory. *)
Record Copying := {
  started : list FsOp;
  waiting : list (Call * option string);
  thrown : option string;
  holds : Holds
}.

(** The number of operations the copy of an entry issues at most. *)
Fixpoint calls (n : Node) : nat :=
  match n with
  | Dir es =>
      2 + (fix below (l : list (string * Node)) : nat :=
             match l with
             | [] => 0
             | (_, child) :: tl => calls child + below tl
             end) es
  | _ => 1
  end.

Section Install.

Context (P : PathApi).
Context (toLowerCase : string -> string).
Context (fsError : list FsOp -> FsOp -> option string).
(** The tree [readdir] finds under a source directory. *)
Context (readTree : string -> list (string * Node)).
(** The operation that settles next: the one of the call first in line,
    counting from 0, when [order n] is 0 at the [n]-th settlement, the
    second for 1, and so on around the line. *)
Context (order : nat -> nat).

Definition perform (op : FsOp) : M unit :=
  fun done =>
    match fsError done op with
    | Some msg => (done ++ [op], Throw msg)
    | None => (done ++ [op], Ok tt)
    end.

Definition isPathSafe (basePath targetPath : string) : bool :=
  let normalizedBase := normalize P (resolve P basePath) in
  let normalizedTarget := normalize P (resolve P targetPath) in
  startsWith normalizedTarget (normalizedBase +:+ sep P)
  || String.eqb normalizedTarget normalizedBase.

Definition cleanAndCreateDirectory (dir : string) : M unit :=
  tryCatch (perform (Rm dir)) (fun _ => ret tt) ;;
  perform (Mkdir dir).

Definition failed (dir : string) (msg : string) : InstallResult :=
  {| success := false; installedPath := dir; error := Some msg |}.

Definition succeeded (dir : string) : InstallResult :=
  {| success := true; installedPath := dir; error := None |}.

(** A call issues its operation and waits. *)
Definition start (op : FsOp) (call : Call) (st : Copying) : Copying :=
  {| started := started st ++ [op];
     waiting := waiting st ++ [(call, fsError (started st) op)];
     thrown := thrown st;
     holds := holds st |}.

(** The callback of [map] up to its [await]: it enters [copyDirectory] for
    a directory, which issues [mkdir], and issues [cp] for anything
    else. *)
Definition visit (src dest : string) (here : list string) (st : Copying)
    (entry : string * Node) : Copying :=
  let srcPath := join P src entry.1 in
  let destPath := join P dest entry.1 in
  match entry.2 with
  | Dir sub =>
      start (Mkdir destPath) (AtMkdir srcPath destPath (here ++ [entry.1]) sub) st
  | found => start (Cp srcPath destPath) (AtCp (here ++ [entry.1]) found) st
  end.

(** The call at position [i] is over. *)
Definition leave (i : nat) (made : Holds -> Holds) (st : Copying) : Copying :=
  {| started := started st;
     waiting := delete i (waiting st);
     thrown := thrown st;
     holds := made (holds st) |}.

(** The operation of the call at position [i] settles.  When it throws,
    the call is over; its rejection is what [Promise.all] and every
    [await] above it throw at once, unless they have thrown before.  When
    it is fulfilled the call goes on to its next [await] or returns. *)
Definition settle (i : nat) (st : Copying) : Copying :=
  match waiting st !! i with
  | None => st
  | Some (_, Some msg) =>
      {| started := started st;
         waiting := delete i (waiting st);
         thrown := Some (default msg (thrown st));
         holds := holds st |}
  | Some (AtMkdir src dest here entries, None) =>
      start (Readdir src) (AtReaddir src dest here entries)
        (leave i (insert here IsDir) st)
  | Some (AtReaddir src dest here entries, None) =>
      foldl (visit src dest here) (leave i id st) (List.filter admitted entries)
  | Some (AtCp here found, None) => leave i (put here (created found)) st
  end.

(** Operations settle, from the [n]-th settlement on, until no call is
    left.  [installSkill] gets its result earlier when [await
    copyDirectory] throws: with [toTheEnd] unset the run stops there.  The
    calls that wait at that moment are not cancelled; with [toTheEnd] set
    the run goes on with them. *)
Fixpoint run (toTheEnd : bool) (fuel n : nat) (st : Copying) : Copying :=
  match fuel with
  | 0 => st
  | S fuel' =>
      match waiting st with
      | [] => st
      | _ :: _ =>
          if negb toTheEnd && bool_decide (is_Some (thrown st)) then st
          else run toTheEnd fuel' (S n) (settle (order n mod length (waiting st)) st)
      end
  end.

(** [copyDirectory(src, dest)] from its first [mkdir] on, in a directory
    that holds [before].  [calls] bounds the number of settlements, see
    [copying_settled]. *)
Definition copyingFrom (toTheEnd : bool) (src dest : string)
    (entries : list (string * Node)) (done : list FsOp) (before : Holds) : Copying :=
  run toTheEnd (calls (Dir entries)) 0
    (start (Mkdir dest) (AtMkdir src dest [] entries)
       {| started := done; waiting := []; thrown := None; holds := before |}).

(** The copy at the moment [installSkill] gets its result. *)
Definition copying : string -> string -> list (string * Node) -> list FsOp -> Holds
    -> Copying :=
  copyingFrom false.

Definition copyDirectory (src dest : string) (entries : list (string * Node))
    : M unit :=
  fun done =>
    let st := copying src dest entries done ∅ in
    (started st,
     match thrown st with
     | Some msg => Throw msg
     | None => Ok tt
     end).

(** [installedPath] is the field [path] of the result. *)
Definition installSkill (skill : Skill) (targetDir : string) : M InstallResult :=
  let rawSkillName :=
    if truthy (name skill) then name skill else basename P (path skill) in
  let skillName := sanitizeName toLowerCase rawSkillName in
  let installDir := join P targetDir skillName in
  if negb (isPathSafe targetDir installDir) then
    ret (failed installDir traversalError)
  else
    tryCatch
      (cleanAndCreateDirectory installDir ;;
       copyDirectory (path skill) installDir (readTree (path skill)) ;;
       ret (succeeded installDir))
      (fun msg => ret (failed installDir msg)).

(** What the install directory holds when [installSkill] has returned,
    for an install that got as far as the copy.  [before] is what it held
    when the install began, and [survives] what a [rm] that throws leaves
    of a directory; a [rm] that is fulfilled leaves nothing, and the
    [mkdir] that follows makes the directory.  Nothing else writes to the
    directory in the meantime. *)
Definition installedDirectory (survives : Holds -> Holds) (before : Holds)
    (skill : Skill) (targetDir : string) (done : list FsOp) : Holds :=
  let rawSkillName :=
    if truthy (name skill) then name skill else basename P (path skill) in
  let installDir := join P targetDir (sanitizeName toLowerCase rawSkillName) in
  let cleaned :=
    match fsError done (Rm installDir) with
    | Some _ => survives before
    | None => ∅
    end in
  holds (copying (path skill) installDir (readTree (path skill))
           (done ++ [Rm installDir; Mkdir installDir])
           (<[[] := IsDir]> cleaned)).

(** The operations issued after [installSkill] has returned, by the calls
    it has left waiting. *)
Definition strayOperations (skill : Skill) (targetDir : string) (done : list FsOp)
    : list FsOp :=
  let rawSkillName :=
    if truthy (name skill) then name skill else basename P (path skill) in
  let installDir := join P targetDir (sanitizeName toLowerCase rawSkillName) in
  let copy toTheEnd :=
    copyingFrom toTheEnd (path skill) installDir (readTree (path skill))
      (done ++ [Rm installDir; Mkdir installDir]) ∅ in
  if negb (isPathSafe targetDir installDir) then []
  else
    match fsError (done ++ [Rm installDir]) (Mkdir installDir) with
    | Some _ => []
    | None => drop (length (started (copy false))) (started (copy true))
    end.

Definition installRemoteSkill (skill : RemoteSkill) (targetDir : string)
    : M InstallResult :=
  let skillName := sanitizeName toLowerCase (installName skill) in
  let installDir := join P targetDir skillName in
  if negb (isPathSafe targetDir installDir) then
    ret (failed installDir traversalError)
  else
    tryCatch
      (cleanAndCreateDirectory installDir ;;
       let skillMdPath := join P installDir "SKILL.md" in
       perform (WriteFile skillMdPath (content skill)) ;;
       ret (succeeded installDir))
      (fun msg => ret (failed installDir msg)).

(** The body of the loop over [skill.files]. *)
Definition writeSkillFile (installDir : string) (file : string * string) : M unit :=
  let '(filePath, fileContent) := file in
  let fullPath := join P installDir filePath in
  if negb (isPathSafe installDir fullPath) then ret tt
  else
    let parentDir := dirname P fullPath in
    (if negb (String.eqb parentDir installDir)
     then perform (Mkdir parentDir) else ret tt) ;;
    perform (WriteFile fullPath fileContent).

Definition installWellKnownSkill (skill : WellKnownSkill) (targetDir : string)
    : M InstallResult :=
  let skillName := sanitizeName toLowerCase (wkInstallName skill) in
  let installDir := join P targetDir skillName in
  if negb (isPathSafe targetDir installDir) then
    ret (failed installDir traversalError)
  else
    tryCatch
      (cleanAndCreateDirectory installDir ;;
       forEach (files skill) (writeSkillFile installDir) ;;
       ret (succeeded installDir))
      (fun msg => ret (failed installDir msg)).

End Install.

(** A file system on which no operation fails. *)
Definition neverFails : list FsOp -> FsOp -> option string := fun _ _ => None.

End Installer.

(** ** src/skill-lock.ts *)
Module SkillLock.
Import JsString.

Definition AGENTS_DIR : string := ".agents".
Definition LOCK_FILE : string := ".skill-lock.json".
Definition CURRENT_VERSION : Q := 3.

(** *** The lock file as [JSON.parse] returns it

    A number is the value of the double that [JSON.parse] produced; the
    comparison with the version constant is exact on it. *)
Inductive Json :=
| JNull
| JBool (b : bool)
| JNumber (q : Q)
| JString (s : string)
| JArray (items : list Json)
| JObject (fields : list (string * Json)).

(** What the [try] block has in hand after [readFile] and [JSON.parse]. *)
Inductive FileRead :=
| ReadThrows
| ParseThrows
| Parsed (parsed : Json).

Fixpoint assoc (key : string) (fields : list (string * Json)) : option Json :=
  match fields with
  | [] => None
  | (k, v) :: tl => if String.eqb k key then Some v else assoc key tl
  end.

(** [parsed.key] for the keys [version] and [skills]: [None] is
    [undefined].  On [null] the access throws instead, see [accessThrows]. *)
Definition getProp (j : Json) (key : string) : option Json :=
  match j with
  | JObject fields => assoc key fields
  | _ => None
  end.

Definition accessThrows (j : Json) : bool :=
  match j with JNull => true | _ => false end.

(** [typeof v === 'number'] *)
Definition isNumber (v : option Json) : bool :=
  match v with Some (JNumber _) => true | _ => false end.

(** Truthiness of a property value. *)
Definition truthyJson (v : option Json) : bool :=
  match v with
  | None => false
  | Some JNull => false
  | Some (JBool b) => b
  | Some (JNumber q) => negb (Qeq_bool q 0)
  | Some (JString s) => truthy s
  | Some (JArray _) => true
  | Some (JObject _) => true
  end.

Definition Qltb (a b : Q) : bool := negb (Qle_bool b a).

(** [v < bound]; the code only reaches it when [v] is a number. *)
Definition numberBelow (v : option Json) (bound : Q) : bool :=
  match v with
  | Some (JNumber q) => Qltb q bound
  | _ => false
  end.

Definition createEmptyLockFile : Json :=
  JObject [("version", JNumber CURRENT_VERSION); ("skills", JObject [])].

Definition readSkillLock (file : FileRead) : Json :=
  match file with
  | ReadThrows => createEmptyLockFile
  | ParseThrows => createEmptyLockFile
  | Parsed parsed =>
      if accessThrows parsed then createEmptyLockFile
      else if negb (isNumber (getProp parsed "version"))
              || negb (truthyJson (getProp parsed "skills"))
      then createEmptyLockFile
      else if numberBelow (getProp parsed "version") CURRENT_VERSION
      then createEmptyLockFile
      else parsed
  end.

(** [Object.keys(lock.skills)]: the keys of an object, the indices of an
    array or of a string, nothing for a number or a boolean. *)
Definition indices (n : nat) : list string := map pretty (seq 0 n).

Definition trackedSkills (lock : Json) : list string :=
  match getProp lock "skills" with
  | Some (JObject fields) => map fst fields
  | Some (JArray items) => indices (length items)
  | Some (JString s) => indices (String.length s)
  | _ => []
  end.

(** *** Lock files of the declared type *)
Record SkillLockEntry := {
  source : string;
  sourceType : string;
  sourceUrl : string;
  skillPath : option string;
  skillFolderHash : string;
  installedAt : string;
  updatedAt : string
}.

Record SkillLockFile := {
  version : Q;
  skills : gmap string SkillLockEntry
}.

(** [Omit<SkillLockEntry, 'installedAt' | 'updatedAt'>] *)
Record NewEntry := {
  newSource : string;
  newSourceType : string;
  newSourceUrl : string;
  newSkillPath : option string;
  newSkillFolderHash : string
}.

Definition emptyLockFile : SkillLockFile :=
  {| version := CURRENT_VERSION; skills := ∅ |}.

(** The lock file on disk: [None] when it is missing or not JSON. *)
Definition Disk : Type := option SkillLockFile.

(** [readSkillLock] on a file of the declared type: [version] is a number
    and [skills] an object, so only the version comparison can fire. *)
Definition readSkillLockTyped (disk : Disk) : SkillLockFile :=
  match disk with
  | None => emptyLockFile
  | Some parsed =>
      if Qltb (version parsed) CURRENT_VERSION then emptyLockFile else parsed
  end.

(** [writeSkillLock] replaces the whole file. *)
Definition writeSkillLock (lock : SkillLockFile) : Disk := Some lock.

(** [skills[skillName] = stored].  The map holds the keys the object has
    of its own.  An assignment under '__proto__' to an object that has no
    such key runs the setter the object inherits from [Object.prototype]:
    it replaces the prototype of the object and stores no key, so that
    [JSON.stringify] writes nothing for it.  [JSON.parse] does give an
    object a key '__proto__' of its own when the file has one, and the
    assignment then replaces its value like that of any other key. *)
Definition assign (skillName : string) (stored : SkillLockEntry)
    (skills : gmap string SkillLockEntry) : gmap string SkillLockEntry :=
  match skills !! skillName with
  | Some _ => <[skillName := stored]> skills
  | None =>
      if String.eqb skillName "__proto__" then skills
      else <[skillName := stored]> skills
  end.

(** [addSkillToLock(skillName, entry)] at time [now].  For a name that is
    no key of [lock.skills], [existingEntry] is [undefined] or what the
    object inherits under that name, a function or [Object.prototype]; none
    of them has an [installedAt], and [existingEntry?.installedAt ?? now]
    is [now]. *)
Definition addSkillToLock (now : string) (skillName : string) (entry : NewEntry)
    (disk : Disk) : Disk :=
  let lock := readSkillLockTyped disk in
  let existingEntry := skills lock !! skillName in
  let stored := {|
    source := newSource entry;
    sourceType := newSourceType entry;
    sourceUrl := newSourceUrl entry;
    skillPath := newSkillPath entry;
    skillFolderHash := newSkillFolderHash entry;
    installedAt :=
      match existingEntry with
      | Some e => installedAt e
      | None => now
      end;
    updatedAt := now
  |} in
  writeSkillLock {| version := version lock;
                    skills := assign skillName stored (skills lock) |}.

(** [getSkillFromLock(skillName)]: the entry under a key of
    [lock.skills].  For a name that is no key but that every object
    inherits, the code returns what is inherited, which has none of the
    fields of an entry; its one caller, [removeCommand], reads [source] and
    [sourceType] through [?.] and finds them [undefined], as on [null]. *)
Definition getSkillFromLock (skillName : string) (disk : Disk)
    : option SkillLockEntry :=
  skills (readSkillLockTyped disk) !! skillName.

(** The property names every object inherits from [Object.prototype]. *)
Definition objectPrototypeNames : list string :=
  ["constructor"; "__defineGetter__"; "__defineSetter__"; "hasOwnProperty";
   "__lookupGetter__"; "__lookupSetter__"; "isPrototypeOf";
   "propertyIsEnumerable"; "toString"; "valueOf"; "__proto__";
   "toLocaleString"].

(** [skillName in lock.skills]: an own key or an inherited name. *)
Definition inSkills (skillName : string) (lock : SkillLockFile) : bool :=
  bool_decide (is_Some (skills lock !! skillName))
  || bool_decide (skillName ∈ objectPrototypeNames).

(** [removeSkillFromLock(skillName)]: the file afterwards and the value
    returned. *)
Definition removeSkillFromLock (skillName : string) (disk : Disk) : Disk * bool :=
  let lock := readSkillLockTyped disk in
  if negb (inSkills skillName lock) then (disk, false)
  else
    (writeSkillLock {| version := version lock;
                       skills := delete skillName (skills lock) |}, true).

Definition getAllLockedSkills (disk : Disk) : gmap string SkillLockEntry :=
  skills (readSkillLockTyped disk).

(** [getGitHubToken()].  [GITHUB_TOKEN] and [GH_TOKEN] are the two
    environment variables; [ghAuthToken] is the trimmed output of
    [gh auth token], [None] when the command throws. *)
Definition getGitHubToken (GITHUB_TOKEN GH_TOKEN ghAuthToken : option string)
    : option string :=
  if truthyOpt GITHUB_TOKEN then GITHUB_TOKEN
  else if truthyOpt GH_TOKEN then GH_TOKEN
  else
    match ghAuthToken with
    | Some token => if truthy token then Some token else None
    | None => None
    end.

(** The JSON document of a typed lock file. *)
Definition optField (key : string) (v : option string) : list (string * Json) :=
  match v with Some s => [(key, JString s)] | None => [] end.

Definition entryToJson (e : SkillLockEntry) : Json :=
  JObject ([("source", JString (source e));
            ("sourceType", JString (sourceType e));
            ("sourceUrl", JString (sourceUrl e))]
           ++ optField "skillPath" (skillPath e)
           ++ [("skillFolderHash", JString (skillFolderHash e));
               ("installedAt", JString (installedAt e));
               ("updatedAt", JString (updatedAt e))]).

Definition toJson (lock : SkillLockFile) : Json :=
  JObject [("version", JNumber (version lock));
           ("skills",
             JObject (map (fun kv => (fst kv, entryToJson (snd kv)))
                          (map_to_list (skills lock))))].

Definition diskToFile (disk : Disk) : FileRead :=
  match disk with
  | None => ReadThrows
  | Some lock => Parsed (toJson lock)
  end.

(** *** The fingerprint lookup *)
Record TreeEntry := {
  entryPath : string;
  entryType : string;
  entrySha : string
}.

Record TreeResponse := {
  sha : string;
  tree : list TreeEntry
}.

(** The first lines of [fetchSkillFolderHash]: the folder of the skill. *)
Definition folderPathOf (skillPath : string) : string :=
  let folderPath := backslashToSlash skillPath in
  let folderPath :=
    if endsWith folderPath "/SKILL.md" then sliceEnd folderPath 9
    else if endsWith folderPath "SKILL.md" then sliceEnd folderPath 8
    else folderPath in
  if endsWith folderPath "/" then sliceEnd folderPath 1 else folderPath.

Definition branches : list string := ["main"; "master"].

Definition treesUrl (ownerRepo branch : string) : string :=
  "https://api.github.com/repos/" +:+ ownerRepo +:+ "/git/trees/" +:+ branch
  +:+ "?recursive=1".

Definition requestHeaders (token : option string) : list (string * string) :=
  [("Accept", "application/vnd.github.v3+json"); ("User-Agent", "skulls-cli")]
  ++ match token with
     | Some t => if truthy t then [("Authorization", "Bearer " +:+ t)] else []
     | None => []
     end.

Definition isFolderEntry (folderPath : string) (entry : TreeEntry) : bool :=
  String.eqb (entryType entry) "tree" && String.eqb (entryPath entry) folderPath.

Fixpoint findEntry (p : TreeEntry -> bool) (l : list TreeEntry) : option TreeEntry :=
  match l with
  | [] => None
  | e :: tl => if p e then Some e else findEntry p tl
  end.

Section Fetch.

(** [fetch(url, {headers})] followed by [response.json()]: [None] when
    the response is not ok or either call throws. *)
Context (httpGetTree : string -> list (string * string) -> option TreeResponse).

Fixpoint tryBranches (ownerRepo folderPath : string) (token : option string)
    (candidates : list string) : option string :=
  match candidates with
  | [] => None
  | branch :: rest =>
      match httpGetTree (treesUrl ownerRepo branch) (requestHeaders token) with
      | None => tryBranches ownerRepo folderPath token rest
      | Some data =>
          if negb (truthy folderPath) then Some (sha data)
          else
            match findEntry (isFolderEntry folderPath) (tree data) with
            | Some folderEntry => Some (entrySha folderEntry)
            | None => tryBranches ownerRepo folderPath token rest
            end
      end
  end.

Definition fetchSkillFolderHash (ownerRepo skillPath : string)
    (token : option string) : option string :=
  tryBranches ownerRepo (folderPathOf skillPath) token branches.

End Fetch.

End SkillLock.

(** ** src/cli.ts: the [check] and [update] commands *)
Module Cli.
Import JsString.
Import SkillLock.

Definition CURRENT_LOCK_VERSION : Q := 3.

(** The synchronous copy of [readSkillLock] kept in [cli.ts]. *)
Definition emptyLock : Json :=
  JObject [("version", JNumber CURRENT_LOCK_VERSION); ("skills", JObject [])].

Definition readSkillLock (file : FileRead) : Json :=
  match file with
  | ReadThrows => emptyLock
  | ParseThrows => emptyLock
  | Parsed parsed =>
      if accessThrows parsed then emptyLock
      else if negb (isNumber (getProp parsed "version"))
              || negb (truthyJson (getProp parsed "skills"))
      then emptyLock
      else if numberBelow (getProp parsed "version") CURRENT_LOCK_VERSION
      then emptyLock
      else parsed
  end.

(** The guard shared by [runCheck] and [runUpdate]:
    [entry.sourceType !== 'github' || !entry.skillFolderHash || !entry.skillPath]. *)
Definition skipped (entry : SkillLockEntry) : bool :=
  negb (String.eqb (sourceType entry) "github")
  || negb (truthy (skillFolderHash entry))
  || negb (truthyOpt (skillPath entry)).

(** [Object.keys(lock.skills)] *)
Definition skillNamesOf (lock : SkillLockFile) : list string :=
  (map_to_list (skills lock)).*1.

(** A [Map] with string keys, in insertion order. *)
Fixpoint mapGet {V} (key : string) (m : list (string * V)) : option V :=
  match m with
  | [] => None
  | (k, v) :: tl => if String.eqb k key then Some v else mapGet key tl
  end.

Fixpoint mapSet {V} (key : string) (v : V) (m : list (string * V))
    : list (string * V) :=
  match m with
  | [] => [(key, v)]
  | (k, v') :: tl =>
      if String.eqb k key then (k, v) :: tl else (k, v') :: mapSet key v tl
  end.

Record Update := {
  updateName : string;
  updateSource : string
}.

Record CheckError := {
  errorName : string;
  errorSource : string;
  errorMessage : string
}.

Inductive CheckReport :=
| NoSkillsTracked
| NoGitHubSkills (skippedCount : nat)
| Checked (totalSkills skippedCount : nat)
          (updates : list Update) (errors : list CheckError).

Section Commands.

Context (httpGetTree : string -> list (string * string) -> option TreeResponse).
(** [getGitHubToken()] *)
Context (token : option string).

(** First loop of [runCheck]: group the checkable entries by source and
    count the others. *)
Fixpoint groupBySource (lock : SkillLockFile) (skillNames : list string)
    (skillsBySource : list (string * list (string * SkillLockEntry)))
    (skippedCount : nat)
    : list (string * list (string * SkillLockEntry)) * nat :=
  match skillNames with
  | [] => (skillsBySource, skippedCount)
  | skillName :: rest =>
      match skills lock !! skillName with
      | None => groupBySource lock rest skillsBySource skippedCount
      | Some entry =>
          if skipped entry then
            groupBySource lock rest skillsBySource (S skippedCount)
          else
            let existing := default [] (mapGet (source entry) skillsBySource) in
            groupBySource lock rest
              (mapSet (source entry) (existing ++ [(skillName, entry)])
                      skillsBySource)
              skippedCount
      end
  end.

(** Body of the inner loop of [runCheck].  Its [catch] branch is for a
    fetch that throws; [fetchSkillFolderHash] catches what its requests
    throw, so the branch is not taken. *)
Definition checkOne (src : string) (item : string * SkillLockEntry)
    (acc : list Update * list CheckError) : list Update * list CheckError :=
  let '(name, entry) := item in
  let '(updates, errors) := acc in
  let latestHash :=
    fetchSkillFolderHash httpGetTree src (default "" (skillPath entry)) token in
  if negb (truthyOpt latestHash) then
    (updates,
     errors ++ [{| errorName := name; errorSource := src;
                   errorMessage := "Could not fetch from GitHub" |}])
  else if negb (bool_decide (latestHash = Some (skillFolderHash entry))) then
    (updates ++ [{| updateName := name; updateSource := src |}], errors)
  else (updates, errors).

Fixpoint checkSource (src : string) (items : list (string * SkillLockEntry))
    (acc : list Update * list CheckError) : list Update * list CheckError :=
  match items with
  | [] => acc
  | item :: rest => checkSource src rest (checkOne src item acc)
  end.

Fixpoint checkAll (groups : list (string * list (string * SkillLockEntry)))
    (acc : list Update * list CheckError) : list Update * list CheckError :=
  match groups with
  | [] => acc
  | (src, items) :: rest => checkAll rest (checkSource src items acc)
  end.

Definition runCheck (disk : Disk) : CheckReport :=
  let lock := readSkillLockTyped disk in
  let skillNames := skillNamesOf lock in
  if length skillNames =? 0 then NoSkillsTracked
  else
    let '(skillsBySource, skippedCount) := groupBySource lock skillNames [] 0 in
    let totalSkills := length skillNames - skippedCount in
    if totalSkills =? 0 then NoGitHubSkills skippedCount
    else
      let '(updates, errors) := checkAll skillsBySource ([], []) in
      Checked totalSkills skippedCount updates errors.

(** *** [runUpdate] *)
Record PendingUpdate := {
  pendingName : string;
  pendingSource : string;
  pendingEntry : SkillLockEntry
}.

(** First loop of [runUpdate]. *)
Fixpoint collectUpdates (lock : SkillLockFile) (skillNames : list string)
    (updates : list PendingUpdate) (checkedCount : nat)
    : list PendingUpdate * nat :=
  match skillNames with
  | [] => (updates, checkedCount)
  | skillName :: rest =>
      match skills lock !! skillName with
      | None => collectUpdates lock rest updates checkedCount
      | Some entry =>
          if skipped entry then collectUpdates lock rest updates checkedCount
          else
            let latestHash :=
              fetchSkillFolderHash httpGetTree (source entry)
                (default "" (skillPath entry)) token in
            if truthyOpt latestHash
               && negb (bool_decide (latestHash = Some (skillFolderHash entry)))
            then
              collectUpdates lock rest
                (updates ++ [{| pendingName := skillName;
                                pendingSource := source entry;
                                pendingEntry := entry |}])
                (S checkedCount)
            else collectUpdates lock rest updates (S checkedCount)
      end
  end.

(** The URL handed to [skulls add] for one pending update. *)
Definition installUrlOf (entry : SkillLockEntry) : string :=
  if truthyOpt (skillPath entry) then
    let skillFolder := default "" (skillPath entry) in
    let skillFolder :=
      if endsWith skillFolder "/SKILL.md" then sliceEnd skillFolder 9
      else if endsWith skillFolder "SKILL.md" then sliceEnd skillFolder 8
      else skillFolder in
    let skillFolder :=
      if endsWith skillFolder "/" then sliceEnd skillFolder 1 else skillFolder in
    let installUrl := stripSlashEnd (stripDotGit (sourceUrl entry)) in
    installUrl +:+ "/tree/main/" +:+ skillFolder
  else sourceUrl entry.

Definition spawnArgs (installUrl : string) : list string :=
  ["-y"; "@juanibiapina/skulls"; "add"; installUrl; "-y"].

(** [spawnSync('npx', args).status] given the commands run before it. *)
Context (spawnStatus : list (list string) -> list string -> option Z).

Record Spawned := {
  spawnedFor : string;
  spawnedArgs : list string;
  spawnedOk : bool
}.

Fixpoint applyUpdates (updates : list PendingUpdate) (ran : list Spawned)
    (successCount failCount : nat) : list Spawned * nat * nat :=
  match updates with
  | [] => (ran, successCount, failCount)
  | update :: rest =>
      let args := spawnArgs (installUrlOf (pendingEntry update)) in
      let ok :=
        bool_decide (spawnStatus (map spawnedArgs ran) args = Some 0%Z) in
      let ran' := ran ++ [{| spawnedFor := pendingName update;
                             spawnedArgs := args; spawnedOk := ok |}] in
      if ok then applyUpdates rest ran' (S successCount) failCount
      else applyUpdates rest ran' successCount (S failCount)
  end.

Inductive UpdateReport :=
| UpdateNoSkillsTracked
| NoSkillsToCheck
| AllUpToDate
| Applied (ran : list Spawned) (successCount failCount : nat).

Definition runUpdate (disk : Disk) : UpdateReport :=
  let lock := readSkillLockTyped disk in
  let skillNames := skillNamesOf lock in
  if length skillNames =? 0 then UpdateNoSkillsTracked
  else
    let '(updates, checkedCount) := collectUpdates lock skillNames [] 0 in
    if checkedCount =? 0 then NoSkillsToCheck
    else if length updates =? 0 then AllUpToDate
    else
      let '(ran, successCount, failCount) := applyUpdates updates [] 0 0 in
      Applied ran successCount failCount.

End Commands.

End Cli.

(** ** src/add.ts: choosing the skills to install *)
Module Add.
Import JsString.

Record AddOptions := {
  yes : bool;
  skill : option (list string);
  listOnly : bool;   (* [list] in the source *)
  all : bool;
  fullDepth : bool;
  targetDir : option string
}.

(** [--all] implies [--skill '*'] and [-y]. *)
Definition applyAll (options : AddOptions) : AddOptions :=
  if all options then
    {| yes := true; skill := Some ["*"]; listOnly := listOnly options;
       all := all options; fullDepth := fullDepth options;
       targetDir := targetDir options |}
  else options.

(** [Array.prototype.includes] on strings. *)
Definition includes (l : list string) (x : string) : bool :=
  existsb (String.eqb x) l.

(** The [@skill] suffix of the source is merged into [options.skill]. *)
Definition mergeSkillFilter (skillFilter : option string) (options : AddOptions)
    : AddOptions :=
  if truthyOpt skillFilter then
    let f := default "" skillFilter in
    let current := default [] (skill options) in
    {| yes := yes options;
       skill := Some (if includes current f then current else current ++ [f]);
       listOnly := listOnly options; all := all options;
       fullDepth := fullDepth options; targetDir := targetDir options |}
  else options.

(** How the selection step of [runAdd] ends. *)
Inductive Selection (S : Type) :=
| Proceed (selectedSkills : list S)
| NoMatch (requested : list string) (available : list string)
| Cancelled.
Arguments Proceed {S} selectedSkills.
Arguments NoMatch {S} requested available.
Arguments Cancelled {S}.

(** [process.exit] status of a selection that stops the command. *)
Definition exitStatus {S} (sel : Selection S) : option nat :=
  match sel with
  | Proceed _ => None
  | NoMatch _ _ => Some 1
  | Cancelled => Some 0
  end.

Section Select.

Context {Skill : Type}.
(** [filterSkills] and [getSkillDisplayName] of [skills.ts]. *)
Context (filterSkills : list Skill -> list string -> list Skill).
Context (getSkillDisplayName : Skill -> string).
(** [p.multiselect]: the user's choice, [None] when cancelled. *)
Context (multiselect : list Skill -> option (list Skill)).

Definition selectSkills (options : AddOptions) (skills : list Skill)
    : Selection Skill :=
  if match skill options with Some l => includes l "*" | None => false end then
    Proceed skills
  else if match skill options with
          | Some l => 0 <? length l
          | None => false
          end then
    let selectedSkills := filterSkills skills (default [] (skill options)) in
    if length selectedSkills =? 0 then
      NoMatch (default [] (skill options)) (map getSkillDisplayName skills)
    else Proceed selectedSkills
  else if length skills =? 1 then Proceed skills
  else if yes options then Proceed skills
  else
    match multiselect skills with
    | None => Cancelled
    | Some selected => Proceed selected
    end.

End Select.

End Add.

(** ** src/installer.ts: where a skill lives once installed *)
Module InstallerQueries.
Import JsString Installer.

Section Queries.

Context (P : PathApi).
Context (toLowerCase : string -> string).
(** [access(path)]: [true] when the call does not throw. *)
Context (access : string -> bool).

(** [getInstallPath(skillName, targetDir)]; the [throw] is the [Throw]. *)
Definition getInstallPath (skillName targetDir : string) : Result string :=
  let sanitizedName := sanitizeName toLowerCase skillName in
  let installPath := join P targetDir sanitizedName in
  if negb (isPathSafe P targetDir installPath) then Throw traversalError
  else Ok installPath.

Definition isSkillInstalled (skillName targetDir : string) : bool :=
  let sanitizedName := sanitizeName toLowerCase skillName in
  let skillDir := join P targetDir sanitizedName in
  if negb (isPathSafe P targetDir skillDir) then false
  else access skillDir.

End Queries.

End InstallerQueries.

(** ** src/skill-lock.ts: the tracked skills grouped by source *)
Module LockGroups.
Import JsString SkillLock.

(** A value of the [Map] that [getSkillsBySource] returns. *)
Record SourceGroup := {
  groupSkills : list string;
  groupEntry : SkillLockEntry
}.

(** The loop over [Object.entries(lock.skills)].  [push] on the array of
    an existing group updates the group where it sits in the [Map]. *)
Fixpoint groupEntries (entries : list (string * SkillLockEntry))
    (bySource : list (string * SourceGroup)) : list (string * SourceGroup) :=
  match entries with
  | [] => bySource
  | (skillName, entry) :: rest =>
      match Cli.mapGet (source entry) bySource with
      | Some existing =>
          groupEntries rest
            (Cli.mapSet (source entry)
               {| groupSkills := groupSkills existing ++ [skillName];
                  groupEntry := groupEntry existing |}
               bySource)
      | None =>
          groupEntries rest
            (Cli.mapSet (source entry)
               {| groupSkills := [skillName]; groupEntry := entry |}
               bySource)
      end
  end.

Definition getSkillsBySource (disk : Disk) : list (string * SourceGroup) :=
  groupEntries (map_to_list (skills (readSkillLockTyped disk))) [].

End LockGroups.

(** ** src/add.ts: arguments, well-known skills and what is recorded *)
Module AddFlow.
Import JsString Add.

Record ParsedAdd := {
  parsedSource : list string;
  parsedOptions : AddOptions
}.

(** [const options: AddOptions = {}] *)
Definition noOptions : AddOptions := {|
  yes := false; skill := None; listOnly := false; all := false;
  fullDepth := false; targetDir := None
|}.

Definition setYes (o : AddOptions) : AddOptions :=
  {| yes := true; skill := skill o; listOnly := listOnly o; all := all o;
     fullDepth := fullDepth o; targetDir := targetDir o |}.

Definition setList (o : AddOptions) : AddOptions :=
  {| yes := yes o; skill := skill o; listOnly := true; all := all o;
     fullDepth := fullDepth o; targetDir := targetDir o |}.

Definition setAll (o : AddOptions) : AddOptions :=
  {| yes := yes o; skill := skill o; listOnly := listOnly o; all := true;
     fullDepth := fullDepth o; targetDir := targetDir o |}.

Definition setFullDepth (o : AddOptions) : AddOptions :=
  {| yes := yes o; skill := skill o; listOnly := listOnly o; all := all o;
     fullDepth := true; targetDir := targetDir o |}.

(** [options.targetDir = args[i]]; [None] is the [undefined] read past
    the end of [args]. *)
Definition setTargetDir (value : option string) (o : AddOptions) : AddOptions :=
  {| yes := yes o; skill := skill o; listOnly := listOnly o; all := all o;
     fullDepth := fullDepth o; targetDir := value |}.

(** [options.skill = options.skill || []] *)
Definition initSkill (o : AddOptions) : AddOptions :=
  {| yes := yes o; skill := Some (default [] (skill o)); listOnly := listOnly o;
     all := all o; fullDepth := fullDepth o; targetDir := targetDir o |}.

(** [options.skill.push(nextArg)] *)
Definition pushSkill (nextArg : string) (o : AddOptions) : AddOptions :=
  {| yes := yes o; skill := Some (default [] (skill o) ++ [nextArg]);
     listOnly := listOnly o; all := all o; fullDepth := fullDepth o;
     targetDir := targetDir o |}.

Definition isOneOf (arg a b : string) : bool :=
  String.eqb arg a || String.eqb arg b.

(** [arg && !arg.startsWith('-')] *)
Definition plainArg (arg : string) : bool :=
  truthy arg && negb (startsWith arg "-").

(** The loop of [parseAddOptions] over [args] from index [i] on.
    [collecting] holds inside the [while] that follows '-s': a plain
    argument is then a skill name, and any other argument ends the
    [while] and is read by the [for] loop, which is what [i--] followed
    by [i++] does. *)
Fixpoint parseLoop (args : list string) (collecting : bool)
    (source : list string) (options : AddOptions) : ParsedAdd :=
  match args with
  | [] => {| parsedSource := source; parsedOptions := options |}
  | arg :: rest =>
      if collecting && plainArg arg then
        parseLoop rest true source (pushSkill arg options)
      else if isOneOf arg "-y" "--yes" then
        parseLoop rest false source (setYes options)
      else if isOneOf arg "-l" "--list" then
        parseLoop rest false source (setList options)
      else if String.eqb arg "--all" then
        parseLoop rest false source (setAll options)
      else if isOneOf arg "-d" "--target-dir" then
        match rest with
        | [] =>
            {| parsedSource := source;
               parsedOptions := setTargetDir None options |}
        | value :: rest' =>
            parseLoop rest' false source (setTargetDir (Some value) options)
        end
      else if isOneOf arg "-s" "--skill" then
        parseLoop rest true source (initSkill options)
      else if String.eqb arg "--full-depth" then
        parseLoop rest false source (setFullDepth options)
      else if plainArg arg then
        parseLoop rest false (source ++ [arg]) options
      else parseLoop rest false source options
  end.

Definition parseAddOptions (args : list string) : ParsedAdd :=
  parseLoop args false [] noOptions.

(** [resolveTargetDir(options)] *)
Definition resolveTargetDir (DEFAULT_SKILLS_DIR : string) (options : AddOptions)
    : string :=
  if truthyOpt (targetDir options) then default "" (targetDir options)
  else DEFAULT_SKILLS_DIR.

(** *** Selection in [handleWellKnownSkills] *)
Section WellKnown.

Context (toLowerCase : string -> string).
Context (multiselect :
  list Installer.WellKnownSkill -> option (list Installer.WellKnownSkill)).

(** The predicate handed to [skills.filter]. *)
Definition matchesRequested (requested : list string)
    (s : Installer.WellKnownSkill) : bool :=
  existsb
    (fun name =>
       String.eqb (toLowerCase (Installer.wkInstallName s)) (toLowerCase name)
       || String.eqb (toLowerCase (Installer.wkName s)) (toLowerCase name))
    requested.

Definition selectWellKnownSkills (options : AddOptions)
    (skills : list Installer.WellKnownSkill)
    : Selection Installer.WellKnownSkill :=
  if match skill options with Some l => includes l "*" | None => false end then
    Proceed skills
  else if match skill options with
          | Some l => 0 <? length l
          | None => false
          end then
    let selectedSkills :=
      List.filter (matchesRequested (default [] (skill options))) skills in
    if length selectedSkills =? 0 then
      NoMatch (default [] (skill options)) (map Installer.wkInstallName skills)
    else Proceed selectedSkills
  else if length skills =? 1 then Proceed skills
  else if yes options then Proceed skills
  else
    match multiselect skills with
    | None => Cancelled
    | Some selected => Proceed selected
    end.

End WellKnown.

(** *** From the discovered skills to the selection

    [runAdd] and [handleWellKnownSkills] both stop before the selection
    when nothing was discovered, with [process.exit(1)], and when [--list]
    was given, with [process.exit(0)] after printing the skills.  The
    options are those [runAdd] has at that point: after [--all] was
    applied and, in [runAdd] itself, after the [@skill] suffix of the
    source was merged in. *)
Inductive Discovery (S : Type) :=
| NoSkillsFound
| ListedOnly (skills : list S)
| Selecting (selection : Selection S).
Arguments NoSkillsFound {S}.
Arguments ListedOnly {S} skills.
Arguments Selecting {S} selection.

Definition afterDiscovery {S : Type} (select : AddOptions -> list S -> Selection S)
    (options : AddOptions) (skills : list S) : Discovery S :=
  if length skills =? 0 then NoSkillsFound
  else if listOnly options then ListedOnly skills
  else Selecting (select options skills).

(** *** What the add flows hand to [addSkillToLock] *)
Section Recorded.

Context (httpGetTree :
  string -> list (string * string) -> option SkillLock.TreeResponse).
(** [sep] of Node's [path]; one character on every platform. *)
Context (sep : ascii).

(** [s.split(sep).join('/')] *)
Definition splitJoin (s : string) : string :=
  str (map (fun c => if Ascii.eqb c sep then "/"%char else c) (chars s)).

(** The path of a skill's manifest inside the clone, as [runAdd] computes
    it for [skillFiles]; [None] is the [continue]. *)
Definition relativePathOf (tempDir : option string) (skillPath : string)
    : option string :=
  if truthyOpt tempDir && String.eqb skillPath (default "" tempDir) then
    Some "SKILL.md"
  else if truthyOpt tempDir
          && startsWith skillPath (default "" tempDir +:+ String sep "") then
    Some (splitJoin
            (str (drop (String.length (default "" tempDir) + 1)
                       (chars skillPath)))
          +:+ "/SKILL.md")
  else None.

(** [skillFiles[name] = relativePath] on the keys the object has of its
    own.  [skillFiles] starts as the literal [{}]; an assignment under
    '__proto__' runs the setter that every object inherits, which ignores
    a string, and stores no key. *)
Definition assignPath (name relativePath : string) (skillFiles : gmap string string)
    : gmap string string :=
  if String.eqb name "__proto__" then skillFiles
  else <[name := relativePath]> skillFiles.

(** The object [skillFiles], keyed by skill name. *)
Fixpoint skillFilesOf (tempDir : option string)
    (selectedSkills : list Installer.Skill) (skillFiles : gmap string string)
    : gmap string string :=
  match selectedSkills with
  | [] => skillFiles
  | s :: rest =>
      match relativePathOf tempDir (Installer.path s) with
      | Some relativePath =>
          skillFilesOf tempDir rest
            (assignPath (Installer.name s) relativePath skillFiles)
      | None => skillFilesOf tempDir rest skillFiles
      end
  end.

(** [skillFiles[skill.name]] for a name that is no key of [skillFiles] but
    that every object inherits: the inherited function, or
    [Object.prototype] for '__proto__'.  The value is truthy and is no
    string. *)
Definition readsInherited (skillFiles : gmap string string) (name : string) : bool :=
  bool_decide (skillFiles !! name = None)
  && bool_decide (name ∈ SkillLock.objectPrototypeNames).

(** With a GitHub source such a value goes to [fetchSkillFolderHash],
    which throws at [skillPath.replace]: the [try] block of [runAdd] ends
    there, before [addSkillToLock]. *)
Definition hashLookupThrows (parsedType : string) (skillFiles : gmap string string)
    (s : Installer.Skill) : bool :=
  String.eqb parsedType "github" && readsInherited skillFiles (Installer.name s).

(** [let skillFolderHash = ''; ... if (hash) skillFolderHash = hash]; the
    add flows call [fetchSkillFolderHash] without a token. *)
Definition fetchedHash (ownerRepo skillPath : string) : string :=
  match SkillLock.fetchSkillFolderHash httpGetTree ownerRepo skillPath None with
  | Some hash => if truthy hash then hash else ""
  | None => ""
  end.

(** The entry [runAdd] records for a skill of a repository or of a local
    directory.  [parsedType] and [parsedUrl] are [parsed.type] and
    [parsed.url], [normalizedSource] is what [getOwnerRepo(parsed)]
    returned.  An inherited value read from [skillFiles] either ends the
    block, see [hashLookupThrows], or is handed on as [skillPath], and what
    [JSON.stringify] then writes has no path any entry could use: the
    entry on disk is the one without a path. *)
Definition repoLockEntry (parsedType parsedUrl normalizedSource : string)
    (skillFiles : gmap string string) (s : Installer.Skill) : SkillLock.NewEntry :=
  let skillPathValue := skillFiles !! Installer.name s in
  {| SkillLock.newSource := normalizedSource;
     SkillLock.newSourceType := parsedType;
     SkillLock.newSourceUrl := parsedUrl;
     SkillLock.newSkillPath := skillPathValue;
     SkillLock.newSkillFolderHash :=
       if String.eqb parsedType "github" && truthyOpt skillPathValue
       then fetchedHash normalizedSource (default "" skillPathValue)
       else "" |}.

(** The entry [handleRemoteSkill] records. *)
Definition remoteLockEntry (remoteSkill : Installer.RemoteSkill) (url : string)
    : SkillLock.NewEntry :=
  {| SkillLock.newSource := Installer.sourceIdentifier remoteSkill;
     SkillLock.newSourceType := Installer.providerId remoteSkill;
     SkillLock.newSourceUrl := url;
     SkillLock.newSkillPath := None;
     SkillLock.newSkillFolderHash :=
       if String.eqb (Installer.providerId remoteSkill) "github"
       then fetchedHash (Installer.sourceIdentifier remoteSkill) url
       else "" |}.

(** The entry [handleWellKnownSkills] records. *)
Definition wellKnownLockEntry (sourceIdentifier : string)
    (s : Installer.WellKnownSkill) : SkillLock.NewEntry :=
  {| SkillLock.newSource := sourceIdentifier;
     SkillLock.newSourceType := "well-known";
     SkillLock.newSourceUrl := Installer.wkSourceUrl s;
     SkillLock.newSkillPath := None;
     SkillLock.newSkillFolderHash := "" |}.

(** The entry [handleDirectUrlSkillLegacy] records. *)
Definition mintlifyLockEntry (remoteSkill : Installer.RemoteSkill) (url : string)
    : SkillLock.NewEntry :=
  {| SkillLock.newSource := "mintlify/" +:+ Installer.installName remoteSkill;
     SkillLock.newSourceType := "mintlify";
     SkillLock.newSourceUrl := url;
     SkillLock.newSkillPath := None;
     SkillLock.newSkillFolderHash := "" |}.

End Recorded.

(** *** Updating the lock file after the installs *)
Section LockUpdate.

Context (httpGetTree :
  string -> list (string * string) -> option SkillLock.TreeResponse).
Context (sep : ascii).
(** What [writeSkillLock] throws when asked to write the given lock. *)
Context (lockWriteError : SkillLock.SkillLockFile -> option string).
(** [new Date().toISOString()] in the iteration of the given index. *)
Context (now : nat -> string).

(** [try { await addSkillToLock(skillName, entry) } catch { }]: a write
    that throws leaves the file as it was. *)
Definition tryAddSkillToLock (i : nat) (skillName : string)
    (entry : SkillLock.NewEntry) (disk : SkillLock.Disk) : SkillLock.Disk :=
  let written := SkillLock.addSkillToLock (now i) skillName entry disk in
  match written ≫= lockWriteError with
  | Some _ => disk
  | None => written
  end.

(** [results.filter((r) => r.success)]; a result is the name shown for
    the skill with what the install returned. *)
Definition successfulOf (results : list (string * Installer.InstallResult))
    : list (string * Installer.InstallResult) :=
  List.filter (fun r => Installer.success r.2) results.

(** The loop over [selectedSkills] that [runAdd] and
    [handleWellKnownSkills] both end with: a skill whose shown name is in
    [successfulSkillNames] is recorded under [keyOf], unless the [try]
    block throws before it gets to [addSkillToLock], which [throwsFor]
    tells. *)
Fixpoint recordEach {T : Type} (keyOf shownAs : T -> string)
    (throwsFor : T -> bool) (entryOf : T -> SkillLock.NewEntry)
    (successfulSkillNames : list string)
    (selectedSkills : list T) (i : nat) (disk : SkillLock.Disk) : SkillLock.Disk :=
  match selectedSkills with
  | [] => disk
  | s :: rest =>
      recordEach keyOf shownAs throwsFor entryOf successfulSkillNames rest (S i)
        (if includes successfulSkillNames (shownAs s) && negb (throwsFor s)
         then tryAddSkillToLock i (keyOf s) (entryOf s) disk
         else disk)
  end.

(** The end of [runAdd]: [normalizedSource] is what
    [getOwnerRepo(parsed)] returned, [None] for [null]. *)
Definition recordRepoInstalls (getSkillDisplayName : Installer.Skill -> string)
    (parsedType parsedUrl : string) (normalizedSource tempDir : option string)
    (selectedSkills : list Installer.Skill)
    (results : list (string * Installer.InstallResult)) (disk : SkillLock.Disk)
    : SkillLock.Disk :=
  let successful := successfulOf results in
  let skillFiles := skillFilesOf sep tempDir selectedSkills ∅ in
  if (0 <? length successful) && truthyOpt normalizedSource then
    recordEach Installer.name getSkillDisplayName
      (hashLookupThrows parsedType skillFiles)
      (repoLockEntry httpGetTree parsedType parsedUrl (default "" normalizedSource)
         skillFiles)
      (map fst successful) selectedSkills 0 disk
  else disk.

(** The end of [handleWellKnownSkills]; its [try] block holds the call of
    [addSkillToLock] alone. *)
Definition recordWellKnownInstalls (sourceIdentifier : string)
    (selectedSkills : list Installer.WellKnownSkill)
    (results : list (string * Installer.InstallResult)) (disk : SkillLock.Disk)
    : SkillLock.Disk :=
  let successful := successfulOf results in
  if 0 <? length successful then
    recordEach Installer.wkInstallName Installer.wkInstallName (fun _ => false)
      (wellKnownLockEntry sourceIdentifier)
      (map fst successful) selectedSkills 0 disk
  else disk.

End LockUpdate.

End AddFlow.

(** ** src/remove.ts *)
Module Remove.
Import JsString Installer.

Record RemoveOptions := {
  all : bool;
  targetDir : option string
}.

Record ParsedRemove := {
  parsedSkills : list string;
  parsedOptions : RemoveOptions
}.

(** The loop of [parseRemoveOptions] over [args] from index [i] on. *)
Fixpoint parseLoop (args : list string) (skills : list string)
    (options : RemoveOptions) : ParsedRemove :=
  match args with
  | [] => {| parsedSkills := skills; parsedOptions := options |}
  | arg :: rest =>
      if String.eqb arg "--all" then
        parseLoop rest skills {| all := true; targetDir := targetDir options |}
      else if AddFlow.isOneOf arg "-d" "--target-dir" then
        match rest with
        | [] =>
            {| parsedSkills := skills;
               parsedOptions := {| all := all options; targetDir := None |} |}
        | value :: rest' =>
            parseLoop rest' skills {| all := all options; targetDir := Some value |}
        end
      else if AddFlow.plainArg arg then parseLoop rest (skills ++ [arg]) options
      else parseLoop rest skills options
  end.

Definition parseRemoveOptions (args : list string) : ParsedRemove :=
  parseLoop args [] {| all := false; targetDir := None |}.

(** One element of [results]. *)
Record RemoveResult := {
  resultSkill : string;
  resultSuccess : bool;
  resultSource : option string;
  resultSourceType : option string;
  resultError : option string
}.

(** How [removeCommand] ends. *)
Inductive Outcome :=
| NothingInstalled
| NoMatching (requested : list string)
| RemovalCancelled
| Removed (results : list RemoveResult).

(** What the command leaves behind: the file-system operations issued and
    the lock file. *)
Record World := {
  issued : list FsOp;
  lockFile : SkillLock.Disk
}.

Section Command.

Context (P : PathApi).
Context (toLowerCase : string -> string).
Context (fsError : list FsOp -> FsOp -> option string).
(** What [writeSkillLock] throws when asked to write the given lock. *)
Context (lockWriteError : SkillLock.SkillLockFile -> option string).
(** [p.multiselect]: the user's choice, [None] when cancelled. *)
Context (multiselect : list string -> option (list string)).
Context (DEFAULT_SKILLS_DIR : string).

(** [installedSkills.filter(s => skillNames.some(...))] *)
Definition requestedBy (skillNames : list string) (s : string) : bool :=
  existsb (fun name => String.eqb (toLowerCase name) (toLowerCase s)) skillNames.

(** The skills to remove; [inl] is an early end of the command. *)
Definition selectForRemoval (installedSkills skillNames : list string)
    (options : RemoveOptions) : Outcome + list string :=
  if length installedSkills =? 0 then inl NothingInstalled
  else if all options then inr installedSkills
  else if 0 <? length skillNames then
    let selectedSkills := List.filter (requestedBy skillNames) installedSkills in
    if length selectedSkills =? 0 then inl (NoMatching skillNames)
    else inr selectedSkills
  else
    match multiselect installedSkills with
    | None => inl RemovalCancelled
    | Some selected => inr selected
    end.

Definition removalFailed (skillName msg : string) : RemoveResult :=
  {| resultSkill := skillName; resultSuccess := false; resultSource := None;
     resultSourceType := None; resultError := Some msg |}.

(** [lockEntry?.field || 'local'] *)
Definition orLocal (field : option string) : string :=
  if truthyOpt field then default "" field else "local".

(** The body of the loop over [selectedSkills]: the [try] block and its
    [catch].  A write of the lock file that throws leaves the file as it
    was. *)
Definition removeOne (targetDir skillName : string) (w : World)
    : World * RemoveResult :=
  match InstallerQueries.getInstallPath P toLowerCase skillName targetDir with
  | Throw msg => (w, removalFailed skillName msg)
  | Ok skillPath =>
      match perform fsError (Rm skillPath) (issued w) with
      | (done, Throw msg) =>
          ({| issued := done; lockFile := lockFile w |},
           removalFailed skillName msg)
      | (done, Ok _) =>
          let lockEntry := SkillLock.getSkillFromLock skillName (lockFile w) in
          let effectiveSource := orLocal (SkillLock.source <$> lockEntry) in
          let effectiveSourceType := orLocal (SkillLock.sourceType <$> lockEntry) in
          let '(written, removed) :=
            SkillLock.removeSkillFromLock skillName (lockFile w) in
          match (if removed then written ≫= lockWriteError else None) with
          | Some msg =>
              ({| issued := done; lockFile := lockFile w |},
               removalFailed skillName msg)
          | None =>
              ({| issued := done; lockFile := written |},
               {| resultSkill := skillName; resultSuccess := true;
                  resultSource := Some effectiveSource;
                  resultSourceType := Some effectiveSourceType;
                  resultError := None |})
          end
      end
  end.

Fixpoint removeEach (targetDir : string) (selectedSkills : list string)
    (w : World) (results : list RemoveResult) : World * list RemoveResult :=
  match selectedSkills with
  | [] => (w, results)
  | skillName :: rest =>
      let '(w', r) := removeOne targetDir skillName w in
      removeEach targetDir rest w' (results ++ [r])
  end.

(** [removeCommand(skillNames, options)] once the target directory has
    been scanned: [installedSkills] are the names of its directories,
    without repetition and sorted. *)
Definition removeCommand (installedSkills skillNames : list string)
    (options : RemoveOptions) (w : World) : World * Outcome :=
  let dir :=
    if truthyOpt (targetDir options) then default "" (targetDir options)
    else DEFAULT_SKILLS_DIR in
  match selectForRemoval installedSkills skillNames options with
  | inl early => (w, early)
  | inr selectedSkills =>
      let '(w', results) := removeEach dir selectedSkills w [] in
      (w', Removed results)
  end.

End Command.

End Remove.

(** ** src/list.ts *)
Module ListCmd.

(** The loop of [parseListOptions] over [args] from index [i] on; the
    result is [options.targetDir]. *)
Fixpoint parseLoop (args : list string) (targetDir : option string)
    : option string :=
  match args with
  | [] => targetDir
  | arg :: rest =>
      if AddFlow.isOneOf arg "-d" "--target-dir" then
        match rest with
        | [] => None
        | value :: rest' => parseLoop rest' (Some value)
        end
      else parseLoop rest targetDir
  end.

Definition parseListOptions (args : list string) : option string :=
  parseLoop args None.

End ListCmd.

(** ** src/find.ts: the search prompt *)
Module Find.
Import JsString.

Record SearchSkill := {
  skillName : string;
  slug : string;
  skillSource : string;
  installs : Z
}.

(** The variables that [runSearchPrompt] closes over. *)
Record Prompt := {
  results : list SearchSkill;
  selectedIndex : nat;
  query : string;
  loading : bool
}.

(** A [readline.Key]; an absent field is [None]. *)
Record Key := {
  keyName : option string;
  ctrl : bool;
  meta : bool;
  sequence : option string
}.

Inductive Step :=
| Continue (state : Prompt)
| Resolve (selected : option SearchSkill).

(** [triggerSearch(q)] up to the point where the timer is armed. *)
Definition triggerSearch (q : string) (st : Prompt) : Prompt :=
  if negb (truthy q) || (String.length q <? 2) then
    {| results := []; selectedIndex := 0; query := query st; loading := false |}
  else
    {| results := results st; selectedIndex := selectedIndex st;
       query := query st; loading := true |}.

(** The end of the timer's callback: [searchSkillsAPI] has returned
    [found].  The [catch] of the callback is for a search that throws;
    [searchSkillsAPI] catches what its request throws, so it is not
    taken. *)
Definition searchReturns (found : list SearchSkill) (st : Prompt) : Prompt :=
  {| results := found; selectedIndex := 0; query := query st; loading := false |}.

Definition setQuery (q : string) (st : Prompt) : Prompt :=
  {| results := results st; selectedIndex := selectedIndex st; query := q;
     loading := loading st |}.

Definition setSelectedIndex (i : nat) (st : Prompt) : Prompt :=
  {| results := results st; selectedIndex := i; query := query st;
     loading := loading st |}.

Definition named (key : Key) (n : string) : bool :=
  bool_decide (keyName key = Some n).

(** [char >= ' ' && char <= '~'] for a string of one character. *)
Definition printable (c : ascii) : bool :=
  (32 <=? nat_of_ascii c) && (nat_of_ascii c <=? 126).

Definition handleKeypress (key : option Key) (st : Prompt) : Step :=
  match key with
  | None => Continue st
  | Some key =>
      if named key "escape" || (ctrl key && named key "c") then Resolve None
      else if named key "return" then
        Resolve (results st !! selectedIndex st)
      else if named key "up" then
        Continue (setSelectedIndex (Nat.max 0 (selectedIndex st - 1)) st)
      else if named key "down" then
        Continue
          (setSelectedIndex
             (Nat.min (Nat.max 0 (length (results st) - 1)) (selectedIndex st + 1))
             st)
      else if named key "backspace" then
        if 0 <? String.length (query st) then
          let q := sliceEnd (query st) 1 in
          Continue (triggerSearch q (setQuery q st))
        else Continue st
      else
        match sequence key with
        | Some (String char EmptyString) =>
            if negb (ctrl key) && negb (meta key) && printable char then
              let q := query st +:+ String char EmptyString in
              Continue (triggerSearch q (setQuery q st))
            else Continue st
        | _ => Continue st
        end
  end.

(** What reaches the prompt: a key, or the answer to a search armed
    earlier. *)
Inductive Event :=
| Keypress (key : option Key)
| SearchReturns (found : list SearchSkill).

Definition initialPrompt : Prompt :=
  {| results := []; selectedIndex := 0; query := ""; loading := false |}.

(** The prompt fed with [events] until it resolves. *)
Fixpoint runSearchPrompt (events : list Event) (st : Prompt) : Step :=
  match events with
  | [] => Continue st
  | Keypress key :: rest =>
      match handleKeypress key st with
      | Continue st' => runSearchPrompt rest st'
      | Resolve selected => Resolve selected
      end
  | SearchReturns found :: rest => runSearchPrompt rest (searchReturns found st)
  end.

(** [pkg.lastIndexOf('@')], [None] for -1; [i] is the index of the head
    of [l]. *)
Fixpoint lastIndexOf (c : ascii) (l : list ascii) (i : nat) (found : option nat)
    : option nat :=
  match l with
  | [] => found
  | x :: tl => lastIndexOf c tl (S i) (if Ascii.eqb x c then Some i else found)
  end.

(** [getOwnerRepoFromString(pkg)]: the match of [/^([^/]+)\/([^/]+)$/] is
    a split at the only slash with both sides non-empty. *)
Definition getOwnerRepoFromString (pkg : string) : option (string * string) :=
  let atIndex := lastIndexOf "@" (chars pkg) 0 None in
  let repoPath :=
    match atIndex with
    | Some i => if 0 <? i then str (take i (chars pkg)) else pkg
    | None => pkg
    end in
  match Installer.splitSlash [] (chars repoPath) with
  | [owner; repo] =>
      if truthy owner && truthy repo then Some (owner, repo) else None
  | _ => None
  end.

End Find.

(** * Vocabulary of the statements and sample data *)

Section SanitizeNameVocabulary.

Import JsString Installer.

(** A character of an installed directory name. *)
Definition nameChar (c : ascii) : Prop :=
  allowedChar c = true \/ c = "-"%char.

End SanitizeNameVocabulary.

(** A name of 256 characters whose 255th is a hyphen. *)
Definition longName : string :=
  JsString.str (replicate 254 "a"%char ++ JsString.chars "-b").

Section SchemaGuardVocabulary.

Import SkillLock.

(** The three ways a version tag is unusable. *)
Definition versionAbsent (parsed : Json) : Prop :=
  getProp parsed "version" = None.

Definition versionMalformed (parsed : Json) : Prop :=
  exists v, getProp parsed "version" = Some v /\ forall q, v <> JNumber q.

Definition versionBelow (parsed : Json) : Prop :=
  exists q, getProp parsed "version" = Some (JNumber q) /\ (q < CURRENT_VERSION)%Q.

(** A file without a usable version tag: unreadable, not JSON, or JSON
    whose version is absent, not a number, or below the current one. *)
Definition noUsableVersion (file : FileRead) : Prop :=
  match file with
  | ReadThrows => True
  | ParseThrows => True
  | Parsed parsed =>
      versionAbsent parsed \/ versionMalformed parsed \/ versionBelow parsed
  end.

Definition staleLock : Json :=
  JObject [("version", JNumber 1);
           ("skills", JObject [("old-skill", JObject [("source", JString "o/r")])])].

Definition unversionedLock : Json :=
  JObject [("skills", JObject [("old-skill", JObject [("source", JString "o/r")])])].

Definition textVersionLock : Json :=
  JObject [("version", JString "3");
           ("skills", JObject [("old-skill", JObject [("source", JString "o/r")])])].

End SchemaGuardVocabulary.

Section AddSkillToLockVocabulary.

Import SkillLock.

(** The entry carries the fields it was given. *)
Definition carries (stored : SkillLockEntry) (entry : NewEntry) : Prop :=
  source stored = newSource entry
  /\ sourceType stored = newSourceType entry
  /\ sourceUrl stored = newSourceUrl entry
  /\ skillPath stored = newSkillPath entry
  /\ skillFolderHash stored = newSkillFolderHash entry.

Definition firstInstall : SkillLockEntry := {|
  source := "o/r"; sourceType := "github";
  sourceUrl := "https://github.com/o/r.git";
  skillPath := Some "skills/a/SKILL.md"; skillFolderHash := "abc";
  installedAt := "2026-01-01T00:00:00.000Z";
  updatedAt := "2026-01-01T00:00:00.000Z"
|}.

Definition reinstall : NewEntry := {|
  newSource := "o/r"; newSourceType := "github";
  newSourceUrl := "https://github.com/o/r.git";
  newSkillPath := Some "skills/a/SKILL.md"; newSkillFolderHash := "def"
|}.

Definition diskWithA : Disk :=
  Some {| version := 3; skills := {[ "a" := firstInstall ]} |}.

End AddSkillToLockVocabulary.

Section FingerprintVocabulary.

Import JsString SkillLock.

Variable httpGetTree : string -> list (string * string) -> option TreeResponse.
Variables (ownerRepo skillPath : string) (token : option string).

(** The listing of a branch, when the request succeeds. *)
Definition listing (branch : string) : option TreeResponse :=
  httpGetTree (treesUrl ownerRepo branch) (requestHeaders token).

(** [e] is the first directory entry of [entries] at [folderPath]. *)
Definition firstFolderEntry (folderPath : string) (entries : list TreeEntry)
    (e : TreeEntry) : Prop :=
  exists before after,
    entries = before ++ e :: after
    /\ entryType e = "tree" /\ entryPath e = folderPath
    /\ Forall (fun x => ~ (entryType x = "tree" /\ entryPath x = folderPath)) before.

(** Branch [branch] answers with fingerprint [h]: its listing succeeds
    and holds the root hash (empty folder path) or the directory entry. *)
Definition yields (branch : string) (h : string) : Prop :=
  exists data,
    listing branch = Some data
    /\ ((folderPathOf skillPath = "" /\ h = sha data)
        \/ (folderPathOf skillPath <> ""
            /\ exists e, firstFolderEntry (folderPathOf skillPath) (tree data) e
                         /\ h = entrySha e)).

(** What one branch contributes. *)
Definition answer (branch : string) : option string :=
  match listing branch with
  | None => None
  | Some data =>
      if negb (truthy (folderPathOf skillPath)) then Some (sha data)
      else entrySha <$> findEntry (isFolderEntry (folderPathOf skillPath)) (tree data)
  end.

End FingerprintVocabulary.

(** The claim's reading: only the first branch whose listing succeeds is
    consulted. *)
Definition claimedFetchSkillFolderHash
    (httpGetTree : string -> list (string * string) -> option SkillLock.TreeResponse)
    (ownerRepo skillPath : string) (token : option string) : option string :=
  let succeeded :=
    omap (fun branch => listing httpGetTree ownerRepo token branch) SkillLock.branches in
  match succeeded with
  | [] => None
  | data :: _ =>
      if negb (JsString.truthy (SkillLock.folderPathOf skillPath))
      then Some (SkillLock.sha data)
      else SkillLock.entrySha <$>
             SkillLock.findEntry
               (SkillLock.isFolderEntry (SkillLock.folderPathOf skillPath))
               (SkillLock.tree data)
  end.

(** A repository with both branches where only 'master' has the folder. *)
Definition twoBranches (url : string) (headers : list (string * string))
    : option SkillLock.TreeResponse :=
  if String.eqb url (SkillLock.treesUrl "o/r" "main") then
    Some {| SkillLock.sha := "r1"; SkillLock.tree := [] |}
  else if String.eqb url (SkillLock.treesUrl "o/r" "master") then
    Some {| SkillLock.sha := "r2";
            SkillLock.tree := [ {| SkillLock.entryPath := "skills/a";
                                   SkillLock.entryType := "tree";
                                   SkillLock.entrySha := "h2" |} ] |}
  else None.

Section UpdateCheckVocabulary.

Import JsString SkillLock Cli.

Variable httpGetTree : string -> list (string * string) -> option TreeResponse.
Variable token : option string.

(** The fingerprint fetched for an entry filed under [src]. *)
Definition latestHashOf (src : string) (entry : SkillLockEntry) : option string :=
  fetchSkillFolderHash httpGetTree src (default "" (skillPath entry)) token.

Inductive Verdict := UpToDate | UpdateAvailable | CouldNotCheck.

(** The three ways the body of the inner loop of [runCheck] can go. *)
Definition verdict (src : string) (entry : SkillLockEntry) : Verdict :=
  if negb (truthyOpt (latestHashOf src entry)) then CouldNotCheck
  else if negb (bool_decide (latestHashOf src entry = Some (skillFolderHash entry)))
  then UpdateAvailable
  else UpToDate.

Definition updateFor (y : string * (string * SkillLockEntry)) : option Update :=
  match verdict y.1 y.2.2 with
  | UpdateAvailable => Some {| updateName := y.2.1; updateSource := y.1 |}
  | _ => None
  end.

Definition errorFor (y : string * (string * SkillLockEntry)) : option CheckError :=
  match verdict y.1 y.2.2 with
  | CouldNotCheck =>
      Some {| errorName := y.2.1; errorSource := y.1;
              errorMessage := "Could not fetch from GitHub" |}
  | _ => None
  end.

(** The groups of [skillsBySource] laid out as one list, in the order the
    nested loops visit them. *)
Fixpoint flat (groups : list (string * list (string * SkillLockEntry)))
    : list (string * (string * SkillLockEntry)) :=
  match groups with
  | [] => []
  | (src, items) :: rest => map (pair src) items ++ flat rest
  end.

Definition skippedName (lock : SkillLockFile) (skillName : string) : bool :=
  match skills lock !! skillName with
  | Some entry => skipped entry
  | None => false
  end.

(** The entries of the lock that pass the guard, each filed under its
    source. *)
Definition checkable (lock : SkillLockFile)
    (y : string * (string * SkillLockEntry)) : Prop :=
  exists n e, skills lock !! n = Some e /\ skipped e = false /\ y = (source e, (n, e)).

Definition skippedTotal (lock : SkillLockFile) : nat :=
  length (List.filter (skippedName lock) (skillNamesOf lock)).

Definition updatesOf (r : CheckReport) : list Update :=
  match r with Checked _ _ updates _ => updates | _ => [] end.

Definition errorsOf (r : CheckReport) : list CheckError :=
  match r with Checked _ _ _ errors => errors | _ => [] end.

Definition skippedCountOf (r : CheckReport) : option nat :=
  match r with
  | Checked _ k _ _ => Some k
  | NoGitHubSkills k => Some k
  | NoSkillsTracked => None
  end.

Definition commandOf (update : PendingUpdate) : string * list string :=
  (pendingName update, spawnArgs (installUrlOf (pendingEntry update))).

Definition spawnedCommand (s : Spawned) : string * list string :=
  (spawnedFor s, spawnedArgs s).

Definition spawnedOf (r : UpdateReport) : list Spawned :=
  match r with Applied ran _ _ => ran | _ => [] end.

End UpdateCheckVocabulary.

(** A remote whose listing of 'main' carries an empty hash for the folder. *)
Definition emptyShaRemote (url : string) (headers : list (string * string))
    : option SkillLock.TreeResponse :=
  if String.eqb url (SkillLock.treesUrl "o/r" "main") then
    Some {| SkillLock.sha := "r1";
            SkillLock.tree := [ {| SkillLock.entryPath := "skills/a";
                                   SkillLock.entryType := "tree";
                                   SkillLock.entrySha := "" |} ] |}
  else None.

(** A GitLab entry that has both a stored hash and a skill path. *)
Definition gitlabEntry : SkillLock.SkillLockEntry := {|
  SkillLock.source := "o/r"; SkillLock.sourceType := "gitlab";
  SkillLock.sourceUrl := "https://gitlab.com/o/r.git";
  SkillLock.skillPath := Some "skills/a/SKILL.md";
  SkillLock.skillFolderHash := "abc";
  SkillLock.installedAt := "2026-01-01T00:00:00.000Z";
  SkillLock.updatedAt := "2026-01-01T00:00:00.000Z"
|}.

Definition diskWithGitlab : SkillLock.Disk :=
  Some {| SkillLock.version := 3; SkillLock.skills := {[ "a" := gitlabEntry ]} |}.

Definition alwaysOk : list (list string) -> list string -> option Z :=
  fun _ _ => Some 0%Z.

Section InstallUrlVocabulary.

Import JsString SkillLock Cli.

(** [r] is [s] without one trailing [suf], or [s] itself when [s] does not
    end with [suf]. *)
Definition withoutTrailing (suf s r : string) : Prop :=
  s = r +:+ suf \/ (endsWith s suf = false /\ r = s).

(** The stored URL without a trailing '.git' and then without a trailing
    '/'. *)
Definition urlBase (url base : string) : Prop :=
  exists mid, withoutTrailing ".git" url mid /\ withoutTrailing "/" mid base.

(** The skill path without a trailing '/SKILL.md', or else without a
    trailing 'SKILL.md', and then without one trailing '/'. *)
Definition folderOf (p folder : string) : Prop :=
  exists mid,
    (p = mid +:+ "/SKILL.md"
     \/ (endsWith p "/SKILL.md" = false /\ withoutTrailing "SKILL.md" p mid))
    /\ withoutTrailing "/" mid folder.

End InstallUrlVocabulary.

(** The update of [diskWithA] found through the 'master' branch. *)
Definition updateOfA : Cli.Spawned := {|
  Cli.spawnedFor := "a";
  Cli.spawnedArgs := ["-y"; "@juanibiapina/skulls"; "add";
                      "https://github.com/o/r/tree/main/skills/a"; "-y"];
  Cli.spawnedOk := true
|}.

(** The claim's wording, read with one trailing '/' removed and read with
    every trailing '/' removed. *)
Definition dropTrailing (suf s : string) : string :=
  if JsString.endsWith s suf
  then JsString.sliceEnd s (length (JsString.chars suf)) else s.

Definition dropTrailingSlashes (s : string) : string :=
  JsString.str
    (reverse (Installer.dropWhile Installer.isSlash (reverse (JsString.chars s)))).

Definition claimedInstallUrl (slashes : string -> string) (e : SkillLock.SkillLockEntry)
    : string :=
  match SkillLock.skillPath e with
  | Some p =>
      if JsString.truthy p then
        dropTrailing "/" (dropTrailing ".git" (SkillLock.sourceUrl e))
        +:+ "/tree/main/" +:+ slashes (dropTrailing "SKILL.md" p)
      else SkillLock.sourceUrl e
  | None => SkillLock.sourceUrl e
  end.

Definition tripleSlashEntry : SkillLock.SkillLockEntry := {|
  SkillLock.source := "o/r"; SkillLock.sourceType := "github";
  SkillLock.sourceUrl := "https://github.com/o/r.git";
  SkillLock.skillPath := Some "a///SKILL.md";
  SkillLock.skillFolderHash := "abc";
  SkillLock.installedAt := "2026-01-01T00:00:00.000Z";
  SkillLock.updatedAt := "2026-01-01T00:00:00.000Z"
|}.

Section SelectionVocabulary.

Import Add.

Context {Skill : Type}.
Variable filterSkills : list Skill -> list string -> list Skill.
Variable getSkillDisplayName : Skill -> string.
Variable multiselect : list Skill -> option (list Skill).

(** The skill filter holds the wildcard. *)
Definition wildcard (options : AddOptions) : Prop :=
  exists names, skill options = Some names /\ In "*" names.

(** The skill filter names at least one skill. *)
Definition explicitFilter (options : AddOptions) (names : list string) : Prop :=
  skill options = Some names /\ names <> [].

Definition noFilter (options : AddOptions) : Prop :=
  skill options = None \/ skill options = Some [].

End SelectionVocabulary.

(** Two discovered skills, known by their names. *)
Definition byName (skills : list string) (names : list string) : list string :=
  List.filter (Add.includes names) skills.

Definition filterOnly (names : list string) : Add.AddOptions := {|
  Add.yes := false; Add.skill := Some names; Add.listOnly := false;
  Add.all := false; Add.fullDepth := false; Add.targetDir := None
|}.

Section CopyFilterVocabulary.

Import JsString Installer.

(** [reaches entries p node]: following the names of [p] from a directory
    with the given entries leads to [node]. *)
Inductive reaches : list (string * Node) -> list string -> Node -> Prop :=
| reach_entry entries n node :
    (n, node) ∈ entries -> reaches entries [n] node
| reach_below entries n sub p node :
    (n, Dir sub) ∈ entries -> reaches sub p node -> reaches entries (n :: p) node.

(** The names along a path with their kinds: all but the last are
    directories. *)
Fixpoint components (p : list string) (lastIsDir : bool) : list (string * bool) :=
  match p with
  | [] => []
  | n :: rest =>
      match rest with
      | [] => [(n, lastIsDir)]
      | _ :: _ => (n, true) :: components rest lastIsDir
      end
  end.

(** The names the filter rejects: 'README.md' and 'metadata.json' whatever
    the entry is, any name that starts with '_', and '.git' for a
    directory. *)
Definition rejected (n : string) (isDir : bool) : Prop :=
  n = "README.md" \/ n = "metadata.json" \/ startsWith n "_" = true
  \/ (isDir = true /\ n = ".git").

(** No name on the path is rejected. *)
Definition admittedPath (p : list string) (lastIsDir : bool) : Prop :=
  forall n isDir, (n, isDir) ∈ components p lastIsDir -> ~ rejected n isDir.

(** [below here entries p k]: what is found at [p] with kind [k] comes
    from the directory with the given entries, copied to [here].  Either
    [p] leads from [here] to a directory of the source, through
    directories and by names that are not rejected; or it leads that way
    to an entry that is no directory, and then on into what [cp] creates
    for that entry: nowhere for a file, anywhere in its target for a
    link. *)
Definition below (here : list string) (entries : list (string * Node))
    (p : list string) (k : Kind) : Prop :=
  exists q node,
    reaches entries q node /\ admittedPath q (isDirectory node)
    /\ if isDirectory node then p = here ++ q /\ k = IsDir
       else exists r, p = here ++ q ++ r /\ (r, k) ∈ created node.

(** What the install directory owes to the source tree. *)
Definition fromSource (entries : list (string * Node)) : list string -> Kind -> Prop :=
  below [] entries.

(** The string the code builds with [join] for the place the names of
    [q] lead to from [base]. *)
Definition pathIn (P : PathApi) (base : string) (q : list string) : string :=
  foldl (join P) base q.

(** [op] is an operation [copyDirectory(src, dest)] has for the source:
    [mkdir] and [readdir] for the directory itself and for the directories
    found in it through directories by names that are not rejected, and
    [cp] for the entries found that way that are no directories. *)
Definition copyOperation (P : PathApi) (source : list (string * Node))
    (src dest : string) (op : FsOp) : Prop :=
  exists q,
    ((q = [] \/ exists sub, reaches source q (Dir sub) /\ admittedPath q true)
     /\ (op = Mkdir (pathIn P dest q) \/ op = Readdir (pathIn P src q)))
    \/ exists node,
         reaches source q node /\ isDirectory node = false /\ admittedPath q false
         /\ op = Cp (pathIn P src q) (pathIn P dest q).

(** The path goes through no symbolic link of the source. *)
Definition throughNoLink (entries : list (string * Node)) (p : list string) : Prop :=
  forall q target r, p = q ++ r -> ~ reaches entries q (Link target).

Definition isDirKind (k : Kind) : bool :=
  match k with IsDir => true | IsFile _ => false end.

End CopyFilterVocabulary.

Definition sampleSkillDir : list (string * Installer.Node) :=
  [("SKILL.md", Installer.File "x"); ("README.md", Installer.File "r");
   ("_draft", Installer.Dir []); (".git", Installer.Dir []);
   ("docs", Installer.Dir [("metadata.json", Installer.File "m");
                           ("a.md", Installer.File "a")])].

(** The exclusion as the claim words it: 'README.md' and 'metadata.json'
    for files, a leading '_' for anything, '.git' for directories. *)
Definition claimedExcluded (n : string) (isDir : bool) : bool :=
  (negb isDir && Installer.has Installer.EXCLUDE_FILES n)
  || JsString.startsWith n "_"
  || (isDir && Installer.has Installer.EXCLUDE_DIRS n).

(** A skill that is a git submodule and keeps its data in a directory named
    'metadata.json'. *)
Definition submoduleSkill : list (string * Installer.Node) :=
  [("SKILL.md", Installer.File "x");
   ("metadata.json", Installer.Dir [("a.txt", Installer.File "a")]);
   (".git", Installer.File "gitdir: ../.git/modules/skill")].

(** A skill whose 'docs' is a symbolic link to a directory kept
    elsewhere. *)
Definition linkedSkill : list (string * Installer.Node) :=
  [("SKILL.md", Installer.File "x");
   ("docs", Installer.Link
              (Installer.Dir [("README.md", Installer.File "r");
                              ("_notes", Installer.Dir [("n.md", Installer.File "n")])]))].

(** The source trees of the samples, by the path of the skill. *)
Definition sampleTrees (path : string) : list (string * Installer.Node) :=
  if String.eqb path "/src/sample" then sampleSkillDir
  else if String.eqb path "/src/submodule" then submoduleSkill
  else if String.eqb path "/src/linked" then linkedSkill
  else [].

Definition skillAt (path : string) : Installer.Skill :=
  {| Installer.name := "S"; Installer.description := "d"; Installer.path := path |}.

(** The operations settle in the order they were issued. *)
Definition inTurn : nat -> nat := fun _ => 0.

(** The second call in line settles, whenever there is one: of two
    operations that wait, the one issued later settles first. *)
Definition secondFirst : nat -> nat := fun _ => 1.

(** An install directory left by an earlier version of the skill. *)
Definition earlierInstall : Installer.Holds :=
  {[ [] := Installer.IsDir; ["README.md"] := Installer.IsFile "old" ]}.

(** A file system that refuses to remove anything. *)
Definition nothingRemoved (done : list Installer.FsOp) (op : Installer.FsOp)
    : option string :=
  match op with
  | Installer.Rm _ => Some "EPERM: operation not permitted"
  | _ => None
  end.

(** A file system on which 'SKILL.md' cannot be read. *)
Definition unreadableManifest (done : list Installer.FsOp) (op : Installer.FsOp)
    : option string :=
  match op with
  | Installer.Cp src _ =>
      if JsString.endsWith src "SKILL.md" then Some "EACCES: permission denied"
      else None
  | _ => None
  end.

Section PathSafetyVocabulary.

Import JsString Installer.

Variable P : PathApi.
Variable toLowerCase : string -> string.
Variable fsError : list FsOp -> FsOp -> option string.
Variable readTree : string -> list (string * Node).

(** Every operation a computation issues satisfies [Q]. *)
Definition emits {A} (Q : FsOp -> Prop) (m : M A) : Prop :=
  forall done, exists ops, (m done).1 = done ++ ops /\ Forall Q ops.

(** A write stays inside [base]. *)
Definition writesInside (base : string) (op : FsOp) : Prop :=
  match op with
  | WriteFile target _ => isPathSafe P base target = true
  | _ => True
  end.

Definition installDirOf (targetDir rawName : string) : string :=
  join P targetDir (sanitizeName toLowerCase rawName).

Definition rawNameOf (skill : Skill) : string :=
  if truthy (name skill) then name skill else basename P (path skill).

End PathSafetyVocabulary.

Definition skillS : Installer.Skill :=
  {| Installer.name := "S"; Installer.description := "d"; Installer.path := "/src/s" |}.

Definition remoteS : Installer.RemoteSkill :=
  {| Installer.remoteName := "S"; Installer.remoteDescription := "d";
     Installer.content := "c"; Installer.installName := "S";
     Installer.sourceUrl := "u"; Installer.providerId := "p";
     Installer.sourceIdentifier := "i" |}.

(** A well-known skill with one file that points out of its directory. *)
Definition escapingSkill : Installer.WellKnownSkill :=
  {| Installer.wkName := "S"; Installer.wkDescription := "d";
     Installer.wkInstallName := "S"; Installer.wkSourceUrl := "u";
     Installer.files := [("SKILL.md", "a"); ("../evil", "b")] |}.

Section LockStoreVocabulary.

Import SkillLock.

(** The entry [addSkillToLock] stores for a name the lock did not hold. *)
Definition storedAs (now : string) (entry : NewEntry) : SkillLockEntry := {|
  source := newSource entry;
  sourceType := newSourceType entry;
  sourceUrl := newSourceUrl entry;
  skillPath := newSkillPath entry;
  skillFolderHash := newSkillFolderHash entry;
  installedAt := now;
  updatedAt := now
|}.

(** A lock file written under version 2 of the schema. *)
Definition versionTwoLock : SkillLockFile :=
  {| version := 2; skills := {[ "a" := firstInstall ]} |}.

End LockStoreVocabulary.

Section AccountingVocabulary.

Import JsString SkillLock Cli.

Variable httpGetTree : string -> list (string * string) -> option TreeResponse.
Variable token : option string.

(** A tracked name whose entry passes the guard, with the source it is
    filed under. *)
Definition filedUnder (lock : SkillLockFile) (n : string)
    : option (string * (string * SkillLockEntry)) :=
  match skills lock !! n with
  | Some e => if skipped e then None else Some (source e, (n, e))
  | None => None
  end.

(** The update that is due for a tracked name, if any. *)
Definition pendingFor (lock : SkillLockFile) (n : string) : option PendingUpdate :=
  match filedUnder lock n with
  | Some (src, (_, e)) =>
      match verdict httpGetTree token src e with
      | UpdateAvailable =>
          Some {| pendingName := n; pendingSource := src; pendingEntry := e |}
      | _ => None
      end
  | None => None
  end.

End AccountingVocabulary.

(** The statuses of a run in which every reinstall fails. *)
Definition alwaysFails : list (list string) -> list string -> option Z :=
  fun _ _ => Some 1%Z.

Section InstalledNameVocabulary.

Import JsString Installer.

(** No character outside [[a-z0-9._]] but single hyphens; [afterHyphen]
    tells that a hyphen comes just before the list. *)
Fixpoint spaced (afterHyphen : bool) (l : list ascii) : Prop :=
  match l with
  | [] => True
  | c :: tl =>
      if allowedChar c then spaced false tl
      else c = "-"%char /\ afterHyphen = false /\ spaced true tl
  end.

(** [toLowerCase] leaves a string alone that has only lower-case letters,
    digits, dots, underscores and hyphens. *)
Definition fixesNames (toLowerCase : string -> string) : Prop :=
  forall s, Forall nameChar (chars s) -> toLowerCase s = s.

End InstalledNameVocabulary.

Section RemovalVocabulary.

Import JsString Installer.

Variable P : PathApi.
Variable toLowerCase : string -> string.

(** [op] removes the directory that [getInstallPath] gives for
    [skillName], and that directory lies in [targetDir]. *)
Definition removalOf (targetDir skillName : string) (op : FsOp) : Prop :=
  op = Rm (join P targetDir (sanitizeName toLowerCase skillName))
  /\ isPathSafe P targetDir (join P targetDir (sanitizeName toLowerCase skillName))
     = true.

(** The directory [removeCommand] works in. *)
Definition removalDir (DEFAULT_SKILLS_DIR : string) (options : Remove.RemoveOptions)
    : string :=
  if truthyOpt (Remove.targetDir options)
  then default "" (Remove.targetDir options)
  else DEFAULT_SKILLS_DIR.

(** No requested name is, up to case, the name of an installed skill. *)
Definition noneInstalled (installedSkills skillNames : list string) : Prop :=
  forall name s, name ∈ skillNames -> s ∈ installedSkills ->
    toLowerCase name <> toLowerCase s.

End RemovalVocabulary.

(** A lock that tracks the skills 'a' and 'b'. *)
Definition diskWithAB : SkillLock.Disk :=
  Some {| SkillLock.version := 3;
          SkillLock.skills := {[ "a" := firstInstall; "b" := firstInstall ]} |}.

(** A lock that tracks one skill under the name its manifest gives;
    [sanitizeName] calls its directory 'my-cool-skill'. *)
Definition diskWithCoolSkill : SkillLock.Disk :=
  Some {| SkillLock.version := 3;
          SkillLock.skills := {[ "My Cool Skill!" := firstInstall ]} |}.

Definition removeNamed : Remove.RemoveOptions :=
  {| Remove.all := false; Remove.targetDir := Some "/skills" |}.

Definition freshWorld (disk : SkillLock.Disk) : Remove.World :=
  {| Remove.issued := []; Remove.lockFile := disk |}.

(** A lock file that can always be written. *)
Definition lockWritable : SkillLock.SkillLockFile -> option string :=
  fun _ => None.

Definition chooseNothing : list string -> option (list string) := fun _ => None.

Section InstallOutcomeVocabulary.

Import JsString Installer.

Variable P : PathApi.
Variable fsError : list FsOp -> FsOp -> option string.

(** The operations [installWellKnownSkill] issues for one file of the
    skill when none of them throws. *)
Definition fileOps (installDir : string) (file : string * string) : list FsOp :=
  let fullPath := join P installDir file.1 in
  if isPathSafe P installDir fullPath then
    (if String.eqb (dirname P fullPath) installDir then []
     else [Mkdir (dirname P fullPath)])
    ++ [WriteFile fullPath file.2]
  else [].

Definition notRm (op : FsOp) : Prop :=
  match op with Rm _ => False | _ => True end.

(** The run from [done] to [done'] ends with an operation, not a removal,
    that threw [msg]. *)
Definition endsWithThrow (done done' : list FsOp) (msg : string) : Prop :=
  exists before op,
    done' = done ++ before ++ [op] /\ notRm op
    /\ fsError (done ++ before) op = Some msg.

(** After [done], [log] holds an operation, not a removal, that threw
    [msg]; it need not be the last one. *)
Definition threwAfter (done log : list FsOp) (msg : string) : Prop :=
  exists before op after,
    log = done ++ before ++ op :: after /\ notRm op
    /\ fsError (done ++ before) op = Some msg.

(** When [m] returns it has issued [ops] and its value has [R]. *)
Definition returnsAfter {A} (ops : list FsOp) (R : A -> Prop) (m : M A) : Prop :=
  forall done,
    match m done with
    | (done', Ok a) => done' = done ++ ops /\ R a
    | (_, Throw _) => True
    end.

(** When [m] throws, the operation it issued last is the one that
    threw. *)
Definition throwsAtLast {A} (m : M A) : Prop :=
  forall done,
    match m done with
    | (_, Ok _) => True
    | (done', Throw msg) => endsWithThrow done done' msg
    end.

End InstallOutcomeVocabulary.

(** The run of a copy: what its calls are, and what holds of the run at
    every settlement. *)
Section CopyRunVocabulary.

Import JsString Installer.

Variable P : PathApi.
Variable fsError : list FsOp -> FsOp -> option string.

(** The call that the callback of [map] leaves waiting for an entry. *)
Definition callFor (src dest : string) (here : list string) (entry : string * Node)
    : Call :=
  match entry.2 with
  | Dir sub =>
      AtMkdir (join P src entry.1) (join P dest entry.1) (here ++ [entry.1]) sub
  | found => AtCp (here ++ [entry.1]) found
  end.

(** The operation that the callback issues for an entry. *)
Definition opFor (src dest : string) (entry : string * Node) : FsOp :=
  match entry.2 with
  | Dir _ => Mkdir (join P dest entry.1)
  | _ => Cp (join P src entry.1) (join P dest entry.1)
  end.

(** The operations the copies of the entries of a directory issue at most. *)
Definition callsIn (entries : list (string * Node)) : nat :=
  foldr (fun e acc => calls e.2 + acc) 0 entries.

(** The operations a call may still issue, its own included. *)
Definition weight (c : Call) : nat :=
  match c with
  | AtMkdir _ _ _ entries => 2 + callsIn entries
  | AtReaddir _ _ _ entries => 1 + callsIn entries
  | AtCp _ _ => 1
  end.

(** The operations the calls that wait may still issue. *)
Definition load (l : list (Call * option string)) : nat :=
  foldr (fun x acc => weight x.1 + acc) 0 l.

(** What a directory holds has no part in what the calls do. *)
Definition sameCalls (st st' : Copying) : Prop :=
  started st = started st' /\ waiting st = waiting st' /\ thrown st = thrown st'.

(** [copyDirectory] at its first [await]. *)
Definition beginning (src dest : string) (entries : list (string * Node))
    (done : list FsOp) (before : Holds) : Copying :=
  start fsError (Mkdir dest) (AtMkdir src dest [] entries)
    {| started := done; waiting := []; thrown := None; holds := before |}.

Section OnSource.

Variable source : list (string * Node).
Variable before : Holds.

(** A call works on a directory of the source reached by names that are
    not rejected, or on an entry found in one. *)
Definition legit (c : Call) : Prop :=
  match c with
  | AtMkdir _ _ here entries | AtReaddir _ _ here entries =>
      (here = [] /\ entries = source)
      \/ (reaches source here (Dir entries) /\ admittedPath here true)
  | AtCp here found =>
      reaches source here found /\ isDirectory found = false
      /\ admittedPath here false
  end.

(** The calls that wait work on the source, and the directory holds what
    it held before, the directory itself, and entries of the source. *)
Definition sound (st : Copying) : Prop :=
  (forall c o, (c, o) ∈ waiting st -> legit c)
  /\ (forall p k, holds st !! p = Some k ->
        before !! p = Some k \/ (p = [] /\ k = IsDir) \/ fromSource source p k).

(** The paths a call has yet to create. *)
Definition owes (c : Call) (p : list string) : Prop :=
  match c with
  | AtMkdir _ _ here entries => p = here \/ exists k, below here entries p k
  | AtReaddir _ _ here entries => exists k, below here entries p k
  | AtCp here found => exists r k, p = here ++ r /\ (r, k) ∈ created found
  end.

(** Unless a rejection has been seen, every path the source leads to is
    in the directory or owed by a call that waits. *)
Definition complete (st : Copying) : Prop :=
  is_Some (thrown st)
  \/ forall p, p = [] \/ (exists k, fromSource source p k) ->
       is_Some (holds st !! p) \/ exists c o, (c, o) ∈ waiting st /\ owes c p.

End OnSource.

Section AfterDone.

(** The operations issued before the copy began. *)
Variable done : list FsOp.

(** An operation of the copy threw [msg]. *)
Definition threw (st : Copying) (msg : string) : Prop :=
  threwAfter fsError done (started st) msg.

(** Every rejection that is waiting to be seen, or has been seen, is the
    rejection of an operation of the copy. *)
Definition tracked (st : Copying) : Prop :=
  (exists ops, started st = done ++ ops)
  /\ (forall c msg, (c, Some msg) ∈ waiting st -> threw st msg)
  /\ (forall msg, thrown st = Some msg -> threw st msg).

(** A rejection is not lost: the operation that threw is waiting to be
    seen, or a rejection has been seen. *)
Definition honest (st : Copying) : Prop :=
  forall before op after msg,
    started st = done ++ before ++ op :: after ->
    fsError (done ++ before) op = Some msg ->
    is_Some (thrown st) \/ exists c, (c, Some msg) ∈ waiting st.

End AfterDone.

Section Between.

Variable source : list (string * Node).
Variables src dest : string.

(** A call knows the place it works on by the strings [join] has built
    from the names that lead to it. *)
Definition placed (c : Call) : Prop :=
  match c with
  | AtMkdir s d here _ | AtReaddir s d here _ =>
      s = pathIn P src here /\ d = pathIn P dest here
  | AtCp _ _ => True
  end.

(** The operations issued are operations the filter admits for the
    source, and the calls that wait know their place. *)
Definition onSource (done : list FsOp) (st : Copying) : Prop :=
  (exists ops, started st = done ++ ops /\ Forall (copyOperation P source src dest) ops)
  /\ forall c o, (c, o) ∈ waiting st -> legit source c /\ placed c.

End Between.

End CopyRunVocabulary.

(** A file system on which creating a directory fails. *)
Definition readOnly (done : list Installer.FsOp) (op : Installer.FsOp)
    : option string :=
  match op with
  | Installer.Mkdir _ => Some "EACCES: permission denied"
  | _ => None
  end.

(** A well-known skill with a file in a subdirectory. *)
Definition nestedSkill : Installer.WellKnownSkill :=
  {| Installer.wkName := "S"; Installer.wkDescription := "d";
     Installer.wkInstallName := "S"; Installer.wkSourceUrl := "u";
     Installer.files := [("SKILL.md", "a"); ("docs/guide.md", "b")] |}.

Section WellKnownSelectionVocabulary.

Import JsString Installer.

Variable toLowerCase : string -> string.

(** A requested name is, up to case, the install name or the name of the
    skill. *)
Definition requestedAs (names : list string) (s : WellKnownSkill) : Prop :=
  exists name, name ∈ names
    /\ (toLowerCase (wkInstallName s) = toLowerCase name
        \/ toLowerCase (wkName s) = toLowerCase name).

End WellKnownSelectionVocabulary.

(** Two well-known skills. *)
Definition wkAlpha : Installer.WellKnownSkill :=
  {| Installer.wkName := "Alpha Skill"; Installer.wkDescription := "d";
     Installer.wkInstallName := "alpha"; Installer.wkSourceUrl := "u/alpha";
     Installer.files := [("SKILL.md", "a")] |}.

Definition wkBeta : Installer.WellKnownSkill :=
  {| Installer.wkName := "Beta Skill"; Installer.wkDescription := "d";
     Installer.wkInstallName := "beta"; Installer.wkSourceUrl := "u/beta";
     Installer.files := [("SKILL.md", "b")] |}.

(** Two search results and the keys used on them. *)
Definition foundAlpha : Find.SearchSkill :=
  {| Find.skillName := "alpha"; Find.slug := "o/r/alpha"; Find.skillSource := "o/r";
     Find.installs := 10%Z |}.

Definition foundBeta : Find.SearchSkill :=
  {| Find.skillName := "beta"; Find.slug := "o/r/beta"; Find.skillSource := "o/r";
     Find.installs := 5%Z |}.

Definition keyNamed (n : string) : option Find.Key :=
  Some {| Find.keyName := Some n; Find.ctrl := false; Find.meta := false;
          Find.sequence := None |}.

Section LockUpdateVocabulary.

Import JsString Installer.

(** The install shown under [shown] succeeded. *)
Definition installedAs (results : list (string * InstallResult)) (shown : string)
    : Prop :=
  exists r, r ∈ results /\ r.1 = shown /\ success r.2 = true.

(** [writeSkillLock] never throws. *)
Definition writesSucceed (lockWriteError : SkillLock.SkillLockFile -> option string)
    : Prop :=
  forall lock, lockWriteError lock = None.

End LockUpdateVocabulary.

Definition skillA : Installer.Skill :=
  {| Installer.name := "a"; Installer.description := "d";
     Installer.path := "/tmp/clone/skills/a" |}.

Definition skillB : Installer.Skill :=
  {| Installer.name := "b"; Installer.description := "d";
     Installer.path := "/tmp/clone/skills/b" |}.

(** The install of 'a' succeeded and the one of 'b' failed. *)
Definition oneOfTwo : list (string * Installer.InstallResult) :=
  [("a", Installer.succeeded "/skills/a"); ("b", Installer.failed "/skills/b" "EACCES")].

Definition midnight : nat -> string := fun _ => "2026-02-02T00:00:00.000Z".

(** A skill of the clone whose SKILL.md has 'name: __proto__'. *)
Definition skillProto : Installer.Skill :=
  {| Installer.name := "__proto__"; Installer.description := "d";
     Installer.path := "/tmp/clone/skills/p" |}.

Section OwnerRepoVocabulary.

Import JsString.

(** [repoPath] is what [getOwnerRepoFromString] keeps of [pkg]: all of it
    when it holds no '@' or a single one in front, and otherwise what comes
    before its last '@'. *)
Definition repoPathOf (pkg repoPath : string) : Prop :=
  (repoPath = pkg
   /\ ("@"%char ∉ chars pkg
       \/ exists rest, pkg = String "@" rest /\ "@"%char ∉ chars rest))
  \/ exists suffix,
       pkg = repoPath +:+ String "@" suffix /\ repoPath <> ""
       /\ "@"%char ∉ chars suffix.

End OwnerRepoVocabulary.

Section SkillsBySourceVocabulary.

Import SkillLock LockGroups.

(** What holds of the [Map] once the entries [seen] have been filed. *)
Definition filed (seen : list (string * SkillLockEntry))
    (bySource : list (string * SourceGroup)) : Prop :=
  NoDup bySource.*1
  /\ (forall src g, (src, g) ∈ bySource ->
        (forall n, n ∈ groupSkills g <-> exists e, (n, e) ∈ seen /\ source e = src)
        /\ exists first others,
             groupSkills g = first :: others /\ (first, groupEntry g) ∈ seen)
  /\ (forall n e, (n, e) ∈ seen -> is_Some (Cli.mapGet (source e) bySource)).

End SkillsBySourceVocabulary.

Section SearchPromptVocabulary.

Import JsString Find.


End SearchPromptVocabulary.

(** * The embedding at work *)

Example sanitizeName_spaces_and_bang :
  Installer.sanitizeName JsString.toLowerCaseAscii "My Cool Skill!" = "my-cool-skill".
Proof. vm_compute. reflexivity. Qed.

Example sanitizeName_dot_dot :
  Installer.sanitizeName JsString.toLowerCaseAscii "../../etc/passwd" = "etc-passwd".
Proof. vm_compute. reflexivity. Qed.

Example sanitizeName_only_dots :
  Installer.sanitizeName JsString.toLowerCaseAscii "..." = "unnamed-skill".
Proof. vm_compute. reflexivity. Qed.

Example sanitizeName_keeps_underscores :
  Installer.sanitizeName JsString.toLowerCaseAscii "_Draft_" = "_draft_".
Proof. vm_compute. reflexivity. Qed.

Example endsWith_skill_md : JsString.endsWith "a/SKILL.md" "/SKILL.md" = true.
Proof. vm_compute. reflexivity. Qed.

Example sliceEnd_skill_md : JsString.sliceEnd "a/SKILL.md" 9 = "a".
Proof. vm_compute. reflexivity. Qed.

Example posixJoin_plain :
  Installer.posixJoin "/t/skills" "my-skill" = "/t/skills/my-skill".
Proof. vm_compute. reflexivity. Qed.

Example posixJoin_dot_dot :
  Installer.posixJoin "/t/skills/s" "../evil" = "/t/skills/evil".
Proof. vm_compute. reflexivity. Qed.

Example posixJoin_normalizes :
  Installer.posixJoin "/t/skills/s" "a/./b//c.md" = "/t/skills/s/a/b/c.md".
Proof. vm_compute. reflexivity. Qed.

Example posixResolve_relative :
  Installer.posixResolve "/home/u" "x/../y" = "/home/u/y".
Proof. vm_compute. reflexivity. Qed.

Example posixResolve_root : Installer.posixResolve "/home/u" "/" = "/".
Proof. vm_compute. reflexivity. Qed.

Example posixDirname_nested : Installer.posixDirname "/t/s/a/b.md" = "/t/s/a".
Proof. vm_compute. reflexivity. Qed.

Example posixDirname_top : Installer.posixDirname "/a" = "/".
Proof. vm_compute. reflexivity. Qed.

Example posixBasename_trailing_slash : Installer.posixBasename "/t/s/a/" = "a".
Proof. vm_compute. reflexivity. Qed.

Example installWellKnownSkill_three_files :
  Installer.installWellKnownSkill (Installer.posix "/home/u") JsString.toLowerCaseAscii
    Installer.neverFails
    {| Installer.wkName := "S"; Installer.wkDescription := "d";
       Installer.wkInstallName := "S"; Installer.wkSourceUrl := "u";
       Installer.files := [("SKILL.md", "a"); ("../evil", "b"); ("docs/x.md", "c")] |}
    "/t" []
  = ([Installer.Rm "/t/s"; Installer.Mkdir "/t/s";
      Installer.WriteFile "/t/s/SKILL.md" "a";
      Installer.Mkdir "/t/s/docs"; Installer.WriteFile "/t/s/docs/x.md" "c"],
     Installer.Ok (Installer.succeeded "/t/s")).
Proof. vm_compute. reflexivity. Qed.

Example folderPathOf_nested : SkillLock.folderPathOf "skills/a/SKILL.md" = "skills/a".
Proof. vm_compute. reflexivity. Qed.

Example folderPathOf_root : SkillLock.folderPathOf "SKILL.md" = "".
Proof. vm_compute. reflexivity. Qed.

Example folderPathOf_backslashes : SkillLock.folderPathOf "skills\a\SKILL.md" = "skills/a".
Proof. vm_compute. reflexivity. Qed.

Example folderPathOf_slashes : SkillLock.folderPathOf "a///SKILL.md" = "a/".
Proof. vm_compute. reflexivity. Qed.

Example readSkillLock_version_1 :
  SkillLock.readSkillLock
    (SkillLock.Parsed
       (SkillLock.JObject [("version", SkillLock.JNumber 1);
                           ("skills", SkillLock.JObject [("a", SkillLock.JNull)])]))
  = SkillLock.createEmptyLockFile.
Proof. vm_compute. reflexivity. Qed.

Example readSkillLock_version_3 :
  SkillLock.trackedSkills
    (SkillLock.readSkillLock
       (SkillLock.Parsed
          (SkillLock.JObject [("version", SkillLock.JNumber 3);
                              ("skills", SkillLock.JObject [("a", SkillLock.JNull)])])))
  = ["a"].
Proof. vm_compute. reflexivity. Qed.

Example parseAddOptions_all :
  AddFlow.parseAddOptions ["source"; "--all"]
  = {| AddFlow.parsedSource := ["source"];
       AddFlow.parsedOptions := AddFlow.setAll AddFlow.noOptions |}.
Proof. reflexivity. Qed.

Example parseAddOptions_skill_wildcard :
  AddFlow.parseAddOptions ["source"; "--skill"; "*"]
  = {| AddFlow.parsedSource := ["source"]; AddFlow.parsedOptions := filterOnly ["*"] |}.
Proof. reflexivity. Qed.

Example parseAddOptions_target_dir :
  AddFlow.parseAddOptions ["source"; "-d"; "/tmp/skills"]
  = {| AddFlow.parsedSource := ["source"];
       AddFlow.parsedOptions := AddFlow.setTargetDir (Some "/tmp/skills") AddFlow.noOptions |}.
Proof. reflexivity. Qed.

Example parseAddOptions_full_depth_list :
  AddFlow.parseAddOptions ["source"; "--full-depth"; "--list"]
  = {| AddFlow.parsedSource := ["source"];
       AddFlow.parsedOptions := AddFlow.setList (AddFlow.setFullDepth AddFlow.noOptions) |}.
Proof. reflexivity. Qed.

(** The argument after '-d' is the directory whatever it looks like, and
    the names after '-s' stop at the first option. *)
Example parseAddOptions_directory_named_like_an_option :
  AddFlow.parseAddOptions ["o/r"; "-s"; "a"; "b"; "-d"; "--all"; "c"]
  = {| AddFlow.parsedSource := ["o/r"; "c"];
       AddFlow.parsedOptions :=
         AddFlow.setTargetDir (Some "--all") (filterOnly ["a"; "b"]) |}.
Proof. reflexivity. Qed.

(** A skill found under the name '--all' is read as the option. *)
Example parseAddOptions_skill_named_like_an_option :
  AddFlow.parseAddOptions ["o/r"; "--skill"; "--all"]
  = {| AddFlow.parsedSource := ["o/r"];
       AddFlow.parsedOptions := AddFlow.setAll (filterOnly []) |}.
Proof. reflexivity. Qed.

(** [installSkill] puts 'My Cool Skill!' in the directory 'my-cool-skill'
    and [runAdd] records it under 'My Cool Skill!'.  Removing it removes
    the directory and reports success; the lock file, looked up under
    'my-cool-skill', is not written and keeps the entry. *)
Example removeCommand_keeps_the_entry_under_the_skill_name :
  Installer.sanitizeName JsString.toLowerCaseAscii "My Cool Skill!" = "my-cool-skill"
  /\ Remove.removeCommand (Installer.posix "/home/u") JsString.toLowerCaseAscii
       Installer.neverFails lockWritable chooseNothing "/home/u/.agents/skills"
       ["my-cool-skill"] ["my-cool-skill"] removeNamed (freshWorld diskWithCoolSkill)
     = ({| Remove.issued := [Installer.Rm "/skills/my-cool-skill"];
           Remove.lockFile := diskWithCoolSkill |},
        Remove.Removed
          [{| Remove.resultSkill := "my-cool-skill"; Remove.resultSuccess := true;
              Remove.resultSource := Some "local";
              Remove.resultSourceType := Some "local";
              Remove.resultError := None |}]).
Proof. split; reflexivity. Qed.

(** [--list] wins over [--all]: the skills are printed and nothing is
    selected. *)
Example afterDiscovery_all_and_list :
  AddFlow.afterDiscovery (Add.selectSkills byName id (fun _ => None))
    (Add.mergeSkillFilter None
       (Add.applyAll
          (AddFlow.parsedOptions (AddFlow.parseAddOptions ["o/r"; "--all"; "--list"]))))
    ["a"; "b"]
  = AddFlow.ListedOnly ["a"; "b"].
Proof. reflexivity. Qed.

Example parseListOptions_empty : ListCmd.parseListOptions [] = None.
Proof. reflexivity. Qed.

Example parseListOptions_d :
  ListCmd.parseListOptions ["-d"; "/tmp/skills"] = Some "/tmp/skills".
Proof. reflexivity. Qed.

Example parseListOptions_target_dir :
  ListCmd.parseListOptions ["--target-dir"; "/tmp/skills"] = Some "/tmp/skills".
Proof. reflexivity. Qed.

Example parseRemoveOptions_names_and_flags :
  Remove.parseRemoveOptions ["skill-one"; "-y"; "-d"; "/tmp/skills"; "--all"]
  = {| Remove.parsedSkills := ["skill-one"];
       Remove.parsedOptions :=
         {| Remove.all := true; Remove.targetDir := Some "/tmp/skills" |} |}.
Proof. reflexivity. Qed.

Example getInstallPath_sanitizes :
  InstallerQueries.getInstallPath (Installer.posix "/home/u") JsString.toLowerCaseAscii
    "My Cool Skill!" "/skills"
  = Installer.Ok "/skills/my-cool-skill".
Proof. reflexivity. Qed.

(** A directory that was not made by an install: its removal is aimed at
    the sanitized name. *)
Example getInstallPath_of_a_foreign_directory :
  InstallerQueries.getInstallPath (Installer.posix "/home/u") JsString.toLowerCaseAscii
    "MySkill" "/skills"
  = Installer.Ok "/skills/myskill".
Proof. reflexivity. Qed.

(** A name cut at 255 characters is not its own sanitized form. *)
Example sanitizeName_twice_after_a_cut :
  Installer.sanitizeName JsString.toLowerCaseAscii
    (Installer.sanitizeName JsString.toLowerCaseAscii longName)
  <> Installer.sanitizeName JsString.toLowerCaseAscii longName.
Proof. vm_compute. discriminate. Qed.

(** An inherited name is in every object: the lock file is written, here
    for the first time, and the answer is [true]. *)
Example removeSkillFromLock_inherited_name :
  SkillLock.removeSkillFromLock "toString" None
  = (Some SkillLock.emptyLockFile, true).
Proof. reflexivity. Qed.

Example removeSkillFromLock_unknown_name :
  SkillLock.removeSkillFromLock "b" diskWithA = (diskWithA, false).
Proof. reflexivity. Qed.

Example getSkillsBySource_one_source :
  LockGroups.getSkillsBySource diskWithAB
  = [("o/r", {| LockGroups.groupSkills := ["a"; "b"];
                LockGroups.groupEntry := firstInstall |})].
Proof. reflexivity. Qed.

Example getGitHubToken_skips_an_empty_variable :
  SkillLock.getGitHubToken (Some "") (Some "t2") None = Some "t2".
Proof. reflexivity. Qed.

Example getOwnerRepoFromString_with_skill :
  Find.getOwnerRepoFromString "vercel-labs/agent-skills@web-design"
  = Some ("vercel-labs", "agent-skills").
Proof. reflexivity. Qed.

Example getOwnerRepoFromString_leading_at :
  Find.getOwnerRepoFromString "@scope/pkg" = Some ("@scope", "pkg").
Proof. reflexivity. Qed.

Example getOwnerRepoFromString_three_parts :
  Find.getOwnerRepoFromString "a/b/c" = None.
Proof. reflexivity. Qed.

(** Typing 'a' and 'b' arms a search; its two results arrive; 'down'
    twice stays on the last one. *)
Example runSearchPrompt_down_stops_at_the_end :
  Find.runSearchPrompt
    [Find.Keypress (Some {| Find.keyName := Some "a"; Find.ctrl := false;
                            Find.meta := false; Find.sequence := Some "a" |});
     Find.Keypress (Some {| Find.keyName := Some "b"; Find.ctrl := false;
                            Find.meta := false; Find.sequence := Some "b" |});
     Find.SearchReturns [foundAlpha; foundBeta];
     Find.Keypress (keyNamed "down"); Find.Keypress (keyNamed "down")]
    Find.initialPrompt
  = Find.Continue {| Find.results := [foundAlpha; foundBeta];
                     Find.selectedIndex := 1; Find.query := "ab";
                     Find.loading := false |}.
Proof. reflexivity. Qed.

Example relativePathOf_local_install :
  AddFlow.relativePathOf "/"%char None "/home/u/skills/a" = None.
Proof. reflexivity. Qed.

(** * Properties *)

(** ** Strings *)
Section StringFacts.

Import JsString.

Lemma chars_str l : chars (str l) = l.
Proof. apply String.list_ascii_of_string_of_list_ascii. Qed.

Lemma str_chars s : str (chars s) = s.
Proof. apply String.string_of_list_ascii_of_string. Qed.

Lemma chars_inj s t : chars s = chars t -> s = t.
Proof. intros H. rewrite <- (str_chars s), <- (str_chars t). now rewrite H. Qed.

Lemma chars_app s t : chars (s +:+ t) = chars s ++ chars t.
Proof.
  induction s as [|c s IH]; simpl; [reflexivity|].
  unfold chars in *. simpl. now rewrite IH.
Qed.

Lemma str_app l k : str (l ++ k) = str l +:+ str k.
Proof. apply chars_inj. now rewrite chars_app, !chars_str. Qed.

Lemma truthy_chars s : truthy s = true <-> chars s <> [].
Proof. destruct s; simpl; split; intros; congruence. Qed.

Lemma truthy_false s : truthy s = false <-> s = "".
Proof. destruct s; simpl; split; intros; congruence. Qed.

Lemma endsWith_spec s suf :
  endsWith s suf = true <-> exists p, s = p +:+ suf.
Proof.
  unfold endsWith. rewrite bool_decide_eq_true. split.
  - intros [k Hk]. exists (str k). apply chars_inj.
    now rewrite chars_app, chars_str.
  - intros [p ->]. exists (chars p). apply chars_app.
Qed.

Lemma sliceEnd_app p suf : sliceEnd (p +:+ suf) (length (chars suf)) = p.
Proof.
  unfold sliceEnd. rewrite chars_app, length_app.
  replace (length (chars p) + length (chars suf) - length (chars suf))
    with (length (chars p)) by lia.
  rewrite take_app_length. apply str_chars.
Qed.

End StringFacts.

(** ** [sanitizeName] *)
Section SanitizeName.

Import JsString Installer.

Lemma replaceDisallowed_chars inRun l :
  Forall nameChar (replaceDisallowed inRun l).
Proof.
  revert inRun. induction l as [|c l IH]; intros inRun; simpl; [constructor|].
  destruct (allowedChar c) eqn:Hc.
  - constructor; [now left | apply IH].
  - destruct inRun; [apply IH|]. constructor; [now right | apply IH].
Qed.

Lemma dropWhile_suffix p l : dropWhile p l `suffix_of` l.
Proof.
  induction l as [|c l IH]; simpl; [reflexivity|].
  destruct (p c); [|reflexivity]. now apply suffix_cons_r.
Qed.

Lemma dropWhile_head p l c : head (dropWhile p l) = Some c -> p c = false.
Proof.
  induction l as [|d l IH]; simpl; [discriminate|].
  destruct (p d) eqn:Hd; [exact IH|]. simpl. intros [= <-]. exact Hd.
Qed.

Lemma Forall_suffix {A} (P : A -> Prop) (l k : list A) :
  l `suffix_of` k -> Forall P k -> Forall P l.
Proof. intros [m ->] H. now apply Forall_app in H as [_ H]. Qed.

Lemma trimDotsHyphens_chars l :
  Forall nameChar l -> Forall nameChar (trimDotsHyphens l).
Proof.
  intros H. unfold trimDotsHyphens. apply Forall_reverse.
  eapply Forall_suffix; [apply dropWhile_suffix|]. apply Forall_reverse.
  eapply Forall_suffix; [apply dropWhile_suffix|]. exact H.
Qed.

(** The trimmed string is a prefix of what is left once the leading run
    is gone. *)
Lemma trimDotsHyphens_prefix l :
  trimDotsHyphens l `prefix_of` dropWhile dotOrHyphen l.
Proof.
  unfold trimDotsHyphens.
  destruct (dropWhile_suffix dotOrHyphen (reverse (dropWhile dotOrHyphen l))) as [k Hk].
  exists (reverse k). rewrite <- reverse_app, <- Hk. now rewrite reverse_involutive.
Qed.

Lemma trimDotsHyphens_head l c :
  head (trimDotsHyphens l) = Some c -> dotOrHyphen c = false.
Proof.
  intros H. destruct (trimDotsHyphens_prefix l) as [k Hk].
  apply (dropWhile_head dotOrHyphen l). rewrite Hk.
  destruct (trimDotsHyphens l); [discriminate|exact H].
Qed.

Lemma trimDotsHyphens_last l c :
  last (trimDotsHyphens l) = Some c -> dotOrHyphen c = false.
Proof.
  unfold trimDotsHyphens. rewrite last_reverse. apply dropWhile_head.
Qed.

Lemma head_take {A} n (l : list A) : 0 < n -> head (take n l) = head l.
Proof. destruct n; [lia|]. now destruct l. Qed.

Variable toLowerCase : string -> string.

(** The result only has characters of [[a-z0-9._]] and hyphens. *)
Lemma sanitizeName_chars name :
  Forall nameChar (chars (sanitizeName toLowerCase name)).
Proof.
  unfold sanitizeName, sanitized, substring0.
  destruct (truthy _).
  - rewrite !chars_str. apply Forall_take, trimDotsHyphens_chars,
      replaceDisallowed_chars.
  - change (chars "unnamed-skill") with (chars (str (chars "unnamed-skill"))).
    rewrite chars_str. cbv [chars String.list_ascii_of_string].
    repeat (apply List.Forall_cons;
            [first [left; reflexivity | right; reflexivity]|]).
    apply List.Forall_nil.
Qed.

(** At most 255 characters, and never empty. *)
Lemma sanitizeName_length name :
  0 < length (chars (sanitizeName toLowerCase name)) <= 255.
Proof.
  unfold sanitizeName, substring0.
  destruct (truthy _) eqn:Ht.
  - apply truthy_chars in Ht. rewrite chars_str in *.
    split; [destruct (take 255 _); [congruence | simpl; lia]|].
    apply firstn_le_length.
  - vm_compute. lia.
Qed.

(** No dot or hyphen in front. *)
Lemma sanitizeName_head name c :
  head (chars (sanitizeName toLowerCase name)) = Some c -> dotOrHyphen c = false.
Proof.
  unfold sanitizeName, sanitized, substring0.
  destruct (truthy _).
  - rewrite !chars_str, head_take by lia. apply trimDotsHyphens_head.
  - vm_compute. now intros [= <-].
Qed.

(** The placeholder is returned exactly when nothing is left. *)
Lemma sanitizeName_placeholder name :
  sanitized toLowerCase name = "" ->
  sanitizeName toLowerCase name = "unnamed-skill".
Proof. unfold sanitizeName. now intros ->. Qed.

(** No dot or hyphen at the end as long as nothing is cut off. *)
Lemma sanitizeName_last_short name c :
  length (chars (sanitized toLowerCase name)) <= 255 ->
  last (chars (sanitizeName toLowerCase name)) = Some c -> dotOrHyphen c = false.
Proof.
  unfold sanitizeName, substring0. intros Hlen.
  rewrite take_ge by exact Hlen. rewrite str_chars.
  destruct (truthy _).
  - unfold sanitized. rewrite chars_str. apply trimDotsHyphens_last.
  - vm_compute. now intros [= <-].
Qed.

End SanitizeName.

(** C5. [sanitizeName] is claimed to return a name without leading or
    trailing separator.  The trailing run is removed before the cut to 255
    characters, so the cut can end on a hyphen: for 254 letters followed by
    "-b" the result is the 254 letters followed by "-". *)
Theorem sanitizeName_cut_ends_on_hyphen :
  Installer.sanitizeName JsString.toLowerCaseAscii longName
    = JsString.str (replicate 254 "a"%char ++ ["-"%char])
  /\ last (JsString.chars (Installer.sanitizeName JsString.toLowerCaseAscii longName))
     = Some "-"%char
  /\ Installer.dotOrHyphen "-"%char = true.
Proof. vm_compute. repeat split; reflexivity. Qed.

(** ** The schema guard of [readSkillLock] *)
Section SchemaGuard.

Import SkillLock.

Lemma Qltb_true a b : Qltb a b = true <-> (a < b)%Q.
Proof.
  unfold Qltb. rewrite negb_true_iff, <- not_true_iff_false, Qle_bool_iff.
  split; [apply Qnot_le_lt | apply Qlt_not_le].
Qed.

Lemma trackedSkills_empty : trackedSkills createEmptyLockFile = [].
Proof. reflexivity. Qed.

(** Both copies of the reader are the same function. *)
Lemma cli_readSkillLock_eq file : Cli.readSkillLock file = readSkillLock file.
Proof. reflexivity. Qed.

(** C3. Whenever the version tag of the lock file is absent, is not a
    number, or is a number below 3, reading yields exactly what a missing
    lock file yields, in [skill-lock.ts] and in [cli.ts], and no skill is
    tracked.  Nothing of the stored entries survives. *)
Theorem readSkillLock_stale_version_is_empty (file : FileRead) :
  noUsableVersion file ->
  readSkillLock file = readSkillLock ReadThrows
  /\ Cli.readSkillLock file = Cli.readSkillLock ReadThrows
  /\ trackedSkills (readSkillLock file) = []
  /\ trackedSkills (Cli.readSkillLock file) = [].
Proof.
  intros H.
  change (Cli.readSkillLock file) with (readSkillLock file).
  change (Cli.readSkillLock ReadThrows) with (readSkillLock ReadThrows).
  assert (E : readSkillLock file = createEmptyLockFile).
  { destruct file as [| |parsed]; [reflexivity | reflexivity |].
    unfold readSkillLock. destruct (accessThrows parsed); [reflexivity|].
    destruct H as [Ha | [(v & Hv & Hn) | (q & Hq & Hlt)]].
    - unfold versionAbsent in Ha. now rewrite Ha.
    - rewrite Hv. destruct v; try reflexivity. now destruct (Hn q).
    - rewrite Hq. simpl. destruct (truthyJson _); [|reflexivity]. simpl.
      apply Qltb_true in Hlt. now rewrite Hlt. }
  rewrite E. repeat split; reflexivity.
Qed.

Lemma readSkillLock_stale_version_is_empty_witness :
  (readSkillLock (Parsed staleLock) = readSkillLock ReadThrows
   /\ trackedSkills (Cli.readSkillLock (Parsed staleLock)) = [])
  /\ (readSkillLock (Parsed unversionedLock) = readSkillLock ReadThrows
      /\ trackedSkills (Cli.readSkillLock (Parsed unversionedLock)) = [])
  /\ (readSkillLock (Parsed textVersionLock) = readSkillLock ReadThrows
      /\ trackedSkills (Cli.readSkillLock (Parsed textVersionLock)) = []).
Proof.
  split; [|split].
  - destruct (readSkillLock_stale_version_is_empty (Parsed staleLock)) as (H & _ & _ & H').
    + right. right. exists 1%Q. split; reflexivity.
    + now split.
  - destruct (readSkillLock_stale_version_is_empty (Parsed unversionedLock))
      as (H & _ & _ & H').
    + left. reflexivity.
    + now split.
  - destruct (readSkillLock_stale_version_is_empty (Parsed textVersionLock))
      as (H & _ & _ & H').
    + right. left. exists (JString "3"). split; [reflexivity | discriminate].
    + now split.
Defined.

(** A file of the declared type goes through the guard as
    [readSkillLockTyped] says. *)
Lemma readSkillLock_typed (disk : Disk) :
  readSkillLock (diskToFile disk) = toJson (readSkillLockTyped disk).
Proof.
  destruct disk as [lock|]; simpl.
  - unfold readSkillLockTyped. destruct (Qltb (version lock) CURRENT_VERSION); reflexivity.
  - unfold toJson. simpl. now rewrite map_to_list_empty.
Qed.

End SchemaGuard.

(** ** [addSkillToLock] *)
Section AddSkillToLock.

Import SkillLock.

(** What the guard lets through is never below the current version. *)
Lemma readSkillLockTyped_version disk :
  Qltb (version (readSkillLockTyped disk)) CURRENT_VERSION = false.
Proof.
  destruct disk as [lock|]; simpl; [|reflexivity].
  destruct (Qltb (version lock) CURRENT_VERSION) eqn:E; [reflexivity | exact E].
Qed.

(** Reading back what was just written returns it unchanged. *)
Lemma read_after_write disk m :
  readSkillLockTyped
    (writeSkillLock {| version := version (readSkillLockTyped disk); skills := m |})
  = {| version := version (readSkillLockTyped disk); skills := m |}.
Proof.
  unfold writeSkillLock. simpl. now rewrite readSkillLockTyped_version.
Qed.

(** The assignment is an insertion for every name but '__proto__', and
    for '__proto__' too when the object has that key. *)
Lemma assign_plain skillName stored (m : gmap string SkillLockEntry) :
  skillName <> "__proto__" \/ is_Some (m !! skillName) ->
  assign skillName stored m = <[skillName := stored]> m.
Proof.
  unfold assign. intros [Hne | [e He]].
  - destruct (m !! skillName); [reflexivity|].
    destruct (String.eqb skillName "__proto__") eqn:E; [|reflexivity].
    apply String.eqb_eq in E. contradiction.
  - now rewrite He.
Qed.

(** The assignment never touches another key. *)
Lemma assign_other skillName stored (m : gmap string SkillLockEntry) other :
  other <> skillName -> assign skillName stored m !! other = m !! other.
Proof.
  intros Hne. unfold assign.
  destruct (m !! skillName), (String.eqb skillName "__proto__");
    try reflexivity; now apply lookup_insert_ne.
Qed.

(** Under '__proto__' an object without that key is left as it is. *)
Lemma assign_proto stored (m : gmap string SkillLockEntry) :
  m !! "__proto__" = None -> assign "__proto__" stored m = m.
Proof. unfold assign. now intros ->. Qed.

(** X28. For every skill name but '__proto__', [addSkillToLock] upserts
    the entry: afterwards the lock holds, under [skillName], the given
    entry; its [installedAt] is the one of the entry that was there before
    when there was one and [now] otherwise; its [updatedAt] is [now]; every
    other name keeps its entry.  The same holds for '__proto__' when the
    lock file read has an entry under that very key. *)
Theorem addSkillToLock_upserts (now skillName : string) (entry : NewEntry)
    (disk : Disk) :
  skillName <> "__proto__" \/ is_Some (getAllLockedSkills disk !! skillName) ->
  exists stored,
    getAllLockedSkills (addSkillToLock now skillName entry disk) !! skillName
    = Some stored
    /\ carries stored entry
    /\ updatedAt stored = now
    /\ (forall old, getAllLockedSkills disk !! skillName = Some old ->
          installedAt stored = installedAt old)
    /\ (getAllLockedSkills disk !! skillName = None -> installedAt stored = now)
    /\ (forall other, other <> skillName ->
          getAllLockedSkills (addSkillToLock now skillName entry disk) !! other
          = getAllLockedSkills disk !! other).
Proof.
  unfold getAllLockedSkills, addSkillToLock. intros Hplain.
  rewrite read_after_write. cbn [skills]. rewrite assign_plain by exact Hplain.
  eexists. split; [apply lookup_insert_eq|].
  split; [now repeat split|]. simpl. split; [reflexivity|].
  split; [now intros old ->|]. split; [now intros ->|].
  intros other Hne. now apply lookup_insert_ne.
Qed.

Lemma addSkillToLock_upserts_witness :
  (exists stored,
    getAllLockedSkills
      (addSkillToLock "2026-02-02T00:00:00.000Z" "a" reinstall diskWithA) !! "a"
      = Some stored
    /\ skillFolderHash stored = "def"
    /\ updatedAt stored = "2026-02-02T00:00:00.000Z"
    /\ installedAt stored = "2026-01-01T00:00:00.000Z")
  /\ (exists stored,
    getAllLockedSkills
      (addSkillToLock "2026-02-02T00:00:00.000Z" "b" reinstall diskWithA) !! "b"
      = Some stored
    /\ installedAt stored = "2026-02-02T00:00:00.000Z"
    /\ getAllLockedSkills
         (addSkillToLock "2026-02-02T00:00:00.000Z" "b" reinstall diskWithA) !! "a"
       = Some firstInstall).
Proof.
  split.
  - destruct (addSkillToLock_upserts "2026-02-02T00:00:00.000Z" "a" reinstall diskWithA)
      as (stored & Hget & Hcarries & Hupd & Hold & _); [left; discriminate|].
    exists stored. split; [exact Hget|].
    split; [apply Hcarries|]. split; [exact Hupd|].
    apply (Hold firstInstall). reflexivity.
  - destruct (addSkillToLock_upserts "2026-02-02T00:00:00.000Z" "b" reinstall diskWithA)
      as (stored & Hget & _ & _ & _ & Hnew & Hother); [left; discriminate|].
    exists stored. split; [exact Hget|]. split; [apply Hnew; reflexivity|].
    rewrite (Hother "a") by discriminate. reflexivity.
Defined.

(** C4 fails on the code at the name '__proto__'.  The lock file tracks
    'a' and has no key '__proto__'; [addSkillToLock('__proto__', entry)]
    writes the file back as it was: no entry is stored under the name, and
    no [installedAt] or [updatedAt] is set. *)
Lemma addSkillToLock_stores_nothing_under_proto :
  addSkillToLock "2026-02-02T00:00:00.000Z" "__proto__" reinstall diskWithA = diskWithA
  /\ getAllLockedSkills
       (addSkillToLock "2026-02-02T00:00:00.000Z" "__proto__" reinstall diskWithA)
       !! "__proto__" = None.
Proof.
  assert (E : addSkillToLock "2026-02-02T00:00:00.000Z" "__proto__" reinstall diskWithA
              = diskWithA).
  { unfold addSkillToLock. rewrite assign_proto; reflexivity. }
  rewrite E. split; reflexivity.
Qed.

End AddSkillToLock.

(** ** [fetchSkillFolderHash] *)
Section Fingerprint.

Import JsString SkillLock.

Variable httpGetTree : string -> list (string * string) -> option TreeResponse.
Variables (ownerRepo skillPath : string) (token : option string).

Lemma isFolderEntry_true folderPath e :
  isFolderEntry folderPath e = true
  <-> entryType e = "tree" /\ entryPath e = folderPath.
Proof.
  unfold isFolderEntry. rewrite andb_true_iff, !String.eqb_eq. tauto.
Qed.

Lemma findEntry_Some folderPath entries e :
  findEntry (isFolderEntry folderPath) entries = Some e
  <-> firstFolderEntry folderPath entries e.
Proof.
  unfold firstFolderEntry. induction entries as [|x l IH]; simpl.
  - split; [discriminate|]. intros (b & a & H & _). now destruct b.
  - destruct (isFolderEntry folderPath x) eqn:Hx.
    + apply isFolderEntry_true in Hx. split.
      * intros [= <-]. exists [], l. repeat split; try apply Hx. constructor.
      * intros (b & a & H & Ht & Hp & Hb). destruct b as [|y b].
        -- simpl in H. congruence.
        -- simpl in H. injection H as <- _. inversion Hb; subst. tauto.
    + assert (Hn : ~ (entryType x = "tree" /\ entryPath x = folderPath)).
      { rewrite <- isFolderEntry_true. congruence. }
      rewrite IH. split.
      * intros (b & a & -> & Ht & Hp & Hb). exists (x :: b), a.
        repeat split; auto.
      * intros (b & a & H & Ht & Hp & Hb). destruct b as [|y b].
        -- simpl in H. injection H as -> _. tauto.
        -- simpl in H. injection H as <- ->. inversion Hb; subst.
           exists b, a. repeat split; auto.
Qed.

Lemma answer_yields branch h :
  answer httpGetTree ownerRepo skillPath token branch = Some h
  <-> yields httpGetTree ownerRepo skillPath token branch h.
Proof.
  unfold answer, yields. destruct (listing httpGetTree ownerRepo token branch) as [data|].
  - destruct (truthy (folderPathOf skillPath)) eqn:Ht; simpl.
    + assert (Hne : folderPathOf skillPath <> "").
      { intros E. apply truthy_false in E. congruence. }
      split.
      * destruct (findEntry _ _) as [e|] eqn:He; simpl; [|discriminate].
        intros [= <-]. exists data. split; [reflexivity|]. right.
        split; [exact Hne|]. exists e. now rewrite <- findEntry_Some.
      * intros (d & [= <-] & [[E _] | (_ & e & He & ->)]); [contradiction|].
        apply findEntry_Some in He. now rewrite He.
    + apply truthy_false in Ht. split.
      * intros [= <-]. exists data. split; [reflexivity|]. now left.
      * intros (d & [= <-] & [[_ ->] | (Hne & _)]); [reflexivity|contradiction].
  - split; [discriminate|]. now intros (d & H & _).
Qed.

Lemma tryBranches_cons branch rest :
  tryBranches httpGetTree ownerRepo (folderPathOf skillPath) token (branch :: rest)
  = match (answer httpGetTree ownerRepo skillPath token) branch with
    | Some h => Some h
    | None => tryBranches httpGetTree ownerRepo (folderPathOf skillPath) token rest
    end.
Proof.
  simpl. unfold answer, listing.
  destruct (httpGetTree _ _) as [data|]; [|reflexivity].
  destruct (truthy (folderPathOf skillPath)); simpl; [|reflexivity].
  now destruct (findEntry _ _).
Qed.

(** C2, as the code has it.  The candidates are 'main' then 'master'.
    The folder path is the skill path with backslashes turned into
    slashes, a trailing '/SKILL.md' or else 'SKILL.md' removed, and then
    one trailing '/' removed.  The result is the fingerprint of the first
    candidate that answers, where a branch answers when its listing
    succeeds and has the root hash (empty folder path) or a directory
    entry at the folder path; a branch whose listing succeeds without such
    an entry is passed over like one whose listing fails.  The result is
    null exactly when neither branch answers. *)
Theorem fetchSkillFolderHash_first_answer :
  branches = ["main"; "master"]
  /\ (forall h,
        fetchSkillFolderHash httpGetTree ownerRepo skillPath token = Some h
        <-> yields httpGetTree ownerRepo skillPath token "main" h
            \/ ((forall h', ~ yields httpGetTree ownerRepo skillPath token "main" h')
                /\ yields httpGetTree ownerRepo skillPath token "master" h))
  /\ (fetchSkillFolderHash httpGetTree ownerRepo skillPath token = None
      <-> forall branch h,
            In branch branches ->
            ~ yields httpGetTree ownerRepo skillPath token branch h).
Proof.
  split; [reflexivity|].
  unfold fetchSkillFolderHash, branches.
  rewrite !tryBranches_cons. simpl tryBranches.
  split.
  - intros h. rewrite <- !answer_yields.
    destruct (answer httpGetTree ownerRepo skillPath token "main") as [h1|] eqn:E1.
    + split; [now left|]. intros [H | [Hn _]]; [exact H|].
      exfalso. apply (Hn h1). now apply answer_yields.
    + destruct (answer httpGetTree ownerRepo skillPath token "master") as [h2|] eqn:E2.
      * split; [right; split; [|assumption] | intros [H | [_ H]]; congruence].
        intros h' Hy. apply answer_yields in Hy. congruence.
      * split; [discriminate|]. intros [H | [_ H]]; discriminate.
  - split.
    + intros H branch h Hin Hy. apply answer_yields in Hy.
      destruct (answer httpGetTree ownerRepo skillPath token "main") eqn:E1;
        [discriminate|].
      destruct (answer httpGetTree ownerRepo skillPath token "master") eqn:E2;
        [discriminate|].
      destruct Hin as [<- | [<- | []]]; congruence.
    + intros H.
      destruct (answer httpGetTree ownerRepo skillPath token "main") as [h1|] eqn:E1.
      { exfalso. apply (H "main" h1); [now left | now apply answer_yields]. }
      destruct (answer httpGetTree ownerRepo skillPath token "master") as [h2|] eqn:E2;
        [|reflexivity].
      exfalso. apply (H "master" h2); [right; now left | now apply answer_yields].
Qed.

End Fingerprint.

(** C2 as stated fails: the listing of 'main' succeeds and has no entry for
    the folder, the claim answers null, the code goes on to 'master'. *)
Lemma fetchSkillFolderHash_falls_through :
  SkillLock.fetchSkillFolderHash twoBranches "o/r" "skills/a/SKILL.md" None = Some "h2"
  /\ claimedFetchSkillFolderHash twoBranches "o/r" "skills/a/SKILL.md" None = None.
Proof. vm_compute. split; reflexivity. Qed.

(** ** [runCheck] and [runUpdate] *)
Section UpdateCheck.

Import JsString SkillLock Cli.

Variable httpGetTree : string -> list (string * string) -> option TreeResponse.
Variable token : option string.

Lemma flat_mapSet_push src item groups y :
  y ∈ flat (mapSet src (default [] (mapGet src groups) ++ [item]) groups)
  <-> y ∈ flat groups \/ y = (src, item).
Proof.
  induction groups as [|[k v] rest IH]; simpl.
  - rewrite elem_of_nil, list_elem_of_singleton. tauto.
  - destruct (String.eqb k src) eqn:Hk; simpl.
    + apply String.eqb_eq in Hk as ->.
      rewrite map_app, !elem_of_app. simpl. rewrite list_elem_of_singleton. tauto.
    + rewrite !elem_of_app, IH. tauto.
Qed.

Lemma groupBySource_spec lock skillNames groups count :
  let result := groupBySource lock skillNames groups count in
  (forall y, y ∈ flat result.1
     <-> y ∈ flat groups
         \/ exists n e, n ∈ skillNames /\ skills lock !! n = Some e
                        /\ skipped e = false /\ y = (source e, (n, e)))
  /\ result.2 = count + length (List.filter (skippedName lock) skillNames).
Proof.
  revert groups count. induction skillNames as [|n rest IH]; intros groups count; simpl.
  - split; [|lia]. intros y. split; [now left|].
    intros [H | (n & e & Hin & _)]; [exact H|]. now apply elem_of_nil in Hin.
  - unfold skippedName at 1. destruct (skills lock !! n) as [e|] eqn:Hn.
    + destruct (skipped e) eqn:Hs.
      * destruct (IH groups (S count)) as [IH1 IH2]. split; [|simpl; lia].
        intros y. rewrite IH1. split.
        -- intros [H | (m & e' & Hin & H)]; [now left|].
           right. exists m, e'. split; [now apply list_elem_of_further | exact H].
        -- intros [H | (m & e' & Hin & Hm & Hsk & Hy)]; [now left|].
           apply elem_of_cons in Hin as [-> | Hin]; [congruence|].
           right. exists m, e'. auto.
      * destruct (IH (mapSet (source e)
                        (default [] (mapGet (source e) groups) ++ [(n, e)]) groups)
                     count) as [IH1 IH2].
        split; [|exact IH2]. intros y. rewrite IH1, flat_mapSet_push. split.
        -- intros [[H | ->] | (m & e' & Hin & H)].
           ++ now left.
           ++ right. exists n, e. repeat split; auto. apply list_elem_of_here.
           ++ right. exists m, e'. split; [now apply list_elem_of_further | exact H].
        -- intros [H | (m & e' & Hin & Hm & Hsk & Hy)]; [now left; left|].
           apply elem_of_cons in Hin as [-> | Hin].
           ++ left. right. congruence.
           ++ right. exists m, e'. auto.
    + destruct (IH groups count) as [IH1 IH2]. split; [|exact IH2].
      intros y. rewrite IH1. split.
      * intros [H | (m & e' & Hin & H)]; [now left|].
        right. exists m, e'. split; [now apply list_elem_of_further | exact H].
      * intros [H | (m & e' & Hin & Hm & Hsk & Hy)]; [now left|].
        apply elem_of_cons in Hin as [-> | Hin]; [congruence|].
        right. exists m, e'. auto.
Qed.

Lemma checkOne_verdict src item updates errors :
  checkOne httpGetTree token src item (updates, errors)
  = (updates ++ option_list (updateFor httpGetTree token (src, item)),
     errors ++ option_list (errorFor httpGetTree token (src, item))).
Proof.
  destruct item as [n e]. unfold checkOne, updateFor, errorFor, verdict, latestHashOf.
  simpl. destruct (negb (truthyOpt _)); simpl; [now rewrite app_nil_r|].
  destruct (negb (bool_decide _)); simpl; now rewrite ?app_nil_r.
Qed.

Lemma omap_cons_list {A B} (f : A -> option B) x l :
  omap f (x :: l) = option_list (f x) ++ omap f l.
Proof. simpl. now destruct (f x). Qed.

Lemma checkSource_flat src items updates errors :
  checkSource httpGetTree token src items (updates, errors)
  = (updates ++ omap (updateFor httpGetTree token) (map (pair src) items),
     errors ++ omap (errorFor httpGetTree token) (map (pair src) items)).
Proof.
  revert updates errors. induction items as [|item rest IH]; intros.
  - simpl. now rewrite !app_nil_r.
  - cbn [checkSource map]. rewrite checkOne_verdict, IH, !omap_cons_list, !app_assoc.
    reflexivity.
Qed.

Lemma checkAll_flat groups updates errors :
  checkAll httpGetTree token groups (updates, errors)
  = (updates ++ omap (updateFor httpGetTree token) (flat groups),
     errors ++ omap (errorFor httpGetTree token) (flat groups)).
Proof.
  revert updates errors. induction groups as [|[src items] rest IH]; intros; simpl.
  - now rewrite !app_nil_r.
  - rewrite checkSource_flat, IH, !omap_app, !app_assoc. reflexivity.
Qed.

Lemma elem_of_skillNamesOf lock n :
  n ∈ skillNamesOf lock <-> is_Some (skills lock !! n).
Proof.
  unfold skillNamesOf. rewrite list_elem_of_fmap. split.
  - intros ([k e] & -> & Hin). apply elem_of_map_to_list in Hin. now exists e.
  - intros [e He]. exists (n, e). split; [reflexivity|]. now apply elem_of_map_to_list.
Qed.

Lemma filter_shorter {A} (f : A -> bool) (l : list A) x :
  x ∈ l -> f x = false -> length (List.filter f l) < length l.
Proof.
  induction l as [|y l IH]; intros Hin Hx; [now apply elem_of_nil in Hin|].
  pose proof (List.filter_length_le f l) as Hle. simpl.
  apply elem_of_cons in Hin as [<- | Hin].
  - rewrite Hx. lia.
  - specialize (IH Hin Hx). destruct (f y); simpl; lia.
Qed.

(** The report of [runCheck] in terms of the verdicts. *)
Lemma runCheck_shape disk :
  let lock := readSkillLockTyped disk in
  exists visited,
    (forall y, y ∈ visited <-> checkable lock y)
    /\ runCheck httpGetTree token disk
       = if length (skillNamesOf lock) =? 0 then NoSkillsTracked
         else if length (skillNamesOf lock) - skippedTotal lock =? 0
         then NoGitHubSkills (skippedTotal lock)
         else Checked (length (skillNamesOf lock) - skippedTotal lock)
                (skippedTotal lock)
                (omap (updateFor httpGetTree token) visited)
                (omap (errorFor httpGetTree token) visited).
Proof.
  intros lock. unfold runCheck. fold lock.
  pose proof (groupBySource_spec lock (skillNamesOf lock) [] 0) as [Hflat Hcount].
  destruct (groupBySource lock (skillNamesOf lock) [] 0) as [groups count] eqn:Hg.
  simpl in Hflat, Hcount. subst count. fold (skippedTotal lock).
  exists (flat groups). split.
  - intros y. rewrite Hflat. unfold checkable. split.
    + intros [H | (n & e & _ & H)]; [now apply elem_of_nil in H|]. now exists n, e.
    + intros (n & e & Hn & H). right. exists n, e. split; [|auto].
      apply elem_of_skillNamesOf. now exists e.
  - destruct (length (skillNamesOf lock) =? 0); [reflexivity|].
    destruct (_ - _ =? 0); [reflexivity|].
    now rewrite checkAll_flat.
Qed.

(** With one entry that passes the guard the two lists are produced. *)
Lemma runCheck_checked disk n e :
  let lock := readSkillLockTyped disk in
  skills lock !! n = Some e -> skipped e = false ->
  exists visited,
    (forall y, y ∈ visited <-> checkable lock y)
    /\ runCheck httpGetTree token disk
       = Checked (length (skillNamesOf lock) - skippedTotal lock) (skippedTotal lock)
           (omap (updateFor httpGetTree token) visited)
           (omap (errorFor httpGetTree token) visited).
Proof.
  intros lock Hn Hs. destruct (runCheck_shape disk) as (visited & Hv & Hr).
  fold lock in Hv, Hr. exists visited. split; [exact Hv|]. rewrite Hr.
  assert (Hin : n ∈ skillNamesOf lock) by (apply elem_of_skillNamesOf; eauto).
  assert (Hlt : skippedTotal lock < length (skillNamesOf lock)).
  { apply (filter_shorter _ _ n Hin). unfold skippedName. now rewrite Hn. }
  destruct (length (skillNamesOf lock) =? 0) eqn:E0; [apply Nat.eqb_eq in E0; lia|].
  destruct (_ - _ =? 0) eqn:E1; [apply Nat.eqb_eq in E1; lia|]. reflexivity.
Qed.

(** Membership in the two lists, entry by entry. *)
Lemma update_reported lock (visited : list (string * (string * SkillLockEntry))) u :
  (forall y, y ∈ visited <-> checkable lock y) ->
  u ∈ omap (updateFor httpGetTree token) visited
  <-> exists e, skills lock !! updateName u = Some e /\ skipped e = false
                /\ updateSource u = source e
                /\ verdict httpGetTree token (source e) e = UpdateAvailable.
Proof.
  intros Hv. rewrite list_elem_of_omap. split.
  - intros (y & Hy & Hu). apply Hv in Hy as (n & e & Hn & Hs & ->).
    unfold updateFor in Hu. simpl in Hu.
    destruct (verdict httpGetTree token (source e) e) eqn:V; try discriminate.
    injection Hu as <-. exists e. auto.
  - intros (e & Hn & Hs & Hsrc & V). exists (source e, (updateName u, e)). split.
    + apply Hv. now exists (updateName u), e.
    + unfold updateFor. simpl. rewrite V. destruct u; simpl in *. now subst.
Qed.

Lemma error_reported lock (visited : list (string * (string * SkillLockEntry))) x :
  (forall y, y ∈ visited <-> checkable lock y) ->
  x ∈ omap (errorFor httpGetTree token) visited
  <-> exists e, skills lock !! errorName x = Some e /\ skipped e = false
                /\ errorSource x = source e
                /\ errorMessage x = "Could not fetch from GitHub"
                /\ verdict httpGetTree token (source e) e = CouldNotCheck.
Proof.
  intros Hv. rewrite list_elem_of_omap. split.
  - intros (y & Hy & Hx). apply Hv in Hy as (n & e & Hn & Hs & ->).
    unfold errorFor in Hx. simpl in Hx.
    destruct (verdict httpGetTree token (source e) e) eqn:V; try discriminate.
    injection Hx as <-. exists e. auto.
  - intros (e & Hn & Hs & Hsrc & Hmsg & V). exists (source e, (errorName x, e)). split.
    + apply Hv. now exists (errorName x), e.
    + unfold errorFor. simpl. rewrite V. destruct x; simpl in *. now subst.
Qed.

Lemma skipped_false e :
  skipped e = false
  <-> sourceType e = "github" /\ truthy (skillFolderHash e) = true
      /\ truthyOpt (skillPath e) = true.
Proof.
  unfold skipped. rewrite !orb_false_iff, !negb_false_iff, String.eqb_eq. tauto.
Qed.

Lemma verdict_up_to_date src e :
  skipped e = false ->
  latestHashOf httpGetTree token src e = Some (skillFolderHash e) ->
  verdict httpGetTree token src e = UpToDate.
Proof.
  intros Hs Hl. apply skipped_false in Hs as (_ & Hh & _).
  unfold verdict. rewrite Hl. simpl. rewrite Hh. simpl.
  now rewrite bool_decide_eq_true_2.
Qed.

Lemma verdict_update src e h :
  latestHashOf httpGetTree token src e = Some h -> h <> "" -> h <> skillFolderHash e ->
  verdict httpGetTree token src e = UpdateAvailable.
Proof.
  intros Hl Hne Hd. unfold verdict. rewrite Hl. simpl.
  destruct (truthy h) eqn:Ht; [|apply truthy_false in Ht; contradiction]. simpl.
  rewrite bool_decide_eq_false_2; [reflexivity | congruence].
Qed.

Lemma verdict_unchecked src e :
  latestHashOf httpGetTree token src e = None
  \/ latestHashOf httpGetTree token src e = Some "" ->
  verdict httpGetTree token src e = CouldNotCheck.
Proof. unfold verdict. now intros [-> | ->]. Qed.

(** C1, as the code has it.  For a lock entry that passes the guard,
    [runCheck] produces its two lists and files the entry by the fetched
    fingerprint: equal to the stored hash, the skill is in neither list;
    non-empty and different, it is in the list of updates and not among the
    errors; null or the empty string, it is among the skills that could not
    be checked and not in the list of updates. *)
Theorem runCheck_three_outcomes (disk : Disk) (n : string) (e : SkillLockEntry) :
  skills (readSkillLockTyped disk) !! n = Some e ->
  skipped e = false ->
  exists total skippedCount updates errors,
    runCheck httpGetTree token disk = Checked total skippedCount updates errors
    /\ (latestHashOf httpGetTree token (source e) e = Some (skillFolderHash e) ->
          (forall u, u ∈ updates -> updateName u <> n)
          /\ (forall x, x ∈ errors -> errorName x <> n))
    /\ (forall h, latestHashOf httpGetTree token (source e) e = Some h ->
          h <> "" -> h <> skillFolderHash e ->
          {| updateName := n; updateSource := source e |} ∈ updates
          /\ (forall x, x ∈ errors -> errorName x <> n))
    /\ (latestHashOf httpGetTree token (source e) e = None
        \/ latestHashOf httpGetTree token (source e) e = Some "" ->
          {| errorName := n; errorSource := source e;
             errorMessage := "Could not fetch from GitHub" |} ∈ errors
          /\ (forall u, u ∈ updates -> updateName u <> n)).
Proof.
  intros Hn Hs.
  destruct (runCheck_checked disk n e Hn Hs) as (visited & Hv & Hr).
  do 4 eexists. split; [exact Hr|].
  assert (NoUpd : verdict httpGetTree token (source e) e <> UpdateAvailable ->
                  forall u, u ∈ omap (updateFor httpGetTree token) visited ->
                            updateName u <> n).
  { intros V u Hu Hname.
    apply (update_reported _ _ _ Hv) in Hu as (e' & Hn' & _ & _ & V').
    rewrite Hname, Hn in Hn'. injection Hn' as <-. contradiction. }
  assert (NoErr : verdict httpGetTree token (source e) e <> CouldNotCheck ->
                  forall x, x ∈ omap (errorFor httpGetTree token) visited ->
                            errorName x <> n).
  { intros V x Hx Hname.
    apply (error_reported _ _ _ Hv) in Hx as (e' & Hn' & _ & _ & _ & V').
    rewrite Hname, Hn in Hn'. injection Hn' as <-. contradiction. }
  split; [|split].
  - intros Hl. pose proof (verdict_up_to_date _ _ Hs Hl) as V.
    split; [apply NoUpd | apply NoErr]; rewrite V; discriminate.
  - intros h Hl Hne Hd. pose proof (verdict_update _ _ _ Hl Hne Hd) as V. split.
    + apply (update_reported _ _ _ Hv). exists e. auto.
    + apply NoErr. rewrite V. discriminate.
  - intros Hl. pose proof (verdict_unchecked _ _ Hl) as V. split.
    + apply (error_reported _ _ _ Hv). exists e. auto.
    + apply NoUpd. rewrite V. discriminate.
Qed.

(** Which entries the guard lets through. *)
Lemma skipped_false_iff e :
  skipped e = false
  <-> sourceType e = "github" /\ skillFolderHash e <> ""
      /\ exists p, skillPath e = Some p /\ p <> "".
Proof.
  rewrite skipped_false. split.
  - intros (Ht & Hh & Hp). split; [exact Ht|]. split.
    + intros E. rewrite E in Hh. discriminate.
    + destruct (skillPath e) as [p|]; [|discriminate]. exists p. split; [reflexivity|].
      intros ->. discriminate.
  - intros (Ht & Hh & p & Hp & Hne). split; [exact Ht|]. split.
    + destruct (truthy _) eqn:E; [reflexivity|]. now apply truthy_false in E.
    + rewrite Hp. simpl. destruct (truthy p) eqn:E; [reflexivity|].
      now apply truthy_false in E.
Qed.

Lemma filter_all {A} (f : A -> bool) (l : list A) :
  (forall x, x ∈ l -> f x = true) -> List.filter f l = l.
Proof.
  induction l as [|y l IH]; intros H; [reflexivity|]. simpl.
  rewrite (H y) by apply list_elem_of_here.
  f_equal. apply IH. intros x Hx. apply H. now apply list_elem_of_further.
Qed.

Variable spawnStatus : list (list string) -> list string -> option Z.

(** What the first loop of [runUpdate] collects. *)
Lemma collectUpdates_spec lock skillNames updates count u :
  u ∈ (collectUpdates httpGetTree token lock skillNames updates count).1 ->
  u ∈ updates
  \/ exists e, skills lock !! pendingName u = Some e /\ skipped e = false
               /\ pendingEntry u = e /\ pendingSource u = source e
               /\ verdict httpGetTree token (source e) e = UpdateAvailable.
Proof.
  revert updates count. induction skillNames as [|n rest IH]; intros updates count; simpl.
  - now left.
  - destruct (skills lock !! n) as [e|] eqn:Hn; [|apply IH].
    destruct (skipped e) eqn:Hs; [apply IH|].
    destruct (truthyOpt _ && negb (bool_decide _)) eqn:Hup; [|apply IH].
    intros Hu. apply IH in Hu as [Hu | Hu]; [|now right].
    apply elem_of_app in Hu as [Hu | Hu]; [now left|].
    apply list_elem_of_singleton in Hu as ->. right. exists e. simpl.
    repeat split; auto. apply andb_true_iff in Hup as [H1 H2].
    unfold verdict, latestHashOf. now rewrite H1, H2.
Qed.

(** The second loop runs one command per pending update, in order. *)
Lemma applyUpdates_commands updates ran successCount failCount :
  map spawnedCommand (applyUpdates spawnStatus updates ran successCount failCount).1.1
  = map spawnedCommand ran ++ map commandOf updates.
Proof.
  revert ran successCount failCount.
  induction updates as [|u rest IH]; intros ran successCount failCount; simpl.
  - now rewrite app_nil_r.
  - destruct (bool_decide _); rewrite IH, map_app, <- app_assoc; reflexivity.
Qed.

(** Every command of [runUpdate] reinstalls a tracked entry that passed
    the guard and whose fingerprint changed, from the URL [installUrlOf]
    builds for it. *)
Lemma runUpdate_commands disk s :
  s ∈ spawnedOf (runUpdate httpGetTree token spawnStatus disk) ->
  exists e, skills (readSkillLockTyped disk) !! spawnedFor s = Some e
            /\ skipped e = false
            /\ verdict httpGetTree token (source e) e = UpdateAvailable
            /\ spawnedArgs s = spawnArgs (installUrlOf e).
Proof.
  unfold runUpdate. set (lock := readSkillLockTyped disk).
  destruct (length (skillNamesOf lock) =? 0); [intros H; now apply elem_of_nil in H|].
  destruct (collectUpdates _ _ lock _ [] 0) as [updates checked] eqn:Hc.
  destruct (checked =? 0); [intros H; now apply elem_of_nil in H|].
  destruct (length updates =? 0); [intros H; now apply elem_of_nil in H|].
  pose proof (applyUpdates_commands updates [] 0 0) as Hcmd.
  destruct (applyUpdates spawnStatus updates [] 0 0) as [[ran sc] fc]. simpl in Hcmd |- *.
  intros Hs. apply (list_elem_of_fmap_2 spawnedCommand) in Hs.
  change (spawnedCommand <$> ran) with (map spawnedCommand ran) in Hs.
  rewrite Hcmd in Hs. apply list_elem_of_fmap in Hs as (u & Hsu & Hu).
  pose proof (collectUpdates_spec lock (skillNamesOf lock) [] 0 u) as Hspec.
  rewrite Hc in Hspec. destruct (Hspec Hu) as [H | (e & Hn & Hsk & He & _ & V)];
    [now apply elem_of_nil in H|].
  injection Hsu as Hfor Hargs. exists e. rewrite Hfor, Hargs, He. auto.
Qed.

(** C7, as the code has it.  The guard of [runCheck] and [runUpdate] lets
    an entry through exactly when its source type is 'github', its stored
    hash is not empty and its skill path is present and not empty.  Every
    other tracked entry is counted in [skippedCount], appears neither among
    the updates nor among the errors of [runCheck], and is never reinstalled
    by [runUpdate]; when every tracked entry is like that, [runCheck] stops
    before checking anything. *)
Theorem skipped_entries_are_set_aside (disk : Disk) (n : string) (e : SkillLockEntry) :
  skills (readSkillLockTyped disk) !! n = Some e ->
  skipped e = true ->
  (forall e', skipped e' = false
      <-> sourceType e' = "github" /\ skillFolderHash e' <> ""
          /\ exists p, skillPath e' = Some p /\ p <> "")
  /\ skippedCountOf (runCheck httpGetTree token disk)
     = Some (skippedTotal (readSkillLockTyped disk))
  /\ n ∈ List.filter (skippedName (readSkillLockTyped disk))
           (skillNamesOf (readSkillLockTyped disk))
  /\ (forall u, u ∈ updatesOf (runCheck httpGetTree token disk) -> updateName u <> n)
  /\ (forall x, x ∈ errorsOf (runCheck httpGetTree token disk) -> errorName x <> n)
  /\ (forall s, s ∈ spawnedOf (runUpdate httpGetTree token spawnStatus disk) ->
        spawnedFor s <> n)
  /\ ((forall n' e',
         skills (readSkillLockTyped disk) !! n' = Some e' -> skipped e' = true) ->
        runCheck httpGetTree token disk
        = NoGitHubSkills (skippedTotal (readSkillLockTyped disk))).
Proof.
  intros Hn Hs. set (lock := readSkillLockTyped disk) in *.
  assert (Hin : n ∈ skillNamesOf lock) by (apply elem_of_skillNamesOf; eauto).
  assert (Hlen : (length (skillNamesOf lock) =? 0) = false).
  { apply Nat.eqb_neq. destruct (skillNamesOf lock); [now apply elem_of_nil in Hin|].
    simpl. lia. }
  destruct (runCheck_shape disk) as (visited & Hv & Hr). fold lock in Hv, Hr.
  rewrite Hlen in Hr.
  split; [exact skipped_false_iff|]. split; [|split; [|split; [|split; [|split]]]].
  - rewrite Hr. now destruct (_ - _ =? 0).
  - apply list_elem_of_In, List.filter_In. split; [now apply list_elem_of_In|].
    unfold skippedName. now rewrite Hn.
  - rewrite Hr. destruct (_ - _ =? 0); simpl; [intros u H; now apply elem_of_nil in H|].
    intros u Hu Hname.
    apply (update_reported _ _ _ Hv) in Hu as (e' & Hn' & Hs' & _).
    rewrite Hname in Hn'. congruence.
  - rewrite Hr. destruct (_ - _ =? 0); simpl; [intros x H; now apply elem_of_nil in H|].
    intros x Hx Hname.
    apply (error_reported _ _ _ Hv) in Hx as (e' & Hn' & Hs' & _).
    rewrite Hname in Hn'. congruence.
  - intros s Hsp Hname. apply runUpdate_commands in Hsp as (e' & Hn' & Hs' & _).
    fold lock in Hn'. rewrite Hname in Hn'. congruence.
  - intros Hall. rewrite Hr.
    assert (E : skippedTotal lock = length (skillNamesOf lock)).
    { unfold skippedTotal. rewrite filter_all; [reflexivity|].
      intros m Hm. apply elem_of_skillNamesOf in Hm as [e' He'].
      unfold skippedName. rewrite He'. eauto. }
    rewrite E, Nat.sub_diag. reflexivity.
Qed.

End UpdateCheck.

(** C1 as stated fails: the fetch does not return null, the fetched
    fingerprint (the empty string) differs from the stored hash "abc", and
    yet no update is reported; the skill is filed as not checked. *)
Lemma runCheck_empty_fingerprint_is_unchecked :
  SkillLock.fetchSkillFolderHash emptyShaRemote "o/r" "skills/a/SKILL.md" None = Some ""
  /\ SkillLock.skillFolderHash firstInstall = "abc"
  /\ Cli.skipped firstInstall = false
  /\ Cli.runCheck emptyShaRemote None diskWithA
     = Cli.Checked 1 0 []
         [ {| Cli.errorName := "a"; Cli.errorSource := "o/r";
              Cli.errorMessage := "Could not fetch from GitHub" |} ].
Proof. vm_compute. repeat split; reflexivity. Qed.

Lemma runCheck_three_outcomes_witness :
  exists total skippedCount updates errors,
    Cli.runCheck twoBranches None diskWithA = Cli.Checked total skippedCount updates errors
    /\ {| Cli.updateName := "a"; Cli.updateSource := "o/r" |} ∈ updates
    /\ (forall x, x ∈ errors -> Cli.errorName x <> "a").
Proof.
  destruct (runCheck_three_outcomes twoBranches None diskWithA "a" firstInstall)
    as (total & k & updates & errors & Hr & _ & Hupd & _);
    [reflexivity | reflexivity |].
  exists total, k, updates, errors. split; [exact Hr|].
  apply (Hupd "h2"); [reflexivity | discriminate | discriminate].
Defined.

(** C7 as stated fails: an entry with a non-empty hash and a non-empty skill
    path is skipped when its source type is not 'github'. *)
Lemma gitlab_entry_is_skipped :
  SkillLock.skillFolderHash gitlabEntry <> ""
  /\ (exists p, SkillLock.skillPath gitlabEntry = Some p /\ p <> "")
  /\ Cli.skipped gitlabEntry = true
  /\ Cli.runCheck twoBranches None diskWithGitlab = Cli.NoGitHubSkills 1.
Proof.
  split; [discriminate|]. split; [eexists; split; [reflexivity | discriminate]|].
  vm_compute. split; reflexivity.
Qed.

Lemma skipped_entries_are_set_aside_witness :
  skippedCountOf (Cli.runCheck twoBranches None diskWithGitlab) = Some 1
  /\ (forall u, u ∈ updatesOf (Cli.runCheck twoBranches None diskWithGitlab) ->
        Cli.updateName u <> "a")
  /\ (forall s, s ∈ spawnedOf (Cli.runUpdate twoBranches None alwaysOk diskWithGitlab) ->
        Cli.spawnedFor s <> "a").
Proof.
  destruct (skipped_entries_are_set_aside twoBranches None alwaysOk diskWithGitlab
              "a" gitlabEntry)
    as (_ & Hcount & _ & Hupd & _ & Hspawn & _); [reflexivity | reflexivity |].
  split; [exact Hcount|]. split; [exact Hupd | exact Hspawn].
Defined.

(** ** The URL [runUpdate] reinstalls from *)
Section InstallUrl.

Import JsString SkillLock Cli.

Lemma slice_withoutTrailing suf s :
  withoutTrailing suf s
    (if endsWith s suf then sliceEnd s (length (chars suf)) else s).
Proof.
  unfold withoutTrailing. destruct (endsWith s suf) eqn:E; [left | now right].
  apply endsWith_spec in E as [p ->]. now rewrite sliceEnd_app.
Qed.

Lemma installUrlOf_with_path e p :
  skillPath e = Some p -> p <> "" ->
  exists base folder,
    urlBase (sourceUrl e) base /\ folderOf p folder
    /\ installUrlOf e = base +:+ "/tree/main/" +:+ folder.
Proof.
  intros Hp Hne. unfold installUrlOf. rewrite Hp. simpl.
  destruct (truthy p) eqn:Ht; [|apply truthy_false in Ht; contradiction].
  eexists _, _. split; [|split; [|reflexivity]].
  - exists (stripDotGit (sourceUrl e)). split.
    + apply (slice_withoutTrailing ".git").
    + apply (slice_withoutTrailing "/").
  - destruct (endsWith p "/SKILL.md") eqn:E1.
    + exists (sliceEnd p 9). split; [|apply (slice_withoutTrailing "/")].
      left. apply endsWith_spec in E1 as [q ->].
      now rewrite (sliceEnd_app q "/SKILL.md" : sliceEnd (q +:+ "/SKILL.md") 9 = q).
    + exists (if endsWith p "SKILL.md" then sliceEnd p 8 else p). split.
      * right. split; [exact E1|]. apply (slice_withoutTrailing "SKILL.md").
      * apply (slice_withoutTrailing "/").
Qed.

Lemma installUrlOf_without_path e :
  skillPath e = None \/ skillPath e = Some "" -> installUrlOf e = sourceUrl e.
Proof. unfold installUrlOf. now intros [-> | ->]. Qed.

(** C10, as the code has it.  For an entry with a non-empty skill path the
    reinstall URL is the stored source URL without a trailing '.git' and
    then without a trailing '/', followed by '/tree/main/' and by the skill
    path without a trailing '/SKILL.md' (or else without a trailing
    'SKILL.md') and then without one trailing '/'.  With no skill path or an
    empty one it is the stored source URL.  Every command [runUpdate] runs,
    whatever the remote answered and from whichever branch, is
    [npx -y @juanibiapina/skulls add <that URL> -y] for a tracked entry. *)
Theorem reinstall_url_uses_main :
  (forall e p, skillPath e = Some p -> p <> "" ->
     exists base folder,
       urlBase (sourceUrl e) base /\ folderOf p folder
       /\ installUrlOf e = base +:+ "/tree/main/" +:+ folder)
  /\ (forall e, skillPath e = None \/ skillPath e = Some "" ->
        installUrlOf e = sourceUrl e)
  /\ (forall httpGetTree token spawnStatus disk s,
        s ∈ spawnedOf (runUpdate httpGetTree token spawnStatus disk) ->
        exists e p base folder,
          skills (readSkillLockTyped disk) !! spawnedFor s = Some e
          /\ skillPath e = Some p /\ p <> ""
          /\ urlBase (sourceUrl e) base /\ folderOf p folder
          /\ spawnedArgs s
             = ["-y"; "@juanibiapina/skulls"; "add";
                base +:+ "/tree/main/" +:+ folder; "-y"]).
Proof.
  split; [exact installUrlOf_with_path|]. split; [exact installUrlOf_without_path|].
  intros httpGetTree token spawnStatus disk s Hs.
  apply runUpdate_commands in Hs as (e & Hn & Hsk & _ & Hargs).
  apply skipped_false_iff in Hsk as (_ & _ & p & Hp & Hne).
  destruct (installUrlOf_with_path e p Hp Hne) as (base & folder & Hb & Hf & Hurl).
  exists e, p, base, folder. repeat split; auto.
  rewrite Hargs. unfold spawnArgs. now rewrite Hurl.
Qed.

End InstallUrl.

Example runUpdate_from_master :
  SkillLock.fetchSkillFolderHash twoBranches "o/r" "skills/a/SKILL.md" None = Some "h2"
  /\ Cli.runUpdate twoBranches None alwaysOk diskWithA = Cli.Applied [updateOfA] 1 0.
Proof. vm_compute. split; reflexivity. Qed.

Lemma reinstall_url_uses_main_witness :
  exists e p base folder,
    SkillLock.skills (SkillLock.readSkillLockTyped diskWithA) !! "a" = Some e
    /\ SkillLock.skillPath e = Some p /\ p <> ""
    /\ urlBase (SkillLock.sourceUrl e) base /\ folderOf p folder
    /\ Cli.spawnedArgs updateOfA
       = ["-y"; "@juanibiapina/skulls"; "add"; base +:+ "/tree/main/" +:+ folder; "-y"].
Proof.
  destruct reinstall_url_uses_main as (_ & _ & H).
  apply (H twoBranches None alwaysOk diskWithA updateOfA).
  assert (E : spawnedOf (Cli.runUpdate twoBranches None alwaysOk diskWithA) = [updateOfA])
    by (vm_compute; reflexivity).
  rewrite E. apply list_elem_of_here.
Defined.

(** C10 as stated fails: for the skill path "a///SKILL.md" the code removes
    '/SKILL.md' and one more '/', so the URL still ends in '/'.  That is
    neither the path with 'SKILL.md' and one '/' removed nor the path with
    'SKILL.md' and its trailing slashes removed. *)
Lemma reinstall_url_keeps_a_slash :
  Cli.installUrlOf tripleSlashEntry = "https://github.com/o/r/tree/main/a/"
  /\ claimedInstallUrl (dropTrailing "/") tripleSlashEntry
     = "https://github.com/o/r/tree/main/a//"
  /\ claimedInstallUrl dropTrailingSlashes tripleSlashEntry
     = "https://github.com/o/r/tree/main/a".
Proof. vm_compute. repeat split; reflexivity. Qed.

(** ** Choosing the skills to install *)
Section Selection.

Import Add.

Context {Skill : Type}.
Variable filterSkills : list Skill -> list string -> list Skill.
Variable getSkillDisplayName : Skill -> string.
Variable multiselect : list Skill -> option (list Skill).

Lemma includes_In l x : includes l x = true <-> In x l.
Proof.
  unfold includes. rewrite existsb_exists. split.
  - intros (y & Hy & E). apply String.eqb_eq in E. now subst.
  - intros H. exists x. split; [exact H | apply String.eqb_refl].
Qed.

Lemma not_wildcard options names :
  ~ wildcard options -> skill options = Some names -> includes names "*" = false.
Proof.
  intros Hw Hs. destruct (includes names "*") eqn:E; [|reflexivity].
  exfalso. apply Hw. exists names. split; [exact Hs|]. now apply includes_In.
Qed.

(** C8. The selection step of [runAdd] decides in this order: a '*' in the
    skill filter selects every discovered skill; otherwise a non-empty
    filter selects what [filterSkills] keeps, and when that is nothing the
    command stops with status 1 after listing the names of the discovered
    skills; otherwise a single discovered skill is selected; otherwise [-y]
    selects every discovered skill; otherwise the choice is the user's,
    through the multi-select prompt. *)
Theorem selection_precedence (options : AddOptions) (skills : list Skill) :
  let selection :=
    selectSkills filterSkills getSkillDisplayName multiselect options skills in
  (wildcard options -> selection = Proceed skills)
  /\ (forall names, ~ wildcard options -> explicitFilter options names ->
        (filterSkills skills names <> [] ->
           selection = Proceed (filterSkills skills names))
        /\ (filterSkills skills names = [] ->
              selection = NoMatch names (map getSkillDisplayName skills)
              /\ exitStatus selection = Some 1))
  /\ (noFilter options -> length skills = 1 -> selection = Proceed skills)
  /\ (noFilter options -> length skills <> 1 -> yes options = true ->
        selection = Proceed skills)
  /\ (noFilter options -> length skills <> 1 -> yes options = false ->
        selection = match multiselect skills with
                    | Some chosen => Proceed chosen
                    | None => Cancelled
                    end).
Proof.
  intros selection. subst selection. unfold selectSkills.
  split; [|split; [|split; [|split]]].
  - intros (names & -> & Hin). apply includes_In in Hin. now rewrite Hin.
  - intros names Hw [Hs Hne]. rewrite Hs, (not_wildcard _ _ Hw Hs). simpl.
    destruct names as [|x names]; [contradiction|]. simpl.
    destruct (filterSkills skills (x :: names)) as [|s l] eqn:Hf.
    + split; [contradiction|]. intros _. simpl. now split.
    + split; [reflexivity | discriminate].
  - intros [-> | ->] Hlen; simpl; now rewrite Hlen.
  - intros Hn Hlen Hy.
    assert (E : (length skills =? 1) = false) by now apply Nat.eqb_neq.
    destruct Hn as [-> | ->]; simpl; now rewrite E, Hy.
  - intros Hn Hlen Hy.
    assert (E : (length skills =? 1) = false) by now apply Nat.eqb_neq.
    destruct Hn as [-> | ->]; simpl; rewrite E, Hy; now destruct (multiselect skills).
Qed.

(** [--all] puts the wildcard in the filter and turns [-y] on. *)
Lemma applyAll_wildcard options :
  all options = true -> wildcard (applyAll options) /\ yes (applyAll options) = true.
Proof.
  intros H. unfold applyAll. rewrite H. split; [|reflexivity].
  exists ["*"]. split; [reflexivity | now left].
Qed.

End Selection.

Lemma selection_precedence_witness :
  Add.selectSkills byName id (fun _ => None) (filterOnly ["*"; "x"]) ["skill-one"; "skill-two"]
    = Add.Proceed ["skill-one"; "skill-two"]
  /\ Add.selectSkills byName id (fun _ => None) (filterOnly ["skill-one"])
       ["skill-one"; "skill-two"]
     = Add.Proceed ["skill-one"]
  /\ Add.exitStatus
       (Add.selectSkills byName id (fun _ => None) (filterOnly ["other"])
          ["skill-one"; "skill-two"]) = Some 1.
Proof.
  split; [|split].
  - destruct (selection_precedence byName id (fun _ => None) (filterOnly ["*"; "x"])
                ["skill-one"; "skill-two"]) as (Hall & _).
    apply Hall. exists ["*"; "x"]. split; [reflexivity | now left].
  - destruct (selection_precedence byName id (fun _ => None) (filterOnly ["skill-one"])
                ["skill-one"; "skill-two"]) as (_ & Hfilter & _).
    apply (Hfilter ["skill-one"]).
    + intros (names & [= <-] & [H | []]). discriminate.
    + split; [reflexivity | discriminate].
    + discriminate.
  - destruct (selection_precedence byName id (fun _ => None) (filterOnly ["other"])
                ["skill-one"; "skill-two"]) as (_ & Hfilter & _).
    apply (Hfilter ["other"]).
    + intros (names & [= <-] & [H | []]). discriminate.
    + split; [reflexivity | discriminate].
    + reflexivity.
Defined.

(** ** What [copyDirectory] copies *)
Section CopyFilter.

Import JsString Installer.

Lemma isExcluded_rejected n isDir : isExcluded n isDir = true <-> rejected n isDir.
Proof.
  unfold isExcluded, rejected, has, EXCLUDE_FILES, EXCLUDE_DIRS. simpl.
  rewrite !orb_false_r.
  destruct (String.eqb n "README.md") eqn:E1;
    [apply String.eqb_eq in E1; tauto | apply String.eqb_neq in E1].
  destruct (String.eqb n "metadata.json") eqn:E2;
    [apply String.eqb_eq in E2; tauto | apply String.eqb_neq in E2]. simpl.
  destruct (startsWith n "_") eqn:E3; [tauto|].
  destruct isDir; simpl.
  - destruct (String.eqb n ".git") eqn:E4;
      [apply String.eqb_eq in E4; tauto | apply String.eqb_neq in E4].
    split; [discriminate|]. intros [H | [H | [H | [_ H]]]]; congruence.
  - split; [discriminate|]. intros [H | [H | [H | [H _]]]]; congruence.
Qed.

Lemma admitted_not_rejected n node :
  admitted (n, node) = true <-> ~ rejected n (isDirectory node).
Proof.
  unfold admitted. cbn [fst snd].
  rewrite negb_true_iff, <- isExcluded_rejected, not_true_iff_false. reflexivity.
Qed.

(** *** Paths in the source tree *)

Lemma reaches_nonempty entries p node : reaches entries p node -> p <> [].
Proof. now destruct 1. Qed.

Lemma reaches_snoc entries p sub n node :
  reaches entries p (Dir sub) -> (n, node) ∈ sub -> reaches entries (p ++ [n]) node.
Proof.
  intros H Hin. remember (Dir sub) as d eqn:Hd.
  induction H as [entries m d Hm | entries m sub' p d Hm Hr IH]; subst d; simpl.
  - apply reach_below with sub; [exact Hm | now apply reach_entry].
  - apply reach_below with sub'; [exact Hm | now apply IH].
Qed.

Lemma components_snoc p n d : components (p ++ [n]) d = components p true ++ [(n, d)].
Proof.
  induction p as [|m rest IH]; [reflexivity|].
  destruct rest as [|m' rest']; [reflexivity|].
  change ((m :: m' :: rest') ++ [n]) with (m :: m' :: (rest' ++ [n])).
  change (components (m :: m' :: rest' ++ [n]) d)
    with ((m, true) :: components ((m' :: rest') ++ [n]) d).
  now rewrite IH.
Qed.

Lemma admittedPath_single n d : admittedPath [n] d <-> ~ rejected n d.
Proof.
  unfold admittedPath. simpl. split.
  - intros H. apply H, list_elem_of_here.
  - intros H m k Hin. apply list_elem_of_singleton in Hin as [= -> ->]. exact H.
Qed.

Lemma admittedPath_cons n q rest d :
  admittedPath (n :: q :: rest) d <-> ~ rejected n true /\ admittedPath (q :: rest) d.
Proof.
  unfold admittedPath.
  change (components (n :: q :: rest) d) with ((n, true) :: components (q :: rest) d).
  split.
  - intros H. split; [apply H, list_elem_of_here|].
    intros m k Hin. apply H. now apply list_elem_of_further.
  - intros [Hn H] m k Hin. apply elem_of_cons in Hin as [[= -> ->] | Hin];
      [exact Hn | now apply H].
Qed.

Lemma admittedPath_snoc p n d :
  admittedPath p true -> ~ rejected n d -> admittedPath (p ++ [n]) d.
Proof.
  unfold admittedPath. intros Hp Hn m k. rewrite components_snoc, elem_of_app.
  intros [H | H]; [now apply Hp|]. apply list_elem_of_singleton in H as [= -> ->].
  exact Hn.
Qed.

(** *** What a directory holds *)

Lemma put_lookup (here : list string) (made : list (list string * Kind)) (h : Holds)
    (p : list string) (k : Kind) :
  put here made h !! p = Some k ->
  (exists r, p = here ++ r /\ (r, k) ∈ made) \/ h !! p = Some k.
Proof.
  unfold put. induction made as [|[r' k'] rest IH]; simpl; [now right|].
  destruct (decide (p = here ++ r')) as [->|Hne].
  - rewrite lookup_insert_eq. intros [= ->]. left. exists r'.
    split; [reflexivity | apply list_elem_of_here].
  - rewrite lookup_insert_ne by congruence. intros H.
    apply IH in H as [(r & -> & Hin) | H]; [left | now right].
    exists r. split; [reflexivity | now apply list_elem_of_further].
Qed.

Lemma insert_keeps (h : Holds) (q : list string) (k : Kind) (p : list string) :
  is_Some (h !! p) -> is_Some (<[q := k]> h !! p).
Proof.
  intros H. destruct (decide (p = q)) as [->|Hne].
  - rewrite lookup_insert_eq. now eexists.
  - now rewrite lookup_insert_ne by congruence.
Qed.

Lemma put_keeps (here : list string) (made : list (list string * Kind)) (h : Holds)
    (p : list string) :
  is_Some (h !! p) -> is_Some (put here made h !! p).
Proof.
  intros H. unfold put. induction made as [|[r' k'] rest IH]; simpl; [exact H|].
  now apply insert_keeps.
Qed.

Lemma put_holds (here : list string) (made : list (list string * Kind)) (h : Holds)
    (r : list string) (k : Kind) :
  (r, k) ∈ made -> is_Some (put here made h !! (here ++ r)).
Proof.
  unfold put. induction made as [|[r' k'] rest IH]; simpl; intros Hin.
  - now apply elem_of_nil in Hin.
  - apply elem_of_cons in Hin as [[= <- <-] | Hin].
    + rewrite lookup_insert_eq. now eexists.
    + now apply insert_keeps, IH.
Qed.

(** *** The calls of a copy *)

Variable P : PathApi.
Variable fsError : list FsOp -> FsOp -> option string.
Variable order : nat -> nat.

Local Abbreviation start := (Installer.start fsError).
Local Abbreviation visit := (Installer.visit P fsError).
Local Abbreviation settle := (Installer.settle P fsError).
Local Abbreviation run := (Installer.run P fsError order).

Lemma visit_eq src dest here st e :
  visit src dest here st e
  = start (opFor P src dest e) (callFor P src dest here e) st.
Proof.
  unfold Installer.visit, callFor, opFor. now destruct e as [n [c|sub|t]].
Qed.

Lemma visit_start src dest here st e :
  exists op, visit src dest here st e = start op (callFor P src dest here e) st.
Proof. eexists. apply visit_eq. Qed.

Lemma foldl_visit_preserves (I : Copying -> Prop) src dest here l : forall st,
  (forall e st, e ∈ l -> I st ->
     I (start (opFor P src dest e) (callFor P src dest here e) st)) ->
  I st -> I (foldl (visit src dest here) st l).
Proof.
  induction l as [|e rest IH]; intros st Hstep Hst; cbn [foldl]; [exact Hst|].
  apply IH.
  - intros e' st' He'. apply Hstep. now apply list_elem_of_further.
  - rewrite visit_eq. apply Hstep; [apply list_elem_of_here | exact Hst].
Qed.

Lemma foldl_visit src dest here l : forall st,
  thrown (foldl (visit src dest here) st l) = thrown st
  /\ holds (foldl (visit src dest here) st l) = holds st
  /\ (exists ops, started (foldl (visit src dest here) st l) = started st ++ ops)
  /\ exists os, length os = length l
       /\ waiting (foldl (visit src dest here) st l)
          = waiting st ++ zip (map (callFor P src dest here) l) os.
Proof.
  induction l as [|e rest IH]; intros st; cbn [foldl].
  - split; [reflexivity|]. split; [reflexivity|].
    split; [exists []; now rewrite app_nil_r|]. exists []. split; [reflexivity|].
    simpl. now rewrite app_nil_r.
  - destruct (visit_start src dest here st e) as [op ->].
    destruct (IH (start op (callFor P src dest here e) st))
      as (T & H & (ops & S) & os & Hlen & W).
    split; [exact T|]. split; [exact H|]. split.
    + exists (op :: ops). rewrite S. cbn [Installer.start started].
      now rewrite <- app_assoc.
    + exists (fsError (started st) op :: os). split; [simpl; now rewrite Hlen|].
      rewrite W. cbn [Installer.start waiting map zip zip_with].
      now rewrite <- app_assoc.
Qed.

(** How an operation settles, case by case. *)
Lemma settle_none i st : waiting st !! i = None -> settle i st = st.
Proof. unfold Installer.settle. now intros ->. Qed.

Lemma settle_rejected i st c msg :
  waiting st !! i = Some (c, Some msg) ->
  settle i st
  = {| started := started st; waiting := delete i (waiting st);
       thrown := Some (default msg (thrown st)); holds := holds st |}.
Proof. unfold Installer.settle. intros ->. now destruct c. Qed.

Lemma settle_mkdir i st src dest here entries :
  waiting st !! i = Some (AtMkdir src dest here entries, None) ->
  settle i st
  = start (Readdir src) (AtReaddir src dest here entries)
      (Installer.leave i (insert here IsDir) st).
Proof. unfold Installer.settle. now intros ->. Qed.

Lemma settle_readdir i st src dest here entries :
  waiting st !! i = Some (AtReaddir src dest here entries, None) ->
  settle i st
  = foldl (visit src dest here) (Installer.leave i id st)
      (List.filter admitted entries).
Proof. unfold Installer.settle. now intros ->. Qed.

Lemma settle_cp i st here found :
  waiting st !! i = Some (AtCp here found, None) ->
  settle i st = Installer.leave i (put here (created found)) st.
Proof. unfold Installer.settle. now intros ->. Qed.

(** *** The copy comes to an end *)

Lemma calls_Dir entries : calls (Dir entries) = 2 + callsIn entries.
Proof.
  cbn [calls]. f_equal. f_equal.
  induction entries as [|[n child] rest IH]; [reflexivity|].
  cbn [callsIn foldr snd]. now rewrite IH.
Qed.

Lemma load_cons x l : load (x :: l) = weight x.1 + load l.
Proof. reflexivity. Qed.

Lemma load_app l l' : load (l ++ l') = load l + load l'.
Proof.
  induction l as [|x l IH]; [reflexivity|].
  rewrite <- app_comm_cons, !load_cons, IH. lia.
Qed.

Lemma weight_pos c : 0 < weight c.
Proof. destruct c; simpl; lia. Qed.

Lemma load_nil l : load l = 0 -> l = [].
Proof.
  destruct l as [|x l]; [reflexivity|]. rewrite load_cons.
  pose proof (weight_pos x.1). lia.
Qed.

Lemma load_delete l : forall i x,
  l !! i = Some x -> load l = weight x.1 + load (delete i l).
Proof.
  induction l as [|y l IH]; intros [|i] x H; try discriminate.
  - now injection H as ->.
  - change (delete (S i) (y :: l)) with (y :: delete i l).
    rewrite !load_cons, (IH i x H). lia.
Qed.

Lemma weight_callFor src dest here e : weight (callFor P src dest here e) = calls e.2.
Proof.
  unfold callFor. destruct e as [n [c|sub|t]]; cbn [fst snd weight]; try reflexivity.
  now rewrite calls_Dir.
Qed.

Lemma load_zip src dest here l : forall os,
  length os = length l ->
  load (zip (map (callFor P src dest here) l) os) = callsIn l.
Proof.
  induction l as [|e rest IH]; intros [|o os] Hlen; try discriminate; [reflexivity|].
  cbn [map zip zip_with]. rewrite load_cons. cbn [fst callsIn foldr].
  fold (callsIn rest). rewrite weight_callFor.
  f_equal. apply IH. now injection Hlen.
Qed.

Lemma callsIn_filter f entries : callsIn (List.filter f entries) <= callsIn entries.
Proof.
  induction entries as [|e rest IH]; [reflexivity|]. cbn [List.filter].
  destruct (f e); cbn [callsIn foldr]; fold (callsIn rest);
    fold (callsIn (List.filter f rest)); lia.
Qed.

Lemma settle_load i st :
  i < length (waiting st) -> load (waiting (settle i st)) < load (waiting st).
Proof.
  intros Hi. apply lookup_lt_is_Some_2 in Hi as [[c o] L].
  rewrite (load_delete _ _ _ L). cbn [fst].
  destruct o as [msg|].
  - rewrite (settle_rejected _ _ _ _ L). cbn [waiting]. pose proof (weight_pos c). lia.
  - destruct c as [src dest here es | src dest here es | here found].
    + rewrite (settle_mkdir _ _ _ _ _ _ L).
      cbn [Installer.start Installer.leave waiting]. rewrite load_app, load_cons.
      cbn [fst weight load foldr]. lia.
    + rewrite (settle_readdir _ _ _ _ _ _ L).
      destruct (foldl_visit src dest here (List.filter admitted es)
                  (Installer.leave i id st)) as (_ & _ & _ & os & Hlen & ->).
      cbn [Installer.leave waiting]. rewrite load_app, (load_zip _ _ _ _ _ Hlen).
      pose proof (callsIn_filter admitted es). cbn [weight]. lia.
    + rewrite (settle_cp _ _ _ _ L). cbn [Installer.leave waiting weight]. lia.
Qed.

(** With [calls] settlements the copy is over: no call waits, or the
    first rejection has reached [installSkill]. *)
Lemma run_settled toTheEnd : forall fuel n st,
  load (waiting st) <= fuel ->
  waiting (run toTheEnd fuel n st) = []
  \/ (toTheEnd = false /\ is_Some (thrown (run toTheEnd fuel n st))).
Proof.
  induction fuel as [|fuel IH]; intros n st Hl; cbn [Installer.run].
  - left. apply load_nil. lia.
  - destruct (waiting st) as [|x l] eqn:W; [now left|].
    destruct (negb toTheEnd && bool_decide (is_Some (thrown st))) eqn:G.
    + right. apply andb_true_iff in G as [G1 G2]. apply negb_true_iff in G1.
      apply bool_decide_eq_true in G2. now split.
    + apply IH. rewrite <- W in *.
      assert (Hi : order n mod length (waiting st) < length (waiting st)).
      { apply Nat.mod_upper_bound. rewrite W. discriminate. }
      pose proof (settle_load _ st Hi). lia.
Qed.

Lemma run_preserves (I : Copying -> Prop) toTheEnd :
  (forall i st, I st -> I (settle i st)) ->
  forall fuel n st, I st -> I (run toTheEnd fuel n st).
Proof.
  intros Hstep. induction fuel as [|fuel IH]; intros n st Hst; cbn [Installer.run];
    [exact Hst|].
  destruct (waiting st); [exact Hst|].
  destruct (negb toTheEnd && _); [exact Hst|]. now apply IH, Hstep.
Qed.

Lemma foldl_visit_sameCalls src dest here l : forall st st',
  sameCalls st st' ->
  sameCalls (foldl (visit src dest here) st l) (foldl (visit src dest here) st' l).
Proof.
  induction l as [|e rest IH]; intros st st' H; cbn [foldl]; [exact H|].
  apply IH. destruct H as (S & W & T).
  unfold Installer.visit. destruct e as [n [c|sub|t]]; cbn [fst snd];
    unfold Installer.start, sameCalls; cbn; rewrite S, W, T; auto.
Qed.

Lemma settle_sameCalls i st st' :
  sameCalls st st' -> sameCalls (settle i st) (settle i st').
Proof.
  intros H. pose proof H as (S & W & T).
  destruct (waiting st !! i) as [[c [msg|]]|] eqn:L.
  - rewrite (settle_rejected _ st _ _ L). rewrite W in L.
    rewrite (settle_rejected _ st' _ _ L). unfold sameCalls. cbn. now rewrite S, W, T.
  - destruct c as [src dest here es | src dest here es | here found].
    + rewrite (settle_mkdir _ st _ _ _ _ L). rewrite W in L.
      rewrite (settle_mkdir _ st' _ _ _ _ L).
      unfold sameCalls, Installer.start, Installer.leave. cbn. now rewrite S, W, T.
    + rewrite (settle_readdir _ st _ _ _ _ L). rewrite W in L.
      rewrite (settle_readdir _ st' _ _ _ _ L).
      apply foldl_visit_sameCalls. unfold sameCalls, Installer.leave. cbn.
      now rewrite S, W, T.
    + rewrite (settle_cp _ st _ _ L). rewrite W in L.
      rewrite (settle_cp _ st' _ _ L).
      unfold sameCalls, Installer.leave. cbn. now rewrite S, W, T.
  - rewrite (settle_none _ st L). rewrite W in L. now rewrite (settle_none _ st' L).
Qed.

Lemma run_sameCalls toTheEnd : forall fuel n st st',
  sameCalls st st' -> sameCalls (run toTheEnd fuel n st) (run toTheEnd fuel n st').
Proof.
  induction fuel as [|fuel IH]; intros n st st' H; cbn [Installer.run]; [exact H|].
  pose proof H as (S & W & T). rewrite <- W, <- T.
  destruct (waiting st); [exact H|].
  destruct (negb toTheEnd && _); [exact H|].
  apply IH. rewrite W. now apply settle_sameCalls.
Qed.

Lemma copyingFrom_sameCalls (toTheEnd : bool) (src dest : string)
    (entries : list (string * Node)) (done : list FsOp) (h h' : Holds) :
  sameCalls (copyingFrom P fsError order toTheEnd src dest entries done h)
            (copyingFrom P fsError order toTheEnd src dest entries done h').
Proof. unfold copyingFrom. apply run_sameCalls. now unfold sameCalls. Qed.

Lemma copying_settled (src dest : string) (entries : list (string * Node))
    (done : list FsOp) (before : Holds) :
  let st := copying P fsError order src dest entries done before in
  is_Some (thrown st) \/ waiting st = [].
Proof.
  cbv zeta. unfold copying, copyingFrom.
  destruct (run_settled false (calls (Dir entries)) 0
              (beginning fsError src dest entries done before)) as [H | [_ H]];
    [|now right|now left].
  unfold beginning. cbn [Installer.start waiting load foldr app weight fst].
  rewrite calls_Dir. lia.
Qed.

(** *** Nothing but the source gets in *)

Section Invariants.

Variable source : list (string * Node).
Variable before : Holds.

Lemma callFor_legit src dest here entries e :
  (here = [] /\ entries = source)
  \/ (reaches source here (Dir entries) /\ admittedPath here true) ->
  e ∈ entries -> admitted e = true -> legit source (callFor P src dest here e).
Proof.
  intros Hdir Hin Hadm. destruct e as [n child].
  apply admitted_not_rejected in Hadm.
  assert (R : reaches source (here ++ [n]) child
              /\ admittedPath (here ++ [n]) (isDirectory child)).
  { destruct Hdir as [[-> ->] | [Hr Ha]].
    - split; [now apply reach_entry | now apply admittedPath_single].
    - split; [now apply reaches_snoc with entries | now apply admittedPath_snoc]. }
  destruct R as [R A]. unfold callFor. cbn [fst snd].
  destruct child as [c|sub|t]; cbn [legit]; [now repeat split | now right
                                            | now repeat split].
Qed.

Lemma elem_of_delete {A} (l : list A) : forall i x, x ∈ delete i l -> x ∈ l.
Proof.
  induction l as [|y l IH]; intros [|i] x H.
  - exact H.
  - exact H.
  - change (delete 0 (y :: l)) with l in H. now apply list_elem_of_further.
  - change (delete (S i) (y :: l)) with (y :: delete i l) in H.
    apply elem_of_cons in H as [-> | H]; [apply list_elem_of_here|].
    apply list_elem_of_further. now apply (IH i).
Qed.

Lemma elem_of_zip_l {A B} (l : list A) : forall (k : list B) x y,
  (x, y) ∈ zip l k -> x ∈ l.
Proof.
  induction l as [|a l IH]; intros [|b k] x y H; cbn [zip zip_with] in H;
    try (now apply elem_of_nil in H).
  apply elem_of_cons in H as [[= -> ->] | H]; [apply list_elem_of_here|].
  apply list_elem_of_further. now apply (IH k x y).
Qed.

Lemma settle_sound i st : sound source before st -> sound source before (settle i st).
Proof.
  intros [Hcalls Hholds].
  destruct (waiting st !! i) as [[c o]|] eqn:L;
    [|rewrite (settle_none _ _ L); now split].
  assert (Hc : legit source c).
  { apply (Hcalls c o). now apply list_elem_of_lookup_2 with i. }
  assert (Hrest : forall c' o', (c', o') ∈ delete i (waiting st) -> legit source c').
  { intros c' o' H. apply (Hcalls c' o'). now apply elem_of_delete with i. }
  destruct o as [msg|];
    [rewrite (settle_rejected _ _ _ _ L); split; [exact Hrest | exact Hholds]|].
  destruct c as [src dest here es | src dest here es | here found].
  - rewrite (settle_mkdir _ _ _ _ _ _ L). split.
    + intros c' o'. cbn [Installer.start Installer.leave waiting].
      rewrite elem_of_app. intros [H | H]; [now apply (Hrest c' o')|].
      apply list_elem_of_singleton in H as [= -> _]. exact Hc.
    + intros p k. cbn [Installer.start Installer.leave holds].
      destruct (decide (p = here)) as [->|Hne].
      * rewrite lookup_insert_eq. intros [= <-]. right.
        destruct Hc as [[-> _] | [Hr Ha]]; [now left|]. right.
        exists here, (Dir es). split; [exact Hr|]. split; [exact Ha|]. now split.
      * rewrite lookup_insert_ne by congruence. apply Hholds.
  - rewrite (settle_readdir _ _ _ _ _ _ L).
    destruct (foldl_visit src dest here (List.filter admitted es)
                (Installer.leave i id st)) as (_ & Hh & _ & os & Hlen & W).
    split.
    + intros c' o'. rewrite W. cbn [Installer.leave waiting]. rewrite elem_of_app.
      intros [H | H]; [now apply (Hrest c' o')|].
      apply elem_of_zip_l in H. apply list_elem_of_fmap in H as (e & -> & He).
      apply list_elem_of_In, List.filter_In in He as [He Ha].
      apply list_elem_of_In in He. now apply callFor_legit with es.
    + intros p k. rewrite Hh. apply Hholds.
  - rewrite (settle_cp _ _ _ _ L).
    split; [exact Hrest|]. intros p k. cbn [Installer.leave holds]. intros H.
    apply put_lookup in H as [(r & -> & Hin) | H]; [|now apply Hholds].
    right. right. destruct Hc as (Hr & Hd & Ha).
    exists here, found. rewrite Hd. split; [exact Hr|]. split; [exact Ha|].
    exists r. split; [reflexivity | exact Hin].
Qed.

(** *** Everything the filter admits gets in *)

Lemma below_entry src dest here entries p k :
  below here entries p k ->
  exists e, e ∈ entries /\ admitted e = true /\ owes (callFor P src dest here e) p.
Proof.
  intros (q & node & Hr & Ha & Hshape).
  inversion Hr as [? n ? Hin | ? n sub q' ? Hin Hr']; subst.
  - exists (n, node). split; [exact Hin|].
    split; [now apply admitted_not_rejected, admittedPath_single|].
    unfold callFor. cbn [fst snd]. destruct node as [c|sub|t]; cbn [isDirectory] in Hshape.
    + destruct Hshape as (r & -> & Hin'). exists r, k. now rewrite <- app_assoc.
    + destruct Hshape as [-> _]. now left.
    + destruct Hshape as (r & -> & Hin'). exists r, k. now rewrite <- app_assoc.
  - destruct q' as [|m rest]; [now apply reaches_nonempty in Hr'|].
    apply admittedPath_cons in Ha as [Hn Ha].
    exists (n, Dir sub). split; [exact Hin|].
    split; [now apply admitted_not_rejected|].
    unfold callFor. cbn [fst snd owes]. right. exists k, (m :: rest), node.
    split; [exact Hr'|]. split; [exact Ha|].
    destruct (isDirectory node).
    + destruct Hshape as [-> ->]. split; [|reflexivity].
      now rewrite <- app_assoc.
    + destruct Hshape as (r & -> & Hin'). exists r. split; [|exact Hin'].
      now rewrite <- !app_assoc.
Qed.

Lemma elem_of_delete_or {A} (l : list A) : forall i x y,
  l !! i = Some y -> x ∈ l -> x = y \/ x ∈ delete i l.
Proof.
  induction l as [|z l IH]; intros [|i] x y L H; try discriminate.
  - injection L as ->. apply elem_of_cons in H as [-> | H]; [now left | now right].
  - change (delete (S i) (z :: l)) with (z :: delete i l).
    apply elem_of_cons in H as [-> | H].
    + right. apply list_elem_of_here.
    + destruct (IH i x y L H) as [-> | H']; [now left|].
      right. now apply list_elem_of_further.
Qed.

Lemma elem_of_zip_map {A B C} (f : A -> B) (l : list A) : forall (k : list C) x,
  length k = length l -> x ∈ l -> exists y, (f x, y) ∈ zip (map f l) k.
Proof.
  induction l as [|a l IH]; intros [|b k] x Hlen H; try discriminate;
    [now apply elem_of_nil in H|].
  cbn [map zip zip_with]. apply elem_of_cons in H as [-> | H].
  - exists b. apply list_elem_of_here.
  - destruct (IH k x) as [y Hy]; [now injection Hlen | exact H|].
    exists y. now apply list_elem_of_further.
Qed.

Lemma settle_complete i st : complete source st -> complete source (settle i st).
Proof.
  intros C.
  destruct (waiting st !! i) as [[c o]|] eqn:L; [|now rewrite (settle_none _ _ L)].
  destruct o as [msg|];
    [rewrite (settle_rejected _ _ _ _ L); left; cbn; now eexists|].
  destruct C as [T | C].
  { left. destruct c as [src dest here es | src dest here es | here found].
    - rewrite (settle_mkdir _ _ _ _ _ _ L). exact T.
    - rewrite (settle_readdir _ _ _ _ _ _ L).
      destruct (foldl_visit src dest here (List.filter admitted es)
                  (Installer.leave i id st)) as (-> & _). exact T.
    - rewrite (settle_cp _ _ _ _ L). exact T. }
  right. intros p Hp.
  assert (Hcases : is_Some (holds st !! p)
                   \/ owes c p
                   \/ exists c' o', (c', o') ∈ delete i (waiting st) /\ owes c' p).
  { destruct (C p Hp) as [H | (c' & o' & Hin & Ho)]; [now left|]. right.
    destruct (elem_of_delete_or _ _ _ _ L Hin) as [[= -> ->] | H]; [now left|].
    right. now exists c', o'. }
  destruct c as [src dest here es | src dest here es | here found].
  - rewrite (settle_mkdir _ _ _ _ _ _ L).
    cbn [Installer.start Installer.leave holds waiting].
    destruct Hcases as [H | [[-> | H] | (c' & o' & Hin & Ho)]].
    + left. now apply insert_keeps.
    + left. rewrite lookup_insert_eq. now eexists.
    + right. eexists (AtReaddir src dest here es), _. split; [|exact H].
      apply elem_of_app. right. apply list_elem_of_here.
    + right. exists c', o'. split; [|exact Ho]. apply elem_of_app. now left.
  - rewrite (settle_readdir _ _ _ _ _ _ L).
    destruct (foldl_visit src dest here (List.filter admitted es)
                (Installer.leave i id st)) as (_ & -> & _ & os & Hlen & ->).
    cbn [Installer.leave holds waiting id].
    destruct Hcases as [H | [[k H] | (c' & o' & Hin & Ho)]].
    + now left.
    + right. apply (below_entry src dest) in H as (e & He & Ha & Ho).
      assert (Hf : e ∈ List.filter admitted es).
      { apply list_elem_of_In, List.filter_In. split; [|exact Ha].
        now apply list_elem_of_In. }
      destruct (elem_of_zip_map (callFor P src dest here) _ os e Hlen Hf) as [o' Hin].
      exists (callFor P src dest here e), o'. split; [|exact Ho].
      apply elem_of_app. now right.
    + right. exists c', o'. split; [|exact Ho]. apply elem_of_app. now left.
  - rewrite (settle_cp _ _ _ _ L). cbn [Installer.leave holds waiting].
    destruct Hcases as [H | [(r & k & -> & H) | (c' & o' & Hin & Ho)]].
    + left. now apply put_keeps.
    + left. now apply put_holds with k.
    + right. now exists c', o'.
Qed.

Lemma beginning_sound src dest done : sound source before (beginning fsError src dest source done before).
Proof.
  split.
  - intros c o H. cbn in H. apply list_elem_of_singleton in H as [= -> _]. now left.
  - intros p k H. now left.
Qed.

Lemma beginning_complete src dest done :
  complete source (beginning fsError src dest source done before).
Proof.
  right. intros p Hp. right. eexists _, _. split; [apply list_elem_of_here|].
  cbn [owes]. destruct Hp as [-> | H]; [now left | now right].
Qed.

(** What the directory holds when the copy has come to its end without a
    rejection. *)
Lemma copying_holds src dest done :
  let st := copying P fsError order src dest source done before in
  thrown st = None ->
  (forall p k, fromSource source p k -> is_Some (holds st !! p))
  /\ is_Some (holds st !! [])
  /\ (forall p k, holds st !! p = Some k ->
        before !! p = Some k \/ (p = [] /\ k = IsDir) \/ fromSource source p k).
Proof.
  cbv zeta. intros T.
  pose proof (copying_settled src dest source done before) as Hend.
  assert (S : sound source before (copying P fsError order src dest source done before)).
  { unfold copying, copyingFrom.
    apply (run_preserves (sound source before) false settle_sound), beginning_sound. }
  assert (C : complete source (copying P fsError order src dest source done before)).
  { unfold copying, copyingFrom.
    apply (run_preserves (complete source) false settle_complete), beginning_complete. }
  cbv zeta in Hend. rewrite T in Hend.
  destruct Hend as [[? [=]] | W]. destruct C as [[? C] | C]; [congruence|].
  assert (Hall : forall p, p = [] \/ (exists k, fromSource source p k) ->
                   is_Some (holds (copying P fsError order src dest source done before)
                            !! p)).
  { intros p Hp. destruct (C p Hp) as [H | (c & o & Hin & _)]; [exact H|].
    rewrite W in Hin. now apply elem_of_nil in Hin. }
  split; [intros p k H; apply Hall; right; now exists k|].
  split; [apply Hall; now left | apply S].
Qed.

End Invariants.

(** *** Rejections *)

Section Rejections.

(** The operations issued before the copy began. *)
Variable done : list FsOp.

Lemma threwAfter_later log op msg :
  threwAfter fsError done log msg -> threwAfter fsError done (log ++ [op]) msg.
Proof.
  intros (before & op' & after & -> & Hop & Hmsg).
  exists before, op', (after ++ [op]). split; [|now split].
  now rewrite <- !app_assoc.
Qed.

Lemma start_tracked op call st :
  notRm op -> tracked fsError done st -> tracked fsError done (start op call st).
Proof.
  intros Hop ((ops & Hs) & Hw & Ht). split; [|split].
  - exists (ops ++ [op]). cbn [Installer.start started]. now rewrite Hs, app_assoc.
  - intros c msg. cbn [Installer.start waiting]. rewrite elem_of_app.
    intros [H | H].
    + apply threwAfter_later. now apply (Hw c).
    + apply list_elem_of_singleton in H as [= -> Hmsg].
      exists ops, op, []. cbn [Installer.start started]. rewrite Hs.
      split; [now rewrite <- app_assoc|]. split; [exact Hop|].
      now rewrite <- Hs.
  - intros msg H. apply threwAfter_later. now apply Ht.
Qed.

Lemma leave_tracked (i : nat) (made : Holds -> Holds) (st : Copying) :
  tracked fsError done st -> tracked fsError done (Installer.leave i made st).
Proof.
  intros (Hs & Hw & Ht). split; [exact Hs|]. split; [|exact Ht].
  intros c msg H. apply (Hw c). now apply elem_of_delete with i.
Qed.

Lemma opFor_notRm src dest e : notRm (opFor P src dest e).
Proof. unfold opFor. now destruct e as [n [c|sub|t]]. Qed.

Lemma settle_tracked i st : tracked fsError done st -> tracked fsError done (settle i st).
Proof.
  intros H. destruct (waiting st !! i) as [[c o]|] eqn:L;
    [|now rewrite (settle_none _ _ L)].
  destruct o as [msg|].
  - rewrite (settle_rejected _ _ _ _ L). destruct H as (Hs & Hw & Ht).
    split; [exact Hs|]. split.
    + intros c' msg' Hin. apply (Hw c'). now apply elem_of_delete with i.
    + intros msg'. cbn [thrown]. intros [= <-].
      destruct (thrown st) as [m0|] eqn:T; cbn [default].
      * now apply Ht.
      * apply (Hw c). now apply list_elem_of_lookup_2 with i.
  - destruct c as [src dest here es | src dest here es | here found].
    + rewrite (settle_mkdir _ _ _ _ _ _ L).
      apply start_tracked; [exact I | now apply leave_tracked].
    + rewrite (settle_readdir _ _ _ _ _ _ L).
      apply foldl_visit_preserves; [|now apply leave_tracked].
      intros e st' _. apply start_tracked, opFor_notRm.
    + rewrite (settle_cp _ _ _ _ L). now apply leave_tracked.
Qed.

Lemma copyingFrom_tracked (toTheEnd : bool) (src dest : string)
    (entries : list (string * Node)) (before : Holds) :
  tracked fsError done (copyingFrom P fsError order toTheEnd src dest entries done before).
Proof.
  unfold copyingFrom. apply (run_preserves (tracked fsError done) toTheEnd settle_tracked).
  apply start_tracked; [exact I|]. split; [|split].
  - exists []. cbn. now rewrite app_nil_r.
  - intros c msg H. now apply elem_of_nil in H.
  - discriminate.
Qed.

Lemma start_honest op call st : honest fsError done st -> honest fsError done (start op call st).
Proof.
  intros H before op' after msg E Hmsg. cbn [Installer.start started] in E.
  destruct after as [|a after _] using rev_ind.
  - rewrite app_assoc in E. apply app_inj_tail in E as [E ->].
    right. exists call. cbn [Installer.start waiting]. rewrite E, Hmsg.
    apply elem_of_app. right. apply list_elem_of_here.
  - replace (done ++ before ++ op' :: after ++ [a])
      with ((done ++ before ++ op' :: after) ++ [a]) in E
      by (rewrite <- !app_assoc; reflexivity).
    apply app_inj_tail in E as [E _].
    destruct (H _ _ _ _ E Hmsg) as [T | [c Hin]]; [now left|].
    right. exists c. cbn [Installer.start waiting]. apply elem_of_app. now left.
Qed.

Lemma leave_honest (i : nat) (made : Holds -> Holds) (st : Copying) (c : Call) :
  waiting st !! i = Some (c, None) -> honest fsError done st -> honest fsError done (Installer.leave i made st).
Proof.
  intros L H before op after msg E Hmsg.
  destruct (H _ _ _ _ E Hmsg) as [T | [c' Hin]]; [now left|].
  right. exists c'. cbn [Installer.leave waiting].
  now destruct (elem_of_delete_or _ _ _ _ L Hin) as [[=] | H'].
Qed.

Lemma settle_honest i st : honest fsError done st -> honest fsError done (settle i st).
Proof.
  intros H. destruct (waiting st !! i) as [[c o]|] eqn:L;
    [|now rewrite (settle_none _ _ L)].
  destruct o as [msg|].
  - rewrite (settle_rejected _ _ _ _ L). intros before op after msg' _ _.
    left. cbn [thrown]. eauto.
  - destruct c as [src dest here es | src dest here es | here found].
    + rewrite (settle_mkdir _ _ _ _ _ _ L).
      apply start_honest. now apply leave_honest with (AtMkdir src dest here es).
    + rewrite (settle_readdir _ _ _ _ _ _ L).
      apply foldl_visit_preserves;
        [|now apply leave_honest with (AtReaddir src dest here es)].
      intros e st' _. apply start_honest.
    + rewrite (settle_cp _ _ _ _ L). now apply leave_honest with (AtCp here found).
Qed.

Lemma copyingFrom_honest (toTheEnd : bool) (src dest : string)
    (entries : list (string * Node)) (before : Holds) :
  honest fsError done (copyingFrom P fsError order toTheEnd src dest entries done before).
Proof.
  unfold copyingFrom. apply (run_preserves (honest fsError done) toTheEnd settle_honest).
  apply start_honest. intros pre op after msg E _. cbn [started] in E.
  apply (f_equal length) in E. rewrite !length_app in E. cbn [length] in E. lia.
Qed.

End Rejections.

Lemma threwAfter_from (done pre log : list FsOp) (msg : string) :
  threwAfter fsError (done ++ pre) log msg -> threwAfter fsError done log msg.
Proof.
  intros (before & op & after & -> & Hop & Hmsg).
  exists (pre ++ before), op, after. rewrite !app_assoc in *. now repeat split.
Qed.

(** With no rejection [Promise.all] waits for every call, so nothing is left
    to go on afterwards. *)
Lemma run_to_the_end fuel : forall n st,
  thrown (run false fuel n st) = None -> run true fuel n st = run false fuel n st.
Proof.
  induction fuel as [|fuel IH]; intros n st H; cbn [Installer.run] in *;
    [reflexivity|].
  destruct (waiting st) as [|w ws] eqn:W; [reflexivity|]. cbn [negb andb] in *.
  destruct (thrown st) as [m|] eqn:T.
  - rewrite bool_decide_eq_true_2 in H by eauto. congruence.
  - rewrite bool_decide_eq_false_2 in H |- * by (intros [? [=]]).
    now apply IH.
Qed.

(** *** The operations of a copy *)

Section Operations.

Variable source : list (string * Node).
Variables src dest : string.

Local Abbreviation mine := (copyOperation P source src dest).

Lemma pathIn_snoc base q n : pathIn P base (q ++ [n]) = join P (pathIn P base q) n.
Proof. unfold pathIn. now rewrite foldl_app. Qed.

Lemma start_onSource done op call st :
  mine op -> legit source call -> placed P src dest call ->
  onSource P source src dest done st -> onSource P source src dest done (start op call st).
Proof.
  intros Hop Hl Hp ((ops & Hs & Hops) & Hw). split.
  - exists (ops ++ [op]). cbn [Installer.start started]. rewrite Hs, app_assoc.
    split; [reflexivity|]. apply Forall_app. split; [exact Hops|].
    now apply Forall_singleton.
  - intros c o. cbn [Installer.start waiting]. rewrite elem_of_app.
    intros [H | H]; [now apply (Hw c o)|].
    apply list_elem_of_singleton in H as [= -> _]. now split.
Qed.

Lemma leave_onSource (done : list FsOp) (i : nat) (made : Holds -> Holds)
    (st : Copying) :
  onSource P source src dest done st -> onSource P source src dest done (Installer.leave i made st).
Proof.
  intros [Hs Hw]. split; [exact Hs|]. intros c o H. apply (Hw c o).
  now apply elem_of_delete with i.
Qed.

Lemma entry_onSource s d here entries e :
  legit source (AtReaddir s d here entries) -> placed P src dest (AtReaddir s d here entries) ->
  e ∈ entries -> admitted e = true ->
  mine (opFor P s d e) /\ legit source (callFor P s d here e)
  /\ placed P src dest (callFor P s d here e).
Proof.
  intros Hl [-> ->] Hin Ha.
  pose proof (callFor_legit source (pathIn P src here) (pathIn P dest here)
                here entries e Hl Hin Ha) as Hc.
  destruct e as [n child]. unfold opFor, callFor in *. cbn [fst snd] in *.
  destruct child as [c|sub|t]; cbn [legit placed] in *.
  - split; [|now split]. exists (here ++ [n]). right. exists (File c).
    destruct Hc as (Hr & _ & Hadm). rewrite !pathIn_snoc. now repeat split.
  - split; [|split; [exact Hc | now rewrite !pathIn_snoc]].
    exists (here ++ [n]). left. rewrite pathIn_snoc. split; [|now left].
    destruct Hc as [[Hnil _] | Hc]; [now destruct here | right; now exists sub].
  - split; [|now split]. exists (here ++ [n]). right. exists (Link t).
    destruct Hc as (Hr & _ & Hadm). rewrite !pathIn_snoc. now repeat split.
Qed.

Lemma settle_onSource done i st : onSource P source src dest done st -> onSource P source src dest done (settle i st).
Proof.
  intros H. destruct (waiting st !! i) as [[c o]|] eqn:L;
    [|now rewrite (settle_none _ _ L)].
  assert (Hc : legit source c /\ placed P src dest c).
  { apply (proj2 H c o). now apply list_elem_of_lookup_2 with i. }
  destruct o as [msg|].
  - rewrite (settle_rejected _ _ _ _ L). destruct H as [Hs Hw].
    split; [exact Hs|]. intros c' o' Hin. apply (Hw c' o').
    now apply elem_of_delete with i.
  - destruct c as [s d here es | s d here es | here found].
    + rewrite (settle_mkdir _ _ _ _ _ _ L). destruct Hc as [Hl Hp].
      apply start_onSource; [|exact Hl|exact Hp|now apply leave_onSource].
      destruct Hp as [-> _]. exists here. left. split; [|now right].
      destruct Hl as [[-> _] | Hl]; [now left | right; now exists es].
    + rewrite (settle_readdir _ _ _ _ _ _ L). destruct Hc as [Hl Hp].
      apply foldl_visit_preserves; [|now apply leave_onSource].
      intros e st' He Hst'.
      apply list_elem_of_In, List.filter_In in He as [He Ha].
      apply list_elem_of_In in He.
      destruct (entry_onSource s d here es e Hl Hp He Ha) as (H1 & H2 & H3).
      now apply start_onSource.
    + rewrite (settle_cp _ _ _ _ L). now apply leave_onSource.
Qed.

Lemma copyingFrom_onSource (toTheEnd : bool) (done : list FsOp) (before : Holds) :
  onSource P source src dest done (copyingFrom P fsError order toTheEnd src dest source done before).
Proof.
  unfold copyingFrom.
  apply (run_preserves (onSource P source src dest done) toTheEnd (settle_onSource done)).
  apply start_onSource.
  - exists []. left. split; [now left | now left].
  - left. now split.
  - now split.
  - split.
    + exists []. cbn [started]. rewrite app_nil_r. split; [reflexivity | constructor].
    + intros c o H. now apply elem_of_nil in H.
Qed.

End Operations.

(** X30. Whatever the file system does and in whatever order the
    operations settle, and whether or not the run goes on after a
    rejection, [copyDirectory] issues only operations the filter admits:
    [mkdir] and [readdir] for the source directory and for the directories
    reached in it through directories by names that are not rejected, and
    [cp] for the entries reached that way that are no directories.  It
    never reads, creates or copies under a rejected name. *)
Theorem copyDirectory_issues_only_admitted_operations (toTheEnd : bool)
    (src dest : string) (entries : list (string * Node)) (done : list FsOp)
    (before : Holds) :
  exists ops,
    started (copyingFrom P fsError order toTheEnd src dest entries done before)
    = done ++ ops
    /\ Forall (copyOperation P entries src dest) ops.
Proof. exact (proj1 (copyingFrom_onSource entries src dest toTheEnd done before)). Qed.

(** *** [installSkill] *)

Variable toLowerCase : string -> string.
Variable readTree : string -> list (string * Node).

Local Abbreviation installSkill := (Installer.installSkill P toLowerCase fsError readTree order).
Local Abbreviation dirOf skill targetDir :=
  (installDirOf P toLowerCase targetDir (rawNameOf P skill)).

(** An install into a directory that passes the path check, step by
    step. *)
Lemma installSkill_run (skill : Skill) (targetDir : string) (done : list FsOp) :
  isPathSafe P targetDir (dirOf skill targetDir) = true ->
  installSkill skill targetDir done
  = match fsError (done ++ [Rm (dirOf skill targetDir)]) (Mkdir (dirOf skill targetDir)) with
    | Some msg =>
        (done ++ [Rm (dirOf skill targetDir); Mkdir (dirOf skill targetDir)],
         Ok (failed (dirOf skill targetDir) msg))
    | None =>
        let st := copying P fsError order (path skill) (dirOf skill targetDir)
                    (readTree (path skill))
                    (done ++ [Rm (dirOf skill targetDir); Mkdir (dirOf skill targetDir)])
                    ∅ in
        (started st,
         Ok (match thrown st with
             | Some msg => failed (dirOf skill targetDir) msg
             | None => succeeded (dirOf skill targetDir)
             end))
    end.
Proof.
  intros Hsafe. unfold Installer.installSkill. fold (rawNameOf P skill).
  fold (dirOf skill targetDir). rewrite Hsafe. cbn [negb].
  unfold tryCatch, bind, cleanAndCreateDirectory, tryCatch, bind, perform, ret,
    copyDirectory.
  replace (done ++ [Rm (dirOf skill targetDir); Mkdir (dirOf skill targetDir)])
    with ((done ++ [Rm (dirOf skill targetDir)]) ++ [Mkdir (dirOf skill targetDir)])
    by now rewrite <- app_assoc.
  destruct (fsError done (Rm (dirOf skill targetDir)));
    destruct (fsError (done ++ [Rm (dirOf skill targetDir)])
                (Mkdir (dirOf skill targetDir))); try reflexivity;
    cbv zeta; now destruct (thrown _).
Qed.

Lemma installSkill_succeeded (skill : Skill) (targetDir : string) (done : list FsOp) :
  (installSkill skill targetDir done).2 = Ok (succeeded (dirOf skill targetDir)) ->
  isPathSafe P targetDir (dirOf skill targetDir) = true
  /\ forall before : Holds,
       thrown (copying P fsError order (path skill) (dirOf skill targetDir)
                 (readTree (path skill))
                 (done ++ [Rm (dirOf skill targetDir); Mkdir (dirOf skill targetDir)])
                 before) = None.
Proof.
  destruct (isPathSafe P targetDir (dirOf skill targetDir)) eqn:Hsafe.
  - rewrite (installSkill_run _ _ _ Hsafe).
    destruct (fsError _ (Mkdir _)); [discriminate|]. cbv zeta. cbn [snd].
    intros H. split; [reflexivity|]. intros before.
    destruct (copyingFrom_sameCalls false (path skill) (dirOf skill targetDir)
                (readTree (path skill))
                (done ++ [Rm (dirOf skill targetDir); Mkdir (dirOf skill targetDir)])
                before ∅) as (_ & _ & T).
    fold (copying P fsError order) in T. rewrite T.
    destruct (thrown _); [discriminate | reflexivity].
  - unfold Installer.installSkill. fold (rawNameOf P skill).
    fold (dirOf skill targetDir). rewrite Hsafe. discriminate.
Qed.

(** C9, as the code has it.  [installSkill] has reported success, and
    its cleanup had removed what the install directory held.  Then, first,
    the filter rejects 'README.md' and 'metadata.json' for files and for
    directories, any name that starts with '_', and '.git' for a directory
    only.  Second, everything else is copied: the install directory holds
    an entry wherever the source has a directory reached through
    directories by names that are not rejected, and wherever an entry that
    is no directory, reached that way, leads with what [cp] creates for
    it, which for a symbolic link is all of its target.  Third, the
    install directory holds nothing else.  So whatever it holds on a path
    through no symbolic link of the source is reached by names the filter
    does not reject. *)
Theorem installSkill_installs_what_the_filter_admits
    (survives : Holds -> Holds) (before : Holds) (skill : Skill)
    (targetDir : string) (done : list FsOp) :
  let source := readTree (path skill) in
  let installed :=
    installedDirectory P toLowerCase fsError readTree order survives before
      skill targetDir done in
  (installSkill skill targetDir done).2 = Ok (succeeded (dirOf skill targetDir)) ->
  fsError done (Rm (dirOf skill targetDir)) = None ->
  (forall n isDir, isExcluded n isDir = true <-> rejected n isDir)
  /\ (forall p k, fromSource source p k -> is_Some (installed !! p))
  /\ (forall p k, installed !! p = Some k ->
        (p = [] /\ k = IsDir) \/ fromSource source p k)
  /\ (forall p k, installed !! p = Some k -> throughNoLink source p ->
        admittedPath p (isDirKind k)).
Proof.
  intros source installed Hok Hrm.
  apply installSkill_succeeded in Hok as [_ Hthrown].
  assert (E : installed
              = holds (copying P fsError order (path skill) (dirOf skill targetDir)
                         source
                         (done ++ [Rm (dirOf skill targetDir);
                                   Mkdir (dirOf skill targetDir)])
                         (<[[] := IsDir]> ∅))).
  { subst installed. unfold installedDirectory. fold (rawNameOf P skill).
    fold (dirOf skill targetDir). now rewrite Hrm. }
  destruct (copying_holds source (<[[] := IsDir]> ∅) (path skill)
              (dirOf skill targetDir)
              (done ++ [Rm (dirOf skill targetDir); Mkdir (dirOf skill targetDir)])
              (Hthrown _)) as (Hall & _ & Honly).
  rewrite <- E in Hall, Honly.
  assert (Honly' : forall p k, installed !! p = Some k ->
                     (p = [] /\ k = IsDir) \/ fromSource source p k).
  { intros p k H. destruct (Honly p k H) as [H0 | [H0 | H0]]; [|now left|now right].
    left. apply lookup_insert_Some in H0 as [[<- <-] | [_ H0]]; [now split|].
    now rewrite lookup_empty in H0. }
  split; [exact isExcluded_rejected|]. split; [exact Hall|]. split; [exact Honly'|].
  intros p k H Hlinks. destruct (Honly' p k H) as [[-> ->] | (q & node & Hr & Ha & Hs)].
  - intros n isDir Hin. now apply elem_of_nil in Hin.
  - cbn [app] in Hs. destruct node as [c|sub|t]; cbn [isDirectory] in Hs, Ha.
    + destruct Hs as (r & -> & Hin). cbn [created] in Hin.
      apply list_elem_of_singleton in Hin as [= -> ->]. now rewrite app_nil_r.
    + now destruct Hs as [-> ->].
    + destruct Hs as (r & -> & _). now destruct (Hlinks q t r eq_refl).
Qed.

(** X29. [installSkill] never throws for a directory that passes the
    path check, and begins with the removal of the directory and its
    creation.  When it reports success, no operation it issued threw, the
    removal apart, whose failure is ignored, and no call is left to issue
    operations afterwards.  When it reports failure, the message is the one
    an operation it had issued threw, and that operation is not the
    removal. *)
Theorem installSkill_returns_at_the_first_rejection (skill : Skill)
    (targetDir : string) (done : list FsOp) :
  let dir := dirOf skill targetDir in
  let out := installSkill skill targetDir done in
  isPathSafe P targetDir dir = true ->
  (exists ops, out.1 = done ++ [Rm dir; Mkdir dir] ++ ops)
  /\ ((out.2 = Ok (succeeded dir)
       /\ (forall before op after,
             out.1 = done ++ before ++ op :: after -> notRm op ->
             fsError (done ++ before) op = None)
       /\ strayOperations P toLowerCase fsError readTree order skill targetDir done = [])
      \/ exists msg,
           out.2 = Ok (failed dir msg) /\ threwAfter fsError done out.1 msg).
Proof.
  intros dir out Hsafe. subst out. rewrite (installSkill_run _ _ _ Hsafe). fold dir.
  destruct (fsError (done ++ [Rm dir]) (Mkdir dir)) as [msg|] eqn:Emk.
  - split; [exists []; now rewrite app_nil_r|]. right. exists msg.
    split; [reflexivity|]. exists [Rm dir], (Mkdir dir), []. now repeat split.
  - cbv zeta. cbn [fst snd].
    pose proof (copyingFrom_tracked (done ++ [Rm dir; Mkdir dir]) false (path skill)
                  dir (readTree (path skill)) ∅) as ((ops & Hs) & _ & Ht).
    pose proof (copyingFrom_honest (done ++ [Rm dir; Mkdir dir]) false (path skill)
                  dir (readTree (path skill)) ∅) as Hh.
    pose proof (copying_settled (path skill) dir (readTree (path skill))
                  (done ++ [Rm dir; Mkdir dir]) ∅) as Hend.
    cbv zeta in Hend. unfold copying in *.
    set (st := copyingFrom P fsError order false (path skill) dir
                 (readTree (path skill)) (done ++ [Rm dir; Mkdir dir]) ∅) in *.
    split; [exists ops; now rewrite Hs, <- app_assoc|].
    destruct (thrown st) as [msg|] eqn:T.
    + right. exists msg. split; [reflexivity|].
      apply threwAfter_from with [Rm dir; Mkdir dir]. now apply Ht.
    + left. split; [reflexivity|]. split.
      * intros before op after E Hop. rewrite Hs, <- app_assoc in E.
        apply app_inv_head in E.
        destruct before as [|b1 [|b2 before]]; cbn [app] in E.
        -- injection E as <- _. destruct Hop.
        -- injection E as <- <- _. exact Emk.
        -- injection E as <- <- E.
           destruct (fsError (done ++ Rm dir :: Mkdir dir :: before) op) as [msg|] eqn:F;
             [|reflexivity].
           destruct (Hh before op after msg) as [[m Hm] | [c Hin]].
           ++ now rewrite Hs, E.
           ++ now rewrite <- app_assoc.
           ++ congruence.
           ++ destruct Hend as [[m Hm] | W]; [congruence|].
              rewrite W in Hin. now apply elem_of_nil in Hin.
      * unfold strayOperations. fold (rawNameOf P skill).
        fold (dirOf skill targetDir). fold dir. rewrite Hsafe, Emk. cbn [negb].
        unfold copyingFrom. rewrite run_to_the_end; [apply drop_all | exact T].
Qed.

End CopyFilter.

Lemma installSkill_installs_what_the_filter_admits_witness :
  is_Some
    (Installer.installedDirectory (Installer.posix "/home/u") JsString.toLowerCaseAscii
       Installer.neverFails sampleTrees secondFirst id earlierInstall
       (skillAt "/src/linked") "/t" []
     !! ["docs"; "README.md"]).
Proof.
  destruct (installSkill_installs_what_the_filter_admits
              (Installer.posix "/home/u") Installer.neverFails secondFirst
              JsString.toLowerCaseAscii sampleTrees id earlierInstall
              (skillAt "/src/linked") "/t" []) as (_ & Hall & _).
  - vm_compute. reflexivity.
  - reflexivity.
  - apply (Hall ["docs"; "README.md"] (Installer.IsFile "r")).
    exists ["docs"],
      (Installer.Link
         (Installer.Dir [("README.md", Installer.File "r");
                         ("_notes", Installer.Dir [("n.md", Installer.File "n")])])).
    split; [apply reach_entry, list_elem_of_further, list_elem_of_here|].
    split.
    + intros n isDir Hin. apply list_elem_of_singleton in Hin as [= -> ->].
      intros [H | [H | [H | [H _]]]]; discriminate.
    + exists ["README.md"]. split; [reflexivity|].
      apply list_elem_of_further, list_elem_of_here.
Defined.

(** C9 as stated fails, in three ways.  The directory 'metadata.json' is
    not among the entries the claim excludes, so by the claim it is
    copied, and the code leaves it out; the file '.git' is installed.
    What a symbolic link points to is copied whole: the 'README.md' of the
    linked 'docs' is installed.  And a cleanup that throws is ignored: the
    'README.md' of an earlier install stays in the directory of an install
    that reports success. *)
Lemma installSkill_installs_rejected_names :
  (claimedExcluded "metadata.json" true = false
   /\ (Installer.installSkill (Installer.posix "/home/u") JsString.toLowerCaseAscii
         Installer.neverFails sampleTrees inTurn (skillAt "/src/submodule") "/t" []).2
      = Installer.Ok (Installer.succeeded "/t/s")
   /\ Installer.installedDirectory (Installer.posix "/home/u") JsString.toLowerCaseAscii
        Installer.neverFails sampleTrees inTurn id ∅ (skillAt "/src/submodule") "/t" []
      !! ["metadata.json"] = None
   /\ Installer.installedDirectory (Installer.posix "/home/u") JsString.toLowerCaseAscii
        Installer.neverFails sampleTrees inTurn id ∅ (skillAt "/src/submodule") "/t" []
      !! [".git"] = Some (Installer.IsFile "gitdir: ../.git/modules/skill"))
  /\ ((Installer.installSkill (Installer.posix "/home/u") JsString.toLowerCaseAscii
         Installer.neverFails sampleTrees inTurn (skillAt "/src/linked") "/t" []).2
      = Installer.Ok (Installer.succeeded "/t/s")
      /\ Installer.installedDirectory (Installer.posix "/home/u")
           JsString.toLowerCaseAscii Installer.neverFails sampleTrees inTurn id ∅
           (skillAt "/src/linked") "/t" []
         !! ["docs"; "README.md"] = Some (Installer.IsFile "r"))
  /\ ((Installer.installSkill (Installer.posix "/home/u") JsString.toLowerCaseAscii
         nothingRemoved sampleTrees inTurn (skillAt "/src/sample") "/t" []).2
      = Installer.Ok (Installer.succeeded "/t/s")
      /\ Installer.installedDirectory (Installer.posix "/home/u")
           JsString.toLowerCaseAscii nothingRemoved sampleTrees inTurn id earlierInstall
           (skillAt "/src/sample") "/t" []
         !! ["README.md"] = Some (Installer.IsFile "old")).
Proof. vm_compute. repeat split. Qed.

Lemma installSkill_returns_at_the_first_rejection_witness :
  exists msg,
    (Installer.installSkill (Installer.posix "/home/u") JsString.toLowerCaseAscii
       unreadableManifest sampleTrees inTurn (skillAt "/src/sample") "/t" []).2
    = Installer.Ok (Installer.failed "/t/s" msg)
    /\ threwAfter unreadableManifest []
         (Installer.installSkill (Installer.posix "/home/u") JsString.toLowerCaseAscii
            unreadableManifest sampleTrees inTurn (skillAt "/src/sample") "/t" []).1
         msg.
Proof.
  destruct (installSkill_returns_at_the_first_rejection
              (Installer.posix "/home/u") unreadableManifest inTurn
              JsString.toLowerCaseAscii sampleTrees (skillAt "/src/sample") "/t" []
              eq_refl)
    as (_ & [(H & _) | H]); [discriminate H | exact H].
Defined.

(** The operations of an install, in the order they are issued when each
    settles before the next; [copyDirectory] creates its destination once
    more. *)
Example installSkill_sample :
  Installer.installSkill (Installer.posix "/home/u") JsString.toLowerCaseAscii
    Installer.neverFails sampleTrees inTurn (skillAt "/src/sample") "/t" []
  = ([Installer.Rm "/t/s"; Installer.Mkdir "/t/s"; Installer.Mkdir "/t/s";
      Installer.Readdir "/src/sample";
      Installer.Cp "/src/sample/SKILL.md" "/t/s/SKILL.md";
      Installer.Mkdir "/t/s/docs"; Installer.Readdir "/src/sample/docs";
      Installer.Cp "/src/sample/docs/a.md" "/t/s/docs/a.md"],
     Installer.Ok (Installer.succeeded "/t/s")).
Proof. vm_compute. reflexivity. Qed.

(** When the copy of 'SKILL.md' is rejected while [mkdir] for 'docs' is
    still waiting, [installSkill] returns its failure, and the copy of
    'docs' goes on after it. *)
Example installSkill_leaves_calls_waiting :
  Installer.installSkill (Installer.posix "/home/u") JsString.toLowerCaseAscii
    unreadableManifest sampleTrees inTurn (skillAt "/src/sample") "/t" []
  = ([Installer.Rm "/t/s"; Installer.Mkdir "/t/s"; Installer.Mkdir "/t/s";
      Installer.Readdir "/src/sample";
      Installer.Cp "/src/sample/SKILL.md" "/t/s/SKILL.md";
      Installer.Mkdir "/t/s/docs"],
     Installer.Ok (Installer.failed "/t/s" "EACCES: permission denied"))
  /\ Installer.strayOperations (Installer.posix "/home/u") JsString.toLowerCaseAscii
       unreadableManifest sampleTrees inTurn (skillAt "/src/sample") "/t" []
     = [Installer.Readdir "/src/sample/docs";
        Installer.Cp "/src/sample/docs/a.md" "/t/s/docs/a.md"].
Proof. vm_compute. split; reflexivity. Qed.

(** When the rejection settles last, everything else has been issued
    before the failure is returned. *)
Example installSkill_rejection_settles_last :
  Installer.installSkill (Installer.posix "/home/u") JsString.toLowerCaseAscii
    unreadableManifest sampleTrees secondFirst (skillAt "/src/sample") "/t" []
  = ([Installer.Rm "/t/s"; Installer.Mkdir "/t/s"; Installer.Mkdir "/t/s";
      Installer.Readdir "/src/sample";
      Installer.Cp "/src/sample/SKILL.md" "/t/s/SKILL.md";
      Installer.Mkdir "/t/s/docs"; Installer.Readdir "/src/sample/docs";
      Installer.Cp "/src/sample/docs/a.md" "/t/s/docs/a.md"],
     Installer.Ok (Installer.failed "/t/s" "EACCES: permission denied"))
  /\ Installer.strayOperations (Installer.posix "/home/u") JsString.toLowerCaseAscii
       unreadableManifest sampleTrees secondFirst (skillAt "/src/sample") "/t" []
     = [].
Proof. vm_compute. split; reflexivity. Qed.

(** ** Paths that leave their base directory *)
Section PathSafety.

Import JsString Installer.

Variable P : PathApi.
Variable toLowerCase : string -> string.
Variable fsError : list FsOp -> FsOp -> option string.
Variable readTree : string -> list (string * Node).
Variable order : nat -> nat.

Lemma emits_ret {A} Q (a : A) : emits Q (ret a).
Proof. intros done. exists []. simpl. now rewrite app_nil_r. Qed.

Lemma emits_perform Q op : Q op -> emits Q (perform fsError op).
Proof.
  intros H done. exists [op]. unfold perform.
  destruct (fsError done op); simpl; split; auto.
Qed.

Lemma emits_bind {A B} Q (m : M A) (k : A -> M B) :
  emits Q m -> (forall a, emits Q (k a)) -> emits Q (bind m k).
Proof.
  intros Hm Hk done. destruct (Hm done) as (ops & E & HQ). unfold bind.
  destruct (m done) as [done' [a|msg]]; simpl in E; subst done'.
  - destruct (Hk a (done ++ ops)) as (ops' & E' & HQ').
    exists (ops ++ ops'). rewrite E', app_assoc. split; [reflexivity|].
    now apply Forall_app.
  - now exists ops.
Qed.

Lemma emits_tryCatch {A} Q (m : M A) (handler : string -> M A) :
  emits Q m -> (forall msg, emits Q (handler msg)) -> emits Q (tryCatch m handler).
Proof.
  intros Hm Hh done. destruct (Hm done) as (ops & E & HQ). unfold tryCatch.
  destruct (m done) as [done' [a|msg]]; simpl in E; subst done'.
  - now exists ops.
  - destruct (Hh msg (done ++ ops)) as (ops' & E' & HQ').
    exists (ops ++ ops'). rewrite E', app_assoc. split; [reflexivity|].
    now apply Forall_app.
Qed.

Lemma emits_forEach {A} Q (l : list A) (body : A -> M unit) :
  (forall x, emits Q (body x)) -> emits Q (forEach l body).
Proof.
  intros Hb. induction l as [|x rest IH]; simpl.
  - apply emits_ret.
  - apply emits_bind; [apply Hb | intros _; exact IH].
Qed.

Lemma writeSkillFile_inside installDir file :
  emits (writesInside P installDir) (writeSkillFile P fsError installDir file).
Proof.
  destruct file as [filePath fileContent]. unfold writeSkillFile.
  destruct (isPathSafe P installDir (join P installDir filePath)) eqn:Hsafe; simpl.
  - apply emits_bind.
    + destruct (negb _); [now apply emits_perform | apply emits_ret].
    + intros _. now apply emits_perform.
  - apply emits_ret.
Qed.

Lemma cleanAndCreateDirectory_inside base dir :
  emits (writesInside P base) (cleanAndCreateDirectory fsError dir).
Proof.
  unfold cleanAndCreateDirectory. apply emits_bind.
  - apply emits_tryCatch; [now apply emits_perform | intros; apply emits_ret].
  - intros _. now apply emits_perform.
Qed.

(** C6, as the code has it.  In each of the three install operations an
    install directory that resolves outside the target directory ends the
    operation at once: nothing is done on the file system and the result is
    a failure with the path-traversal message.  In [installWellKnownSkill]
    a file whose path resolves outside the install directory is passed
    over: every file that is written is inside the install directory, and
    the files passed over do not change the result of the install. *)
Theorem unsafe_install_dir_is_fatal (targetDir : string) (done : list FsOp) :
  (forall skill,
     isPathSafe P targetDir
       (installDirOf P toLowerCase targetDir (rawNameOf P skill)) = false ->
     installSkill P toLowerCase fsError readTree order skill targetDir done
     = (done,
        Ok (failed (installDirOf P toLowerCase targetDir (rawNameOf P skill))
              traversalError)))
  /\ (forall skill,
        isPathSafe P targetDir
          (installDirOf P toLowerCase targetDir (installName skill)) = false ->
        installRemoteSkill P toLowerCase fsError skill targetDir done
        = (done,
           Ok (failed (installDirOf P toLowerCase targetDir (installName skill))
                 traversalError)))
  /\ (forall skill,
        isPathSafe P targetDir
          (installDirOf P toLowerCase targetDir (wkInstallName skill)) = false ->
        installWellKnownSkill P toLowerCase fsError skill targetDir done
        = (done,
           Ok (failed (installDirOf P toLowerCase targetDir (wkInstallName skill))
                 traversalError)))
  /\ (forall skill,
        exists ops,
          (installWellKnownSkill P toLowerCase fsError skill targetDir done).1
          = done ++ ops
          /\ forall target fileContent,
               WriteFile target fileContent ∈ ops ->
               isPathSafe P
                 (installDirOf P toLowerCase targetDir (wkInstallName skill))
                 target = true).
Proof.
  split; [|split; [|split]].
  - intros skill H. unfold installSkill. fold (rawNameOf P skill).
    fold (installDirOf P toLowerCase targetDir (rawNameOf P skill)). now rewrite H.
  - intros skill H. unfold installRemoteSkill.
    fold (installDirOf P toLowerCase targetDir (installName skill)). now rewrite H.
  - intros skill H. unfold installWellKnownSkill.
    fold (installDirOf P toLowerCase targetDir (wkInstallName skill)). now rewrite H.
  - intros skill.
    assert (E : emits
                  (writesInside P
                     (installDirOf P toLowerCase targetDir (wkInstallName skill)))
                  (installWellKnownSkill P toLowerCase fsError skill targetDir)).
    { unfold installWellKnownSkill.
      fold (installDirOf P toLowerCase targetDir (wkInstallName skill)).
      destruct (negb _); [apply emits_ret|].
      apply emits_tryCatch; [|intros; apply emits_ret].
      apply emits_bind; [apply cleanAndCreateDirectory_inside|]. intros _.
      apply emits_bind; [|intros; apply emits_ret].
      apply emits_forEach. intros file. apply writeSkillFile_inside. }
    destruct (E done) as (ops & Hops & HQ). exists ops. split; [exact Hops|].
    intros target fileContent Hin.
    rewrite List.Forall_forall in HQ. apply (HQ _ (proj1 (list_elem_of_In _ _) Hin)).
Qed.

End PathSafety.

(** With the root as target directory the base and the target of the check
    are '/' and '/s', and '/s' does not start with '//'. *)
Lemma unsafe_install_dir_is_fatal_witness :
  Installer.installSkill (Installer.posix "/home/u") JsString.toLowerCaseAscii
    Installer.neverFails (fun _ => []) inTurn skillS "/" []
  = ([], Installer.Ok (Installer.failed "/s" Installer.traversalError))
  /\ Installer.installRemoteSkill (Installer.posix "/home/u") JsString.toLowerCaseAscii
       Installer.neverFails remoteS "/" []
     = ([], Installer.Ok (Installer.failed "/s" Installer.traversalError))
  /\ Installer.installWellKnownSkill (Installer.posix "/home/u")
       JsString.toLowerCaseAscii Installer.neverFails escapingSkill "/" []
     = ([], Installer.Ok (Installer.failed "/s" Installer.traversalError)).
Proof.
  destruct (unsafe_install_dir_is_fatal (Installer.posix "/home/u")
              JsString.toLowerCaseAscii Installer.neverFails (fun _ => []) inTurn "/" [])
    as (H1 & H2 & H3 & _).
  split; [|split].
  - apply (H1 skillS). vm_compute. reflexivity.
  - apply (H2 remoteS). vm_compute. reflexivity.
  - apply (H3 escapingSkill). vm_compute. reflexivity.
Defined.

(** C6 as stated fails: the path of '../evil' resolves outside the install
    directory, the file is passed over without a word, and the install
    reports success. *)
Lemma escaping_file_is_skipped_silently :
  Installer.isPathSafe (Installer.posix "/home/u") "/t/s"
    (Installer.posixJoin "/t/s" "../evil") = false
  /\ Installer.installWellKnownSkill (Installer.posix "/home/u")
       JsString.toLowerCaseAscii Installer.neverFails escapingSkill "/t" []
     = ([Installer.Rm "/t/s"; Installer.Mkdir "/t/s";
         Installer.WriteFile "/t/s/SKILL.md" "a"],
        Installer.Ok (Installer.succeeded "/t/s")).
Proof. vm_compute. split; reflexivity. Qed.

Lemma fetchSkillFolderHash_first_answer_witness :
  SkillLock.fetchSkillFolderHash twoBranches "o/r" "skills/a/SKILL.md" None = Some "h2".
Proof.
  destruct (fetchSkillFolderHash_first_answer twoBranches "o/r" "skills/a/SKILL.md" None)
    as (_ & H & _).
  apply H. right. split.
  - intros h' (data & Hl & Hy). vm_compute in Hl. injection Hl as <-.
    destruct Hy as [[E _] | (_ & e & (before & after & Htree & _) & _)].
    + vm_compute in E. discriminate.
    + simpl in Htree. destruct before; discriminate.
  - eexists. split; [vm_compute; reflexivity|]. right.
    split; [vm_compute; discriminate|].
    exists {| SkillLock.entryPath := "skills/a"; SkillLock.entryType := "tree";
              SkillLock.entrySha := "h2" |}.
    split; [|reflexivity].
    exists [], []. split; [reflexivity|]. split; [reflexivity|].
    split; [reflexivity | constructor].
Defined.

(** ** The lock store beyond [addSkillToLock] *)
Section LockStore.

Import JsString SkillLock.

Lemma inSkills_spec skillName lock :
  inSkills skillName lock = true
  <-> is_Some (skills lock !! skillName) \/ skillName ∈ objectPrototypeNames.
Proof.
  unfold inSkills. rewrite orb_true_iff, !bool_decide_eq_true. reflexivity.
Qed.

Lemma removeSkillFromLock_lookup (skillName : string) (disk : Disk) :
  let after := removeSkillFromLock skillName disk in
  getSkillFromLock skillName after.1 = None
  /\ (forall other, other <> skillName ->
        getSkillFromLock other after.1 = getSkillFromLock other disk)
  /\ (after.2 = true
      <-> is_Some (getSkillFromLock skillName disk)
          \/ skillName ∈ objectPrototypeNames)
  /\ (after.2 = false -> after.1 = disk).
Proof.
  unfold removeSkillFromLock, getSkillFromLock.
  destruct (inSkills skillName (readSkillLockTyped disk)) eqn:E; cbn [negb fst snd].
  - rewrite read_after_write. cbn [skills]. split; [apply lookup_delete_eq|].
    split; [intros other Hne; now apply lookup_delete_ne|].
    split; [|discriminate]. split; [intros _; now apply inSkills_spec | reflexivity].
  - assert (N : ~ (is_Some (skills (readSkillLockTyped disk) !! skillName)
                   \/ skillName ∈ objectPrototypeNames)).
    { rewrite <- inSkills_spec, E. discriminate. }
    split.
    + destruct (skills (readSkillLockTyped disk) !! skillName) eqn:L; [|reflexivity].
      exfalso. apply N. left. now exists s.
    + split; [reflexivity|]. split; [|reflexivity].
      split; [discriminate | intros H; now destruct (N H)].
Qed.

(** X1. [removeSkillFromLock(skillName)] leaves no entry under
    [skillName] and keeps every other entry.  It answers [true] exactly
    when the name was tracked or is one that every object inherits; when it
    answers [false] the file is not written. *)
Theorem removeSkillFromLock_forgets (skillName : string) (disk : Disk) :
  let after := removeSkillFromLock skillName disk in
  getAllLockedSkills after.1 !! skillName = None
  /\ (forall other, other <> skillName ->
        getAllLockedSkills after.1 !! other = getAllLockedSkills disk !! other)
  /\ (after.2 = true
      <-> is_Some (getAllLockedSkills disk !! skillName)
          \/ skillName ∈ objectPrototypeNames)
  /\ (after.2 = false -> after.1 = disk).
Proof. apply removeSkillFromLock_lookup. Qed.

(** X2. Removing a skill right after it was added under a name the lock
    did not hold brings back the tracked skills there were before. *)
Theorem remove_after_add_restores (now skillName : string) (entry : NewEntry)
    (disk : Disk) :
  getAllLockedSkills disk !! skillName = None ->
  let after := removeSkillFromLock skillName (addSkillToLock now skillName entry disk) in
  after.2 = true /\ getAllLockedSkills after.1 = getAllLockedSkills disk.
Proof.
  unfold getAllLockedSkills, removeSkillFromLock, addSkillToLock.
  intros Hnone. cbv zeta. rewrite read_after_write. cbn [skills version].
  rewrite Hnone.
  set (stored := {| source := newSource entry; sourceType := newSourceType entry;
                    sourceUrl := newSourceUrl entry; skillPath := newSkillPath entry;
                    skillFolderHash := newSkillFolderHash entry;
                    installedAt := now; updatedAt := now |}).
  destruct (decide (skillName = "__proto__")) as [->|Hne].
  - rewrite assign_proto by exact Hnone.
    assert (E : inSkills "__proto__"
                  {| version := version (readSkillLockTyped disk);
                     skills := skills (readSkillLockTyped disk) |} = true).
    { apply inSkills_spec. right. unfold objectPrototypeNames.
      rewrite !elem_of_cons. tauto. }
    rewrite E. cbn [negb fst snd]. split; [reflexivity|].
    rewrite read_after_write. cbn [skills]. now apply delete_id.
  - rewrite assign_plain by now left.
    assert (E : inSkills skillName
                  {| version := version (readSkillLockTyped disk);
                     skills := <[skillName := stored]> (skills (readSkillLockTyped disk)) |}
                = true).
    { apply inSkills_spec. left. simpl. rewrite lookup_insert_eq. now eexists. }
    rewrite E. cbn [negb fst snd]. split; [reflexivity|].
    rewrite read_after_write. cbn [skills]. now apply delete_insert_id.
Qed.

Lemma remove_after_add_restores_witness :
  getAllLockedSkills
    (removeSkillFromLock "b"
       (addSkillToLock "2026-02-02T00:00:00.000Z" "b" reinstall diskWithA)).1
  = getAllLockedSkills diskWithA.
Proof.
  apply (remove_after_add_restores "2026-02-02T00:00:00.000Z" "b" reinstall diskWithA).
  reflexivity.
Defined.

(** X3. The first [addSkillToLock] on a lock file of an older schema
    version leaves exactly one tracked skill, the one just added: what the
    old file tracked is not carried over.  The name is any but
    '__proto__', which an assignment does not store as a key. *)
Theorem addSkillToLock_on_old_schema_forgets (now skillName : string)
    (entry : NewEntry) (old : SkillLockFile) :
  skillName <> "__proto__" ->
  (version old < CURRENT_VERSION)%Q ->
  getAllLockedSkills (addSkillToLock now skillName entry (Some old))
  = {[ skillName := storedAs now entry ]}
  /\ version <$> addSkillToLock now skillName entry (Some old)
     = Some CURRENT_VERSION.
Proof.
  intros Hne Hlt. apply Qltb_true in Hlt.
  unfold getAllLockedSkills, addSkillToLock.
  rewrite read_after_write. simpl. rewrite Hlt. simpl.
  rewrite lookup_empty, assign_plain by now left. split; [|reflexivity].
  now rewrite insert_empty.
Qed.

Lemma addSkillToLock_on_old_schema_forgets_witness :
  getAllLockedSkills
    (addSkillToLock "2026-02-02T00:00:00.000Z" "b" reinstall (Some versionTwoLock))
  = {[ "b" := storedAs "2026-02-02T00:00:00.000Z" reinstall ]}.
Proof.
  apply (addSkillToLock_on_old_schema_forgets
           "2026-02-02T00:00:00.000Z" "b" reinstall versionTwoLock).
  - discriminate.
  - reflexivity.
Defined.

Lemma trackedSkills_toJson lock n :
  n ∈ trackedSkills (toJson lock) <-> is_Some (skills lock !! n).
Proof.
  unfold trackedSkills, toJson. simpl.
  rewrite <- elem_of_skillNamesOf. unfold Cli.skillNamesOf.
  rewrite <- list_fmap_compose. reflexivity.
Qed.

(** X4. Once [writeSkillLock] has put the result of [addSkillToLock] in
    the file as JSON, a later [readSkillLock] accepts the file and
    [Object.keys] of its skills are the name just added and the names that
    were tracked before, in [skill-lock.ts] and in [cli.ts] alike.  The
    name is any but '__proto__', which an assignment does not store as a
    key. *)
Theorem added_skill_is_tracked (now skillName : string) (entry : NewEntry)
    (disk : Disk) (n : string) :
  skillName <> "__proto__" ->
  let written := diskToFile (addSkillToLock now skillName entry disk) in
  (n ∈ trackedSkills (readSkillLock written)
   <-> n = skillName \/ n ∈ trackedSkills (readSkillLock (diskToFile disk)))
  /\ Cli.readSkillLock written = readSkillLock written.
Proof.
  intros Hplain. cbv zeta. split; [|reflexivity].
  rewrite !readSkillLock_typed, !trackedSkills_toJson.
  unfold addSkillToLock. rewrite read_after_write. cbn [skills].
  rewrite assign_plain by now left.
  destruct (decide (n = skillName)) as [->|Hne].
  - rewrite lookup_insert_eq. split; [now left | now eexists].
  - rewrite lookup_insert_ne by congruence. split; [now right|].
    now intros [?|?].
Qed.

End LockStore.

Lemma added_skill_is_tracked_witness :
  "b" ∈ SkillLock.trackedSkills
          (SkillLock.readSkillLock
             (SkillLock.diskToFile
                (SkillLock.addSkillToLock "2026-02-02T00:00:00.000Z" "b" reinstall
                   diskWithA))).
Proof.
  destruct (added_skill_is_tracked "2026-02-02T00:00:00.000Z" "b" reinstall diskWithA "b")
    as [[_ H] _]; [discriminate|].
  apply H. now left.
Defined.

(** ** [Map]s in insertion order *)
Section MapFacts.

Import Cli.

Context {V : Type}.
Implicit Types (m : list (string * V)) (k : string) (v : V).

Lemma mapGet_Some_elem k v m : mapGet k m = Some v -> (k, v) ∈ m.
Proof.
  induction m as [|[k' v'] tl IH]; simpl; [discriminate|].
  destruct (String.eqb k' k) eqn:E.
  - apply String.eqb_eq in E as ->. intros [= ->]. apply list_elem_of_here.
  - intros H. apply list_elem_of_further. now apply IH.
Qed.

Lemma mapGet_None k m : mapGet k m = None <-> k ∉ m.*1.
Proof.
  induction m as [|[k' v'] tl IH]; simpl.
  - split; [intros _; apply not_elem_of_nil | reflexivity].
  - rewrite not_elem_of_cons. destruct (String.eqb k' k) eqn:E.
    + apply String.eqb_eq in E as ->. split; [discriminate | now intros [? _]].
    + apply String.eqb_neq in E. rewrite IH. split; [now split; [congruence|] | now intros [_ ?]].
Qed.

Lemma mapGet_elem k v m : NoDup m.*1 -> (k, v) ∈ m -> mapGet k m = Some v.
Proof.
  induction m as [|[k' v'] tl IH]; simpl; intros Hnd Hin.
  - now apply elem_of_nil in Hin.
  - apply NoDup_cons in Hnd as [Hnotin Hnd].
    apply elem_of_cons in Hin as [[= <- <-]|Hin].
    + now rewrite String.eqb_refl.
    + destruct (String.eqb k' k) eqn:E; [|now apply IH].
      apply String.eqb_eq in E as ->. destruct Hnotin.
      apply list_elem_of_fmap. now exists (k, v).
Qed.

Lemma mapSet_absent k v m : mapGet k m = None -> mapSet k v m = m ++ [(k, v)].
Proof.
  induction m as [|[k' v'] tl IH]; simpl; [reflexivity|].
  destruct (String.eqb k' k); [discriminate|]. intros H. now rewrite IH.
Qed.

Lemma mapSet_present_keys k v v0 m :
  mapGet k m = Some v0 -> (mapSet k v m).*1 = m.*1.
Proof.
  induction m as [|[k' v'] tl IH]; simpl; [discriminate|].
  destruct (String.eqb k' k); [reflexivity|]. intros H.
  rewrite !fmap_cons. f_equal. now apply IH.
Qed.

Lemma elem_of_mapSet k v m k' v' :
  NoDup m.*1 ->
  (k', v') ∈ mapSet k v m <-> (k' = k /\ v' = v) \/ (k' <> k /\ (k', v') ∈ m).
Proof.
  induction m as [|[k0 v0] tl IH]; simpl; intros Hnd.
  - rewrite list_elem_of_singleton. split.
    + intros [= -> ->]. now left.
    + intros [[-> ->]|[_ H]]; [reflexivity | now apply elem_of_nil in H].
  - apply NoDup_cons in Hnd as [Hnotin Hnd].
    destruct (String.eqb k0 k) eqn:E.
    + apply String.eqb_eq in E as ->. rewrite !elem_of_cons. split.
      * intros [[= -> ->]|Hin]; [now left|]. right. split.
        -- intros ->. apply Hnotin. apply list_elem_of_fmap. now exists (k, v').
        -- now right.
      * intros [[-> ->]|[Hne [[= ? ?]|Hin]]]; [now left | congruence | now right].
    + apply String.eqb_neq in E. rewrite !elem_of_cons, (IH Hnd). split.
      * intros [[= -> ->]|[[-> ->]|[Hne Hin]]].
        -- right. split; [exact E | now left].
        -- now left.
        -- right. split; [exact Hne | now right].
      * intros [[-> ->]|[Hne [[= -> ->]|Hin]]].
        -- right. now left.
        -- now left.
        -- right. right. now split.
Qed.

Lemma NoDup_mapSet_keys k v m : NoDup m.*1 -> NoDup (mapSet k v m).*1.
Proof.
  intros Hnd. destruct (mapGet k m) as [v0|] eqn:E.
  - now rewrite (mapSet_present_keys k v v0 m E).
  - rewrite (mapSet_absent k v m E), fmap_app. simpl.
    apply NoDup_app. split; [exact Hnd|]. split.
    + intros x Hx Hx'. apply list_elem_of_singleton in Hx' as ->.
      now apply mapGet_None in E.
    + apply NoDup_singleton.
Qed.

End MapFacts.

(** ** [getSkillsBySource] *)
Section SkillsBySource.

Import SkillLock LockGroups.

Lemma groupEntries_filed rest : forall seen bySource,
  filed seen bySource -> filed (seen ++ rest) (groupEntries rest bySource).
Proof.
  induction rest as [|[n e] rest IH]; intros seen bySource Hf; simpl.
  - now rewrite app_nil_r.
  - replace (seen ++ (n, e) :: rest) with ((seen ++ [(n, e)]) ++ rest)
      by now rewrite <- app_assoc.
    destruct Hf as (Hnd & Hgroups & Hall).
    destruct (Cli.mapGet (source e) bySource) as [existing|] eqn:E; apply IH.
    + split; [now apply NoDup_mapSet_keys|]. split.
      * intros src g Hin. apply elem_of_mapSet in Hin as [[-> ->]|[Hne Hin]]; [| |exact Hnd].
        -- apply mapGet_Some_elem in E. destruct (Hgroups _ _ E) as (Hmem & first & others & Hfirst & Hin).
           simpl. split.
           ++ intros n'. rewrite elem_of_app, list_elem_of_singleton, Hmem. split.
              ** intros [(e' & He' & Hs)| ->].
                 --- exists e'. split; [apply elem_of_app; now left | exact Hs].
                 --- exists e. split; [|reflexivity].
                     apply elem_of_app. right. apply list_elem_of_here.
              ** intros (e' & He' & Hs). apply elem_of_app in He' as [He'|He'].
                 --- left. now exists e'.
                 --- apply list_elem_of_singleton in He' as [= -> ->]. now right.
           ++ exists first, (others ++ [n]). rewrite Hfirst. split; [reflexivity|].
              apply elem_of_app. now left.
        -- destruct (Hgroups _ _ Hin) as (Hmem & first & others & Hfirst & Hin').
           split.
           ++ intros n'. rewrite Hmem. split.
              ** intros (e' & He' & Hs). exists e'. split; [apply elem_of_app; now left | exact Hs].
              ** intros (e' & He' & Hs). apply elem_of_app in He' as [He'|He'].
                 --- now exists e'.
                 --- apply list_elem_of_singleton in He' as [= -> ->]. congruence.
           ++ exists first, others. split; [exact Hfirst | apply elem_of_app; now left].
      * intros n' e' Hin.
        assert (Hs : is_Some (Cli.mapGet (source e') bySource)).
        { apply elem_of_app in Hin as [Hin|Hin]; [now apply (Hall n')|].
          apply list_elem_of_singleton in Hin as [= -> ->]. now exists existing. }
        destruct Hs as [g Hg]. apply mapGet_Some_elem in Hg.
        destruct (decide (source e' = source e)) as [Heq|Hne].
        -- rewrite Heq. eexists. apply mapGet_elem; [now apply NoDup_mapSet_keys|].
           apply elem_of_mapSet; [exact Hnd|]. left. split; reflexivity.
        -- exists g. apply mapGet_elem; [now apply NoDup_mapSet_keys|].
           apply elem_of_mapSet; [exact Hnd|]. right. now split.
    + split; [now apply NoDup_mapSet_keys|]. split.
      * intros src g Hin. apply elem_of_mapSet in Hin as [[-> ->]|[Hne Hin]]; [| |exact Hnd].
        -- simpl. split.
           ++ intros n'. rewrite list_elem_of_singleton. split.
              ** intros ->. exists e. split; [|reflexivity].
                 apply elem_of_app. right. apply list_elem_of_here.
              ** intros (e' & He' & Hs). apply elem_of_app in He' as [He'|He'].
                 --- destruct (Hall _ _ He') as [g Hg]. rewrite Hs in Hg. congruence.
                 --- now apply list_elem_of_singleton in He' as [= -> ->].
           ++ exists n, []. split; [reflexivity|].
              apply elem_of_app. right. apply list_elem_of_here.
        -- destruct (Hgroups _ _ Hin) as (Hmem & first & others & Hfirst & Hin').
           split.
           ++ intros n'. rewrite Hmem. split.
              ** intros (e' & He' & Hs). exists e'. split; [apply elem_of_app; now left | exact Hs].
              ** intros (e' & He' & Hs). apply elem_of_app in He' as [He'|He'].
                 --- now exists e'.
                 --- apply list_elem_of_singleton in He' as [= -> ->]. congruence.
           ++ exists first, others. split; [exact Hfirst | apply elem_of_app; now left].
      * intros n' e' Hin.
        destruct (decide (source e' = source e)) as [Heq|Hne].
        -- rewrite Heq. eexists. apply mapGet_elem; [now apply NoDup_mapSet_keys|].
           apply elem_of_mapSet; [exact Hnd|]. left. split; reflexivity.
        -- apply elem_of_app in Hin as [Hin|Hin].
           ++ destruct (Hall _ _ Hin) as [g Hg]. apply mapGet_Some_elem in Hg.
              exists g. apply mapGet_elem; [now apply NoDup_mapSet_keys|].
              apply elem_of_mapSet; [exact Hnd|]. right. now split.
           ++ apply list_elem_of_singleton in Hin as [= -> ->]. congruence.
Qed.

Lemma filed_nil : filed [] [].
Proof.
  split; [apply NoDup_nil_2|]. split.
  - intros src g H. now apply elem_of_nil in H.
  - intros n e H. now apply elem_of_nil in H.
Qed.

(** X5. [getSkillsBySource] files every tracked skill under the source
    of its entry and nowhere else: the keys of the [Map] are distinct, the
    skills of a group are exactly the tracked names whose entry has the
    group's source, no group is empty, the entry kept for a group is the one
    of its first skill, and every tracked skill has its group. *)
Theorem getSkillsBySource_partitions (disk : Disk) :
  let lock := readSkillLockTyped disk in
  let bySource := getSkillsBySource disk in
  NoDup bySource.*1
  /\ (forall src g, (src, g) ∈ bySource ->
        (forall n, n ∈ groupSkills g
           <-> exists e, skills lock !! n = Some e /\ source e = src)
        /\ exists first others,
             groupSkills g = first :: others
             /\ skills lock !! first = Some (groupEntry g))
  /\ (forall n e, skills lock !! n = Some e ->
        exists g, (source e, g) ∈ bySource /\ n ∈ groupSkills g).
Proof.
  intros lock bySource.
  pose proof (groupEntries_filed (map_to_list (skills lock)) [] [] filed_nil)
    as (Hnd & Hgroups & Hall).
  rewrite app_nil_l in Hgroups, Hall. fold (getSkillsBySource disk) in *.
  fold bySource in Hnd, Hgroups, Hall.
  split; [exact Hnd|]. split.
  - intros src g Hin. destruct (Hgroups _ _ Hin) as (Hmem & first & others & Hfirst & Hfe).
    split.
    + intros n. rewrite Hmem. split; intros (e & He & Hs); exists e; split; try exact Hs.
      * now apply elem_of_map_to_list in He.
      * now apply elem_of_map_to_list.
    + exists first, others. split; [exact Hfirst|]. now apply elem_of_map_to_list in Hfe.
  - intros n e He. apply elem_of_map_to_list in He.
    destruct (Hall _ _ He) as [g Hg]. apply mapGet_Some_elem in Hg.
    exists g. split; [exact Hg|]. apply (Hgroups _ _ Hg). now exists e.
Qed.

End SkillsBySource.

(** ** What [check] and [update] account for *)
Section Accounting.

Import JsString SkillLock Cli.

Variable httpGetTree : string -> list (string * string) -> option TreeResponse.
Variable token : option string.

Lemma flat_mapSet_push_perm src item groups :
  flat (mapSet src (default [] (mapGet src groups) ++ [item]) groups)
  ≡ₚ flat groups ++ [(src, item)].
Proof.
  induction groups as [|[k v] rest IH]; simpl; [reflexivity|].
  destruct (String.eqb k src) eqn:Hk; simpl.
  - apply String.eqb_eq in Hk as ->. rewrite map_app, <- !app_assoc. simpl.
    apply Permutation_app_head. apply (Permutation_app_comm [(src, item)]).
  - rewrite <- app_assoc. now apply Permutation_app_head.
Qed.

Lemma groupBySource_perm lock skillNames : forall groups count,
  flat (groupBySource lock skillNames groups count).1
  ≡ₚ flat groups ++ omap (filedUnder lock) skillNames.
Proof.
  induction skillNames as [|n rest IH]; intros groups count.
  - simpl. now rewrite app_nil_r.
  - rewrite omap_cons_list. cbn [groupBySource].
    replace (filedUnder lock n)
      with (match skills lock !! n with
            | Some e => if skipped e then None else Some (source e, (n, e))
            | None => None
            end) by reflexivity.
    destruct (skills lock !! n) as [e|]; [|apply IH].
    destruct (skipped e); [apply IH|].
    rewrite IH, flat_mapSet_push_perm, <- app_assoc. reflexivity.
Qed.

Lemma filedUnder_name lock n y : filedUnder lock n = Some y -> y.2.1 = n.
Proof.
  unfold filedUnder. destruct (skills lock !! n) as [e|]; [|discriminate].
  destruct (skipped e); [discriminate|]. now intros [= <-].
Qed.

Lemma filedUnder_names lock skillNames n :
  n ∈ map (fun y => y.2.1) (omap (filedUnder lock) skillNames) -> n ∈ skillNames.
Proof.
  intros H. apply list_elem_of_fmap in H as (y & -> & Hy).
  apply list_elem_of_omap in Hy as (m & Hm & Hy).
  now rewrite (filedUnder_name _ _ _ Hy).
Qed.

Lemma NoDup_filedUnder lock skillNames :
  NoDup skillNames -> NoDup (map (fun y => y.2.1) (omap (filedUnder lock) skillNames)).
Proof.
  induction skillNames as [|n rest IH]; intros Hnd; [apply NoDup_nil_2|].
  apply NoDup_cons in Hnd as [Hn Hnd]. rewrite omap_cons_list.
  destruct (filedUnder lock n) as [y|] eqn:E; simpl; [|now apply IH].
  apply NoDup_cons. split; [|now apply IH].
  rewrite (filedUnder_name _ _ _ E). intros H. now apply filedUnder_names in H.
Qed.

Lemma length_filedUnder lock skillNames :
  (forall n, n ∈ skillNames -> is_Some (skills lock !! n)) ->
  length (omap (filedUnder lock) skillNames)
  + length (List.filter (skippedName lock) skillNames)
  = length skillNames.
Proof.
  induction skillNames as [|n rest IH]; intros Hall; [reflexivity|].
  rewrite omap_cons_list. cbn [List.filter].
  destruct (Hall n) as [e He]; [apply list_elem_of_here|].
  replace (filedUnder lock n) with (if skipped e then None else Some (source e, (n, e)))
    by (unfold filedUnder; now rewrite He).
  replace (skippedName lock n) with (skipped e) by (unfold skippedName; now rewrite He).
  assert (IH' := IH (fun m Hm => Hall m (list_elem_of_further _ _ _ Hm))).
  destruct (skipped e); simpl; lia.
Qed.

Lemma runCheck_visits disk :
  let lock := readSkillLockTyped disk in
  exists visited,
    visited ≡ₚ omap (filedUnder lock) (skillNamesOf lock)
    /\ runCheck httpGetTree token disk
       = if length (skillNamesOf lock) =? 0 then NoSkillsTracked
         else if length (skillNamesOf lock) - skippedTotal lock =? 0
         then NoGitHubSkills (skippedTotal lock)
         else Checked (length (skillNamesOf lock) - skippedTotal lock)
                (skippedTotal lock)
                (omap (updateFor httpGetTree token) visited)
                (omap (errorFor httpGetTree token) visited).
Proof.
  intros lock. unfold runCheck. fold lock.
  pose proof (groupBySource_spec httpGetTree lock (skillNamesOf lock) [] 0) as [_ Hcount].
  pose proof (groupBySource_perm lock (skillNamesOf lock) [] 0) as Hperm.
  destruct (groupBySource lock (skillNamesOf lock) [] 0) as [groups count] eqn:Hg.
  simpl in Hperm, Hcount. subst count. fold (skippedTotal lock).
  exists (flat groups). split; [exact Hperm|].
  destruct (length (skillNamesOf lock) =? 0); [reflexivity|].
  destruct (_ - _ =? 0); [reflexivity|].
  now rewrite checkAll_flat.
Qed.

Lemma verdict_cases (y : string * (string * SkillLockEntry)) :
  (updateFor httpGetTree token y = None /\ errorFor httpGetTree token y = None)
  \/ (exists u, updateFor httpGetTree token y = Some u /\ updateName u = y.2.1
                /\ errorFor httpGetTree token y = None)
  \/ (exists x, errorFor httpGetTree token y = Some x /\ errorName x = y.2.1
                /\ updateFor httpGetTree token y = None).
Proof.
  unfold updateFor, errorFor. destruct (verdict httpGetTree token y.1 y.2.2).
  - now left.
  - right. left. eexists. now repeat split.
  - right. right. eexists. now repeat split.
Qed.

Lemma verdicts_exclusive (visited : list (string * (string * SkillLockEntry))) :
  NoDup (map (fun y => y.2.1) visited) ->
  NoDup (map updateName (omap (updateFor httpGetTree token) visited)
         ++ map errorName (omap (errorFor httpGetTree token) visited))
  /\ (forall n,
        n ∈ map updateName (omap (updateFor httpGetTree token) visited)
            ++ map errorName (omap (errorFor httpGetTree token) visited) ->
        n ∈ map (fun y => y.2.1) visited)
  /\ length (omap (updateFor httpGetTree token) visited)
     + length (omap (errorFor httpGetTree token) visited) <= length visited.
Proof.
  induction visited as [|y rest IH]; intros Hnd.
  - split; [apply NoDup_nil_2|]. split; [now intros n H | reflexivity].
  - cbn [map] in Hnd. apply NoDup_cons in Hnd as [Hy Hnd].
    destruct (IH Hnd) as (IH1 & IH2 & IH3).
    rewrite !omap_cons_list.
    destruct (verdict_cases y)
      as [[-> ->] | [(u & -> & Hu & ->) | (x & -> & Hx & ->)]]; simpl.
    + split; [exact IH1|]. split; [|lia].
      intros n Hn. apply list_elem_of_further. now apply IH2.
    + rewrite Hu. split; [|split; [|lia]].
      * apply NoDup_cons. split; [|exact IH1]. intros H. now apply IH2 in H.
      * intros n Hn. apply elem_of_cons in Hn as [->|Hn]; [apply list_elem_of_here|].
        apply list_elem_of_further. now apply IH2.
    + rewrite Hx. split; [|split; [|lia]].
      * rewrite <- Permutation_middle.
        apply NoDup_cons. split; [|exact IH1]. intros H. now apply IH2 in H.
      * intros n Hn. apply elem_of_app in Hn as [Hn|Hn].
        -- apply list_elem_of_further, IH2, elem_of_app. now left.
        -- apply elem_of_cons in Hn as [->|Hn]; [apply list_elem_of_here|].
           apply list_elem_of_further, IH2, elem_of_app. now right.
Qed.

Lemma NoDup_skillNamesOf lock : NoDup (skillNamesOf lock).
Proof. apply NoDup_fst_map_to_list. Qed.

(** X6. When [runCheck] gets as far as asking GitHub, every tracked skill
    is accounted for once: the skills checked and the skills skipped add up
    to the tracked skills, the updates and the errors together are no more
    than the skills checked, and no skill is named twice in the two
    lists. *)
Theorem runCheck_accounts_for_every_skill (disk : Disk) (total k : nat)
    (updates : list Update) (errors : list CheckError) :
  runCheck httpGetTree token disk = Checked total k updates errors ->
  total + k = length (skillNamesOf (readSkillLockTyped disk))
  /\ length updates + length errors <= total
  /\ NoDup (map updateName updates ++ map errorName errors).
Proof.
  destruct (runCheck_visits disk) as (visited & Hperm & ->).
  set (lock := readSkillLockTyped disk) in *.
  destruct (length (skillNamesOf lock) =? 0); [discriminate|].
  destruct (_ - _ =? 0) eqn:Hz; [discriminate|].
  intros [= <- <- <- <-].
  assert (Hlen := length_filedUnder lock (skillNamesOf lock)
                    (fun n Hn => proj1 (elem_of_skillNamesOf lock n) Hn)).
  fold (skippedTotal lock) in Hlen.
  assert (Hnd : NoDup (map (fun y : string * (string * SkillLockEntry) => y.2.1) visited)).
  { rewrite (Permutation_map (fun y : string * (string * SkillLockEntry) => y.2.1) Hperm).
    apply NoDup_filedUnder, NoDup_skillNamesOf. }
  destruct (verdicts_exclusive visited Hnd) as (H1 & _ & H3).
  apply Permutation_length in Hperm.
  split; [lia|]. split; [lia | exact H1].
Qed.

End Accounting.

Lemma runCheck_accounts_for_every_skill_witness :
  1 + 0 = length (Cli.skillNamesOf (SkillLock.readSkillLockTyped diskWithA))
  /\ length [ {| Cli.updateName := "a"; Cli.updateSource := "o/r" |} ] + length (@nil Cli.CheckError)
     <= 1
  /\ NoDup (map Cli.updateName [ {| Cli.updateName := "a"; Cli.updateSource := "o/r" |} ]
            ++ map Cli.errorName []).
Proof.
  apply (runCheck_accounts_for_every_skill twoBranches None diskWithA).
  reflexivity.
Defined.

(** ** What [update] reinstalls *)
Section Reinstalls.

Import JsString SkillLock Cli.

Variable httpGetTree : string -> list (string * string) -> option TreeResponse.
Variable token : option string.

Lemma update_due src e :
  truthyOpt (latestHashOf httpGetTree token src e)
  && negb (bool_decide (latestHashOf httpGetTree token src e = Some (skillFolderHash e)))
  = match verdict httpGetTree token src e with
    | UpdateAvailable => true
    | _ => false
    end.
Proof.
  unfold verdict. destruct (truthyOpt _); [|reflexivity].
  now destruct (bool_decide _).
Qed.

Lemma collectUpdates_shape lock skillNames : forall updates count,
  collectUpdates httpGetTree token lock skillNames updates count
  = (updates ++ omap (pendingFor httpGetTree token lock) skillNames,
     count + length (omap (filedUnder lock) skillNames)).
Proof.
  induction skillNames as [|n rest IH]; intros updates count.
  - simpl. now rewrite app_nil_r, Nat.add_0_r.
  - rewrite !omap_cons_list. cbn [collectUpdates].
    unfold pendingFor at 1.
    replace (filedUnder lock n)
      with (match skills lock !! n with
            | Some e => if skipped e then None else Some (source e, (n, e))
            | None => None
            end) by reflexivity.
    destruct (skills lock !! n) as [e|]; [|apply IH].
    destruct (skipped e); [apply IH|].
    change (fetchSkillFolderHash httpGetTree (source e) (default "" (skillPath e)) token)
      with (latestHashOf httpGetTree token (source e) e).
    rewrite update_due.
    destruct (verdict httpGetTree token (source e) e); rewrite IH; simpl;
      f_equal; try lia; now rewrite <- app_assoc.
Qed.

Lemma pending_bounded lock skillNames :
  length (omap (pendingFor httpGetTree token lock) skillNames)
  <= length (omap (filedUnder lock) skillNames).
Proof.
  induction skillNames as [|n rest IH]; [reflexivity|].
  rewrite !omap_cons_list. unfold pendingFor at 1.
  destruct (filedUnder lock n) as [[src [m e]]|]; [|exact IH].
  destruct (verdict httpGetTree token src e); simpl; lia.
Qed.

Lemma pending_names lock skillNames :
  map pendingName (omap (pendingFor httpGetTree token lock) skillNames)
  = map updateName
      (omap (updateFor httpGetTree token) (omap (filedUnder lock) skillNames)).
Proof.
  induction skillNames as [|n rest IH]; [reflexivity|].
  rewrite !omap_cons_list. unfold pendingFor at 1.
  destruct (filedUnder lock n) as [[src [m e]]|] eqn:E; [|exact IH].
  apply filedUnder_name in E. simpl in E. subst m.
  change (option_list (Some (src, (n, e))) ++ omap (filedUnder lock) rest)
    with ((src, (n, e)) :: omap (filedUnder lock) rest).
  rewrite omap_cons_list.
  replace (updateFor httpGetTree token (src, (n, e)))
    with (match verdict httpGetTree token src e with
          | UpdateAvailable => Some {| updateName := n; updateSource := src |}
          | _ => None
          end) by reflexivity.
  destruct (verdict httpGetTree token src e); simpl; now rewrite IH.
Qed.

Section Spawning.

Variable spawnStatus : list (list string) -> list string -> option Z.

Lemma applyUpdates_counts updates : forall ran successCount failCount,
  let result := applyUpdates spawnStatus updates ran successCount failCount in
  result.1.2 + length (List.filter spawnedOk ran)
  = successCount + length (List.filter spawnedOk result.1.1)
  /\ result.2 + length (List.filter (fun s => negb (spawnedOk s)) ran)
     = failCount + length (List.filter (fun s => negb (spawnedOk s)) result.1.1)
  /\ length result.1.1 = length ran + length updates.
Proof.
  induction updates as [|u rest IH]; intros ran successCount failCount.
  - simpl. split; [lia|]. split; lia.
  - cbn [applyUpdates]. cbv zeta.
    destruct (bool_decide _) eqn:Hok.
    + match goal with
      | |- context [applyUpdates _ rest ?r ?s ?f] => destruct (IH r s f) as (I1 & I2 & I3)
      end.
      rewrite !List.filter_app, !length_app in I1, I2. rewrite length_app in I3.
      simpl in I1, I2, I3. simpl. lia.
    + match goal with
      | |- context [applyUpdates _ rest ?r ?s ?f] => destruct (IH r s f) as (I1 & I2 & I3)
      end.
      rewrite !List.filter_app, !length_app in I1, I2. rewrite length_app in I3.
      simpl in I1, I2, I3. simpl. lia.
Qed.

Lemma runUpdate_spawns disk :
  map spawnedCommand (spawnedOf (runUpdate httpGetTree token spawnStatus disk))
  = map commandOf
      (omap (pendingFor httpGetTree token (readSkillLockTyped disk))
            (skillNamesOf (readSkillLockTyped disk))).
Proof.
  unfold runUpdate. set (lock := readSkillLockTyped disk).
  destruct (length (skillNamesOf lock) =? 0) eqn:Hz.
  - apply Nat.eqb_eq, nil_length_inv in Hz. now rewrite Hz.
  - rewrite collectUpdates_shape. cbn [app].
    pose proof (pending_bounded lock (skillNamesOf lock)) as Hb.
    destruct (0 + length (omap (filedUnder lock) (skillNamesOf lock)) =? 0) eqn:Hc.
    + apply Nat.eqb_eq in Hc.
      destruct (omap (pendingFor httpGetTree token lock) (skillNamesOf lock));
        [reflexivity | simpl in Hb; lia].
    + destruct (length (omap (pendingFor httpGetTree token lock) (skillNamesOf lock))
                =? 0) eqn:Hu.
      * apply Nat.eqb_eq, nil_length_inv in Hu. now rewrite Hu.
      * pose proof (applyUpdates_commands spawnStatus
                      (omap (pendingFor httpGetTree token lock) (skillNamesOf lock))
                      [] 0 0) as Hcmd.
        destruct (applyUpdates spawnStatus _ [] 0 0) as [[ran sc] fc].
        exact Hcmd.
Qed.

End Spawning.

(** X7. [update] starts one reinstall for each skill that [check]
    reports as having an update, and for no other skill: the names are the
    same, each as often, whatever the reinstalls return. *)
Theorem update_reinstalls_what_check_reports
    (spawnStatus : list (list string) -> list string -> option Z) (disk : Disk) :
  map spawnedFor (spawnedOf (runUpdate httpGetTree token spawnStatus disk))
  ≡ₚ map updateName (updatesOf (runCheck httpGetTree token disk)).
Proof.
  set (lock := readSkillLockTyped disk).
  assert (Hs : map spawnedFor (spawnedOf (runUpdate httpGetTree token spawnStatus disk))
               = map pendingName
                   (omap (pendingFor httpGetTree token lock) (skillNamesOf lock))).
  { pose proof (runUpdate_spawns spawnStatus disk) as H.
    apply (f_equal (map fst)) in H. rewrite !map_map in H. exact H. }
  rewrite Hs, pending_names.
  destruct (runCheck_visits httpGetTree token disk) as (visited & Hperm & ->).
  fold lock. fold lock in Hperm.
  destruct (length (skillNamesOf lock) =? 0) eqn:Hz.
  { apply Nat.eqb_eq, nil_length_inv in Hz. now rewrite Hz. }
  destruct (_ - _ =? 0) eqn:Hk.
  - apply Nat.eqb_eq in Hk.
    pose proof (length_filedUnder lock (skillNamesOf lock)
                  (fun n Hn => proj1 (elem_of_skillNamesOf lock n) Hn)) as Hlen.
    fold (skippedTotal lock) in Hlen.
    pose proof (List.filter_length_le (skippedName lock) (skillNamesOf lock)) as Hle.
    fold (skippedTotal lock) in Hle.
    destruct (omap (filedUnder lock) (skillNamesOf lock)); [reflexivity|].
    simpl in Hlen. lia.
  - simpl. now rewrite Hperm.
Qed.

(** X8. The reinstalls that [update] runs do not depend on how earlier
    ones ended: a failure stops nothing.  Every reinstall is counted as a
    success or as a failure, a success being an exit status of 0. *)
Theorem runUpdate_failure_stops_nothing
    (spawnStatus spawnStatus' : list (list string) -> list string -> option Z)
    (disk : Disk) :
  map spawnedCommand (spawnedOf (runUpdate httpGetTree token spawnStatus disk))
  = map spawnedCommand (spawnedOf (runUpdate httpGetTree token spawnStatus' disk))
  /\ forall ran successCount failCount,
       runUpdate httpGetTree token spawnStatus disk = Applied ran successCount failCount ->
       successCount = length (List.filter spawnedOk ran)
       /\ failCount = length (List.filter (fun s => negb (spawnedOk s)) ran)
       /\ successCount + failCount = length ran
       /\ 0 < length ran.
Proof.
  split; [now rewrite !runUpdate_spawns|].
  intros ran sc fc. unfold runUpdate.
  destruct (length _ =? 0); [discriminate|].
  destruct (collectUpdates _ _ _ _ [] 0) as [updates checked].
  destruct (checked =? 0); [discriminate|].
  destruct (length updates =? 0) eqn:Hu; [discriminate|].
  apply Nat.eqb_neq in Hu.
  pose proof (applyUpdates_counts spawnStatus updates [] 0 0) as (H1 & H2 & H3).
  destruct (applyUpdates spawnStatus updates [] 0 0) as [[ran' sc'] fc'].
  simpl in H1, H2, H3. intros [= <- <- <-].
  pose proof (List.filter_length spawnedOk ran') as Hsum.
  lia.
Qed.

End Reinstalls.

Lemma runUpdate_failure_stops_nothing_witness :
  Cli.runUpdate twoBranches None alwaysFails diskWithA
  = Cli.Applied
      [ {| Cli.spawnedFor := "a"; Cli.spawnedArgs := Cli.spawnedArgs updateOfA;
           Cli.spawnedOk := false |} ] 0 1
  /\ map spawnedCommand (spawnedOf (Cli.runUpdate twoBranches None alwaysFails diskWithA))
     = map spawnedCommand (spawnedOf (Cli.runUpdate twoBranches None alwaysOk diskWithA))
  /\ 0 + 1 = 1.
Proof.
  split; [reflexivity|].
  destruct (runUpdate_failure_stops_nothing twoBranches None alwaysFails alwaysOk diskWithA)
    as [Hsame Hcount].
  split; [exact Hsame|].
  now destruct (Hcount _ 0 1 eq_refl) as (_ & _ & H & _).
Defined.

(** ** Names that are already sanitized *)
Section InstalledNames.

Import JsString Installer.

Lemma spaced_fixed l : forall b, spaced b l -> replaceDisallowed b l = l.
Proof.
  induction l as [|c tl IH]; intros b; simpl; [reflexivity|].
  destruct (allowedChar c).
  - intros H. now rewrite IH.
  - intros (-> & -> & H). now rewrite IH.
Qed.

Lemma replaceDisallowed_spaced l : forall b, spaced b (replaceDisallowed b l).
Proof.
  induction l as [|c tl IH]; intros b; simpl; [exact I|].
  destruct (allowedChar c) eqn:Hc; simpl.
  - rewrite Hc. apply IH.
  - destruct b; [apply IH|]. simpl. split; [reflexivity|]. split; [reflexivity | apply IH].
Qed.

Lemma spaced_weaken l b : spaced b l -> spaced false l.
Proof.
  destruct l as [|c tl]; simpl; [tauto|].
  destruct (allowedChar c); [tauto|]. now intros (-> & _ & H).
Qed.

Lemma spaced_suffix k : forall b l, spaced b (k ++ l) -> spaced false l.
Proof.
  induction k as [|c tl IH]; intros b l; simpl; [apply spaced_weaken|].
  destruct (allowedChar c); [apply IH|]. intros (_ & _ & H). now apply IH in H.
Qed.

Lemma spaced_prefix k : forall b l, spaced b (k ++ l) -> spaced b k.
Proof.
  induction k as [|c tl IH]; intros b l; simpl; [tauto|].
  destruct (allowedChar c); [apply IH|].
  intros (H1 & H2 & H). split; [exact H1|]. split; [exact H2|]. now apply IH in H.
Qed.

Lemma trimDotsHyphens_spaced l : spaced false l -> spaced false (trimDotsHyphens l).
Proof.
  intros H. destruct (trimDotsHyphens_prefix l) as [k Hk].
  destruct (dropWhile_suffix dotOrHyphen l) as [j Hj].
  rewrite Hj in H. apply spaced_suffix in H. rewrite Hk in H.
  now apply spaced_prefix in H.
Qed.

Lemma dropWhile_fixed p l :
  (forall c, head l = Some c -> p c = false) -> dropWhile p l = l.
Proof.
  destruct l as [|c tl]; simpl; [reflexivity|].
  intros H. now rewrite (H c eq_refl).
Qed.

Lemma trimDotsHyphens_fixed l :
  (forall c, head l = Some c -> dotOrHyphen c = false) ->
  (forall c, last l = Some c -> dotOrHyphen c = false) ->
  trimDotsHyphens l = l.
Proof.
  intros Hh Hl. unfold trimDotsHyphens.
  rewrite (dropWhile_fixed _ l Hh), dropWhile_fixed; [apply reverse_involutive|].
  intros c. rewrite head_reverse. apply Hl.
Qed.

Lemma lowerAscii_nameChar c : nameChar c -> lowerAscii c = c.
Proof.
  intros [H | ->]; [|reflexivity].
  destruct c as [[] [] [] [] [] [] [] []]; try reflexivity; discriminate H.
Qed.

Lemma toLowerCaseAscii_fixesNames : fixesNames toLowerCaseAscii.
Proof.
  intros s H. unfold toLowerCaseAscii. rewrite <- (str_chars s) at 2. f_equal.
  induction H as [|c l Hc _ IH]; simpl; [reflexivity|].
  now rewrite (lowerAscii_nameChar c Hc), IH.
Qed.

Variable toLowerCase : string -> string.
Hypothesis toLowerCase_fixes : fixesNames toLowerCase.

(** What [sanitizeName] returns for a name that needs no cut is left
    alone by the three steps before the cut. *)
Lemma sanitized_fixed name :
  sanitized toLowerCase (sanitized toLowerCase name) = sanitized toLowerCase name.
Proof.
  unfold sanitized.
  set (t := trimDotsHyphens (replaceDisallowed false (chars (toLowerCase name)))).
  assert (Ht : Forall nameChar t)
    by apply trimDotsHyphens_chars, replaceDisallowed_chars.
  assert (Hs : spaced false t)
    by apply trimDotsHyphens_spaced, replaceDisallowed_spaced.
  rewrite toLowerCase_fixes by now rewrite chars_str.
  rewrite chars_str, (spaced_fixed t false Hs). f_equal.
  apply trimDotsHyphens_fixed; [apply trimDotsHyphens_head | apply trimDotsHyphens_last].
Qed.

Lemma sanitizeName_fixed name :
  length (chars (sanitized toLowerCase name)) <= 255 ->
  sanitizeName toLowerCase (sanitizeName toLowerCase name)
  = sanitizeName toLowerCase name.
Proof.
  intros Hlen.
  assert (E : sanitizeName toLowerCase name
              = if truthy (sanitized toLowerCase name)
                then sanitized toLowerCase name else "unnamed-skill").
  { unfold sanitizeName, substring0. rewrite take_ge by exact Hlen.
    now rewrite str_chars. }
  rewrite E. destruct (truthy (sanitized toLowerCase name)) eqn:Ht.
  - unfold sanitizeName, substring0. rewrite sanitized_fixed.
    rewrite take_ge by exact Hlen. now rewrite str_chars, Ht.
  - unfold sanitizeName, sanitized, substring0.
    rewrite toLowerCase_fixes; [reflexivity|].
    cbv [chars String.list_ascii_of_string].
    repeat (apply List.Forall_cons;
            [first [left; reflexivity | right; reflexivity]|]).
    apply List.Forall_nil.
Qed.

(** X9. [sanitizeName] leaves alone a name it has produced without
    cutting anything off: the directory name of an installed skill is its
    own sanitized form. *)
Theorem sanitizeName_idempotent_when_not_cut (name : string) :
  length (chars (sanitized toLowerCase name)) <= 255 ->
  sanitizeName toLowerCase (sanitizeName toLowerCase name)
  = sanitizeName toLowerCase name.
Proof. apply sanitizeName_fixed. Qed.

End InstalledNames.

Lemma sanitizeName_idempotent_when_not_cut_witness :
  Installer.sanitizeName JsString.toLowerCaseAscii
    (Installer.sanitizeName JsString.toLowerCaseAscii "My Cool Skill!")
  = Installer.sanitizeName JsString.toLowerCaseAscii "My Cool Skill!".
Proof.
  apply (sanitizeName_idempotent_when_not_cut
           JsString.toLowerCaseAscii toLowerCaseAscii_fixesNames "My Cool Skill!").
  vm_compute. lia.
Defined.

(** ** [removeCommand] *)
Section Removal.

Import JsString Installer.

Variable P : PathApi.
Variable toLowerCase : string -> string.
Variable fsError : list FsOp -> FsOp -> option string.
Variable lockWriteError : SkillLock.SkillLockFile -> option string.
Variable multiselect : list string -> option (list string).
Variable DEFAULT_SKILLS_DIR : string.

Local Abbreviation removeOne := (Remove.removeOne P toLowerCase fsError lockWriteError).
Local Abbreviation removeEach := (Remove.removeEach P toLowerCase fsError lockWriteError).
Local Abbreviation lookupIn w n := (SkillLock.getSkillFromLock n (Remove.lockFile w)).

Lemma removeOne_spec dir n w :
  let out := removeOne dir n w in
  Remove.resultSkill out.2 = n
  /\ (exists ops, Remove.issued out.1 = Remove.issued w ++ ops
                  /\ Forall (removalOf P toLowerCase dir n) ops)
  /\ (forall m, m <> n -> lookupIn out.1 m = lookupIn w m)
  /\ (Remove.resultSuccess out.2 = true -> lookupIn out.1 n = None)
  /\ (Remove.resultSuccess out.2 = false -> Remove.lockFile out.1 = Remove.lockFile w)
  /\ (forall m, lookupIn w m = None -> lookupIn out.1 m = None).
Proof.
  unfold Remove.removeOne, InstallerQueries.getInstallPath.
  destruct (isPathSafe P dir (join P dir (sanitizeName toLowerCase n))) eqn:Hsafe;
    cbn [negb].
  - unfold perform. 
    destruct (fsError (Remove.issued w) (Rm (join P dir (sanitizeName toLowerCase n))))
      as [msg|].
    + cbn. split; [reflexivity|]. split.
      * eexists. split; [reflexivity|]. apply Forall_singleton. now split.
      * repeat split; auto. discriminate.
    + pose proof (removeSkillFromLock_lookup n (Remove.lockFile w)) as (L1 & L2 & _ & L4).
      destruct (SkillLock.removeSkillFromLock n (Remove.lockFile w)) as [written removed].
      cbn [fst snd] in L1, L2, L4.
      assert (Hops : exists ops,
                 Remove.issued w ++ [Rm (join P dir (sanitizeName toLowerCase n))]
                 = Remove.issued w ++ ops
                 /\ Forall (removalOf P toLowerCase dir n) ops).
      { eexists. split; [reflexivity|]. apply Forall_singleton. now split. }
      destruct (if removed then written ≫= lockWriteError else None) as [msg|]; cbn.
      * split; [reflexivity|]. split; [exact Hops|]. repeat split; auto. discriminate.
      * split; [reflexivity|]. split; [exact Hops|]. split; [exact L2|].
        split; [intros _; exact L1|]. split; [discriminate|].
        intros m Hm. destruct (decide (m = n)) as [->|Hne]; [exact L1|].
        now rewrite L2.
  - cbn. split; [reflexivity|]. split.
    + exists []. split; [now rewrite app_nil_r | constructor].
    + repeat split; auto. discriminate.
Qed.

Lemma removeEach_spec dir selected : forall w results,
  let out := removeEach dir selected w results in
  map Remove.resultSkill out.2 = map Remove.resultSkill results ++ selected
  /\ (exists ops, Remove.issued out.1 = Remove.issued w ++ ops
        /\ Forall (fun op => exists n, n ∈ selected /\ removalOf P toLowerCase dir n op)
                  ops)
  /\ (forall m, m ∉ selected -> lookupIn out.1 m = lookupIn w m)
  /\ (forall r, r ∈ out.2 ->
        r ∈ results
        \/ (Remove.resultSuccess r = true -> lookupIn out.1 (Remove.resultSkill r) = None))
  /\ (forall m, lookupIn w m = None -> lookupIn out.1 m = None).
Proof.
  induction selected as [|n rest IH]; intros w results.
  - cbn. split; [now rewrite app_nil_r|]. split.
    + exists []. split; [now rewrite app_nil_r | constructor].
    + repeat split; auto.
  - cbn [Remove.removeEach].
    pose proof (removeOne_spec dir n w) as (S1 & (ops1 & S2 & S2') & S3 & S4 & _ & S6).
    destruct (removeOne dir n w) as [w1 r1]. cbn [fst snd] in S1, S2, S3, S4, S6.
    destruct (IH w1 (results ++ [r1])) as (I1 & (ops & I2 & I2') & I3 & I4 & I5).
    split; [|split; [|split; [|split]]].
    + rewrite I1, map_app, <- app_assoc. simpl. now rewrite S1.
    + exists (ops1 ++ ops). split; [now rewrite I2, S2, app_assoc|].
      apply Forall_app. split.
      * eapply Forall_impl; [exact S2'|]. intros op Hop. exists n.
        split; [apply list_elem_of_here | exact Hop].
      * eapply Forall_impl; [exact I2'|]. intros op (m & Hm & Hop). exists m.
        split; [now apply list_elem_of_further | exact Hop].
    + intros m Hm. apply not_elem_of_cons in Hm as [Hne Hm].
      now rewrite (I3 m Hm), (S3 m Hne).
    + intros r Hr. destruct (I4 r Hr) as [Hin | Hok]; [|now right].
      apply elem_of_app in Hin as [Hin | Hin]; [now left|].
      apply list_elem_of_singleton in Hin as ->. right. intros Hs.
      apply I5. rewrite S1. now apply S4.
    + intros m Hm. now apply I5, S6.
Qed.

(** X10. Asked for names none of which is, up to case, an installed
    skill, and without [--all], [removeCommand] changes nothing: it issues
    no file operation, leaves the lock file alone and ends by reporting
    that nothing is installed or that nothing matches. *)
Theorem removeCommand_unknown_names_change_nothing
    (installedSkills skillNames : list string) (options : Remove.RemoveOptions)
    (w : Remove.World) :
  Remove.all options = false ->
  skillNames <> [] ->
  noneInstalled toLowerCase installedSkills skillNames ->
  Remove.removeCommand P toLowerCase fsError lockWriteError multiselect
    DEFAULT_SKILLS_DIR installedSkills skillNames options w
  = (w, match installedSkills with
        | [] => Remove.NothingInstalled
        | _ :: _ => Remove.NoMatching skillNames
        end).
Proof.
  intros Hall Hnames Hnone. unfold Remove.removeCommand, Remove.selectForRemoval.
  destruct installedSkills as [|s0 rest]; [reflexivity|].
  cbn [length Nat.eqb]. rewrite Hall.
  destruct skillNames as [|n0 names]; [congruence|]. cbn [length Nat.ltb Nat.leb].
  assert (E : List.filter (Remove.requestedBy toLowerCase (n0 :: names)) (s0 :: rest) = []).
  { induction (s0 :: rest) as [|s l IH]; [reflexivity|]. cbn [List.filter].
    assert (Hs : Remove.requestedBy toLowerCase (n0 :: names) s = false).
    { apply not_true_iff_false. intros H. apply existsb_exists in H as (n & Hn & He).
      apply String.eqb_eq in He. apply list_elem_of_In in Hn.
      apply (Hnone n s Hn); [apply list_elem_of_here | exact He]. }
    rewrite Hs. apply IH. intros n s' Hn Hs'. apply Hnone; [exact Hn|].
    now apply list_elem_of_further. }
  now rewrite E.
Qed.

(** X11. [removeCommand] knows a skill by the name of its directory.
    When it gets to removing, every selected directory name gets a result,
    in order, whatever happened to the ones before it; the only file
    operations are removals of the selected directories inside the target
    directory; the lock file holds no entry under the directory name of a
    skill reported as removed; and the entry under any name that is not a
    selected directory name is as it was.  That includes the entry [add]
    has recorded under the skill's own name when the directory, named by
    [sanitizeName], is called otherwise: such an entry outlives the
    removal, see [removeCommand_keeps_the_entry_under_the_skill_name]. *)
Theorem removeCommand_removes_only_the_selected
    (installedSkills skillNames : list string) (options : Remove.RemoveOptions)
    (w w' : Remove.World) (results : list Remove.RemoveResult) :
  Remove.removeCommand P toLowerCase fsError lockWriteError multiselect
    DEFAULT_SKILLS_DIR installedSkills skillNames options w
  = (w', Remove.Removed results) ->
  exists selected ops,
    Remove.selectForRemoval toLowerCase multiselect installedSkills skillNames options
    = inr selected
    /\ map Remove.resultSkill results = selected
    /\ Remove.issued w' = Remove.issued w ++ ops
    /\ Forall (fun op => exists n, n ∈ selected
                 /\ removalOf P toLowerCase (removalDir DEFAULT_SKILLS_DIR options) n op)
              ops
    /\ (forall r, r ∈ results -> Remove.resultSuccess r = true ->
          SkillLock.getAllLockedSkills (Remove.lockFile w') !! Remove.resultSkill r
          = None)
    /\ (forall m, m ∉ selected ->
          SkillLock.getAllLockedSkills (Remove.lockFile w') !! m
          = SkillLock.getAllLockedSkills (Remove.lockFile w) !! m).
Proof.
  unfold Remove.removeCommand. fold (removalDir DEFAULT_SKILLS_DIR options).
  destruct (Remove.selectForRemoval _ _ _ _ _) as [early|selected] eqn:Hsel.
  - intros [= <- ->]. unfold Remove.selectForRemoval in Hsel.
    destruct (length installedSkills =? 0); [discriminate|].
    destruct (Remove.all options); [discriminate|].
    destruct (0 <? length skillNames).
    + destruct (length _ =? 0); discriminate.
    + destruct (multiselect installedSkills); discriminate.
  - pose proof (removeEach_spec (removalDir DEFAULT_SKILLS_DIR options) selected w [])
      as (I1 & (ops & I2 & I2') & I3 & I4 & _).
    destruct (removeEach _ selected w []) as [w1 rs]. cbn [fst snd] in *.
    intros [= <- <-]. exists selected, ops.
    split; [reflexivity|]. split; [exact I1|]. split; [exact I2|].
    split; [exact I2'|]. split; [|exact I3].
    intros r Hr Hs. destruct (I4 r Hr) as [Hin | Hok]; [|now apply Hok].
    now apply elem_of_nil in Hin.
Qed.

End Removal.

Lemma removeCommand_unknown_names_change_nothing_witness :
  Remove.removeCommand (Installer.posix "/home/u") JsString.toLowerCaseAscii
    Installer.neverFails lockWritable chooseNothing "/home/u/.agents/skills"
    ["a"; "b"] ["missing"] removeNamed (freshWorld diskWithAB)
  = (freshWorld diskWithAB, Remove.NoMatching ["missing"]).
Proof.
  apply (removeCommand_unknown_names_change_nothing
           (Installer.posix "/home/u") JsString.toLowerCaseAscii Installer.neverFails
           lockWritable chooseNothing "/home/u/.agents/skills"
           ["a"; "b"] ["missing"] removeNamed (freshWorld diskWithAB)).
  - reflexivity.
  - discriminate.
  - intros name s Hn Hs. apply list_elem_of_singleton in Hn as ->.
    apply elem_of_cons in Hs as [->|Hs]; [discriminate|].
    apply list_elem_of_singleton in Hs as ->. discriminate.
Defined.

Lemma removeCommand_removes_only_the_selected_witness :
  exists w' results,
    Remove.removeCommand (Installer.posix "/home/u") JsString.toLowerCaseAscii
      Installer.neverFails lockWritable chooseNothing "/home/u/.agents/skills"
      ["a"; "b"] ["A"] removeNamed (freshWorld diskWithAB)
    = (w', Remove.Removed results)
    /\ map Remove.resultSkill results = ["a"]
    /\ Remove.issued w' = [Installer.Rm "/skills/a"]
    /\ SkillLock.getAllLockedSkills (Remove.lockFile w') !! "a" = None
    /\ SkillLock.getAllLockedSkills (Remove.lockFile w') !! "b" = Some firstInstall.
Proof.
  eexists _, _. split; [reflexivity|].
  destruct (removeCommand_removes_only_the_selected
              (Installer.posix "/home/u") JsString.toLowerCaseAscii
              Installer.neverFails lockWritable chooseNothing "/home/u/.agents/skills"
              ["a"; "b"] ["A"] removeNamed (freshWorld diskWithAB) _ _ eq_refl)
    as (selected & ops & Hsel & Hres & Hops & _ & Hgone & Hkept).
  injection Hsel as <-.
  split; [exact Hres|]. split; [reflexivity|]. split.
  - apply (Hgone {| Remove.resultSkill := "a"; Remove.resultSuccess := true;
                    Remove.resultSource := Some "o/r";
                    Remove.resultSourceType := Some "github";
                    Remove.resultError := None |});
      [apply list_elem_of_here | reflexivity].
  - rewrite (Hkept "b"); [reflexivity|].
    intros H. apply list_elem_of_singleton in H. discriminate.
Defined.

(** ** Finding again what was installed *)
Section InstalledDirectory.

Import JsString Installer.

Variable P : PathApi.
Variable toLowerCase : string -> string.
Variable fsError : list FsOp -> FsOp -> option string.
Variable lockWriteError : SkillLock.SkillLockFile -> option string.
Variable access : string -> bool.

(** X12. A skill installed under a name that needed no cut sits in a
    directory whose own name leads back to it: handed the directory's name,
    [getInstallPath] returns that directory, [isSkillInstalled] looks at
    it, and the body of the loop of [removeCommand] issues one operation,
    the removal of that directory. *)
Theorem installed_directory_is_found_again (name targetDir : string)
    (w : Remove.World) :
  fixesNames toLowerCase ->
  length (chars (sanitized toLowerCase name)) <= 255 ->
  isPathSafe P targetDir (installDirOf P toLowerCase targetDir name) = true ->
  let dirName := sanitizeName toLowerCase name in
  InstallerQueries.getInstallPath P toLowerCase dirName targetDir
  = Ok (installDirOf P toLowerCase targetDir name)
  /\ InstallerQueries.isSkillInstalled P toLowerCase access dirName targetDir
     = access (installDirOf P toLowerCase targetDir name)
  /\ Remove.issued
       (Remove.removeOne P toLowerCase fsError lockWriteError targetDir dirName w).1
     = Remove.issued w ++ [Rm (installDirOf P toLowerCase targetDir name)].
Proof.
  intros Hfix Hlen Hsafe dirName. unfold installDirOf in *.
  assert (E : InstallerQueries.getInstallPath P toLowerCase dirName targetDir
              = Ok (join P targetDir (sanitizeName toLowerCase name))).
  { unfold InstallerQueries.getInstallPath, dirName.
    rewrite (sanitizeName_fixed toLowerCase Hfix name Hlen). now rewrite Hsafe. }
  split; [exact E|]. split.
  - unfold InstallerQueries.isSkillInstalled, dirName.
    rewrite (sanitizeName_fixed toLowerCase Hfix name Hlen). now rewrite Hsafe.
  - unfold Remove.removeOne. rewrite E. unfold perform.
    destruct (fsError _ _); [reflexivity|].
    destruct (SkillLock.removeSkillFromLock dirName (Remove.lockFile w))
      as [written removed].
    now destruct (if removed then written ≫= lockWriteError else None).
Qed.

End InstalledDirectory.

Lemma installed_directory_is_found_again_witness :
  InstallerQueries.getInstallPath (Installer.posix "/home/u") JsString.toLowerCaseAscii
    "my-cool-skill" "/skills"
  = Installer.Ok "/skills/my-cool-skill"
  /\ Remove.issued
       (Remove.removeOne (Installer.posix "/home/u") JsString.toLowerCaseAscii
          Installer.neverFails lockWritable "/skills" "my-cool-skill"
          (freshWorld diskWithAB)).1
     = [Installer.Rm "/skills/my-cool-skill"].
Proof.
  destruct (installed_directory_is_found_again
              (Installer.posix "/home/u") JsString.toLowerCaseAscii
              Installer.neverFails lockWritable (fun _ => true)
              "My Cool Skill!" "/skills" (freshWorld diskWithAB)
              toLowerCaseAscii_fixesNames)
    as (Hpath & _ & Hrm).
  - vm_compute. lia.
  - reflexivity.
  - split; [exact Hpath | exact Hrm].
Defined.

(** ** How an install ends *)
Section InstallOutcome.

Import JsString Installer.

Variable P : PathApi.
Variable toLowerCase : string -> string.
Variable fsError : list FsOp -> FsOp -> option string.

Lemma returnsAfter_ret {A} (a : A) : returnsAfter [] (eq a) (ret a).
Proof. intros done. simpl. now rewrite app_nil_r. Qed.

Lemma returnsAfter_perform op : returnsAfter [op] (fun _ => True) (perform fsError op).
Proof. intros done. unfold perform. now destruct (fsError done op). Qed.

Lemma returnsAfter_bind {A B} ops ops' R R' (m : M A) (k : A -> M B) :
  returnsAfter ops R m -> (forall a, returnsAfter ops' R' (k a)) ->
  returnsAfter (ops ++ ops') R' (bind m k).
Proof.
  intros Hm Hk done. unfold bind. specialize (Hm done).
  destruct (m done) as [done1 [a|msg]]; [|exact I].
  destruct Hm as [-> _]. specialize (Hk a (done ++ ops)).
  destruct (k a (done ++ ops)) as [done2 [b|msg]]; [|exact I].
  destruct Hk as [-> Hb]. now rewrite app_assoc.
Qed.

Lemma returnsAfter_forEach {A} (opsOf : A -> list FsOp) (l : list A) (body : A -> M unit) :
  (forall x, returnsAfter (opsOf x) (fun _ => True) (body x)) ->
  returnsAfter (concat (map opsOf l)) (fun _ => True) (forEach l body).
Proof.
  intros Hb. induction l as [|x rest IH]; simpl.
  - intros done. simpl. now rewrite app_nil_r.
  - apply (returnsAfter_bind _ _ (fun _ => True)); [apply Hb | intros _; exact IH].
Qed.

Lemma returnsAfter_cleanAndCreateDirectory dir :
  returnsAfter [Rm dir; Mkdir dir] (fun _ => True) (cleanAndCreateDirectory fsError dir).
Proof.
  intros done. unfold cleanAndCreateDirectory, bind, tryCatch, perform, ret.
  destruct (fsError done (Rm dir)); destruct (fsError (done ++ [Rm dir]) (Mkdir dir));
    try exact I; now rewrite <- app_assoc.
Qed.

Lemma returnsAfter_writeSkillFile installDir file :
  returnsAfter (fileOps P installDir file) (fun _ => True)
    (writeSkillFile P fsError installDir file).
Proof.
  destruct file as [filePath fileContent]. unfold writeSkillFile, fileOps. cbn [fst snd].
  destruct (isPathSafe P installDir (join P installDir filePath)); cbn [negb].
  - apply (returnsAfter_bind _ _ (fun _ => True)); [|intros _; apply returnsAfter_perform].
    destruct (String.eqb _ installDir); cbn [negb].
    + intros done. simpl. now rewrite app_nil_r.
    + apply returnsAfter_perform.
  - intros done. simpl. now rewrite app_nil_r.
Qed.

Lemma throwsAtLast_ret {A} (a : A) : throwsAtLast fsError (ret a).
Proof. intros done. exact I. Qed.

Lemma throwsAtLast_perform op : notRm op -> throwsAtLast fsError (perform fsError op).
Proof.
  intros Hop done. unfold perform. destruct (fsError done op) as [msg|] eqn:E; [|exact I].
  exists [], op. rewrite app_nil_r. now repeat split.
Qed.

Lemma throwsAtLast_bind {A B} (m : M A) (k : A -> M B) :
  emits (fun _ => True) m ->
  throwsAtLast fsError m -> (forall a, throwsAtLast fsError (k a)) ->
  throwsAtLast fsError (bind m k).
Proof.
  intros He Hm Hk done. unfold bind. specialize (Hm done).
  destruct (He done) as (ops & E & _).
  destruct (m done) as [done1 [a|msg]]; [|exact Hm]. simpl in E. subst done1.
  specialize (Hk a (done ++ ops)).
  destruct (k a (done ++ ops)) as [done2 [b|msg]]; [exact I|].
  destruct Hk as (before & op & -> & Hop & Hmsg).
  exists (ops ++ before), op. rewrite !app_assoc in *. now repeat split.
Qed.

Lemma throwsAtLast_forEach {A} (l : list A) (body : A -> M unit) :
  (forall x, emits (fun _ => True) (body x)) ->
  (forall x, throwsAtLast fsError (body x)) ->
  throwsAtLast fsError (forEach l body).
Proof.
  intros He Hb. induction l as [|x rest IH]; simpl.
  - apply throwsAtLast_ret.
  - apply throwsAtLast_bind; [apply He | apply Hb | intros _; exact IH].
Qed.

Lemma emits_anything_perform op : emits (fun _ => True) (perform fsError op).
Proof. now apply emits_perform. Qed.

Lemma emits_anything_cleanAndCreateDirectory dir :
  emits (fun _ => True) (cleanAndCreateDirectory fsError dir).
Proof.
  unfold cleanAndCreateDirectory. apply emits_bind.
  - apply emits_tryCatch; [apply emits_anything_perform | intros _; apply emits_ret].
  - intros _. apply emits_anything_perform.
Qed.

Lemma throwsAtLast_cleanAndCreateDirectory dir :
  throwsAtLast fsError (cleanAndCreateDirectory fsError dir).
Proof.
  intros done. unfold cleanAndCreateDirectory, bind, tryCatch, perform, ret.
  destruct (fsError done (Rm dir));
    destruct (fsError (done ++ [Rm dir]) (Mkdir dir)) as [msg|] eqn:E; try exact I;
    exists [Rm dir], (Mkdir dir);
    (split; [now rewrite <- app_assoc | now split]).
Qed.

Lemma emits_anything_writeSkillFile installDir file :
  emits (fun _ => True) (writeSkillFile P fsError installDir file).
Proof.
  destruct file as [filePath fileContent]. unfold writeSkillFile.
  destruct (negb _); [apply emits_ret|].
  apply emits_bind; [|intros _; apply emits_anything_perform].
  destruct (negb _); [apply emits_anything_perform | apply emits_ret].
Qed.

Lemma throwsAtLast_writeSkillFile installDir file :
  throwsAtLast fsError (writeSkillFile P fsError installDir file).
Proof.
  destruct file as [filePath fileContent]. unfold writeSkillFile.
  destruct (negb _); [apply throwsAtLast_ret|].
  apply throwsAtLast_bind; [| |intros _; now apply throwsAtLast_perform].
  - destruct (negb _); [apply emits_anything_perform | apply emits_ret].
  - destruct (negb _); [now apply throwsAtLast_perform | apply throwsAtLast_ret].
Qed.

(** The [try] block of an install with its [catch]. *)
Lemma guarded_outcome dir ops (body : M InstallResult) done :
  returnsAfter ops (eq (succeeded dir)) body -> throwsAtLast fsError body ->
  let out := tryCatch body (fun msg => ret (failed dir msg)) done in
  out = (done ++ ops, Ok (succeeded dir))
  \/ exists msg, out.2 = Ok (failed dir msg) /\ endsWithThrow fsError done out.1 msg.
Proof.
  intros Hy Ht. unfold tryCatch. specialize (Hy done). specialize (Ht done).
  destruct (body done) as [done1 [r|msg]].
  - left. destruct Hy as [-> <-]. reflexivity.
  - right. exists msg. split; [reflexivity | exact Ht].
Qed.

Ltac install_body :=
  repeat first
    [ apply emits_anything_cleanAndCreateDirectory
    | apply throwsAtLast_cleanAndCreateDirectory
    | apply emits_anything_perform
    | apply throwsAtLast_ret
    | (apply throwsAtLast_perform; exact I)
    | apply throwsAtLast_bind
    | intros _ ].

(** X14. [installRemoteSkill] and [installWellKnownSkill], which await
    one operation at a time, never throw for a directory that passes the
    path check.  Either they report success after issuing, in this order,
    the removal of the directory, its creation and the writes; or they
    report failure, and then the last operation issued is the one that
    threw, it is not the removal that starts the install, and the message
    reported is the one thrown. *)
Theorem install_ends_at_the_first_failure (targetDir : string) (done : list FsOp) :
  (forall skill,
        let dir := installDirOf P toLowerCase targetDir (installName skill) in
        let out := installRemoteSkill P toLowerCase fsError skill targetDir done in
        isPathSafe P targetDir dir = true ->
        out = (done ++ [Rm dir; Mkdir dir;
                        WriteFile (join P dir "SKILL.md") (content skill)],
               Ok (succeeded dir))
        \/ exists msg, out.2 = Ok (failed dir msg)
                       /\ endsWithThrow fsError done out.1 msg)
  /\ (forall skill,
        let dir := installDirOf P toLowerCase targetDir (wkInstallName skill) in
        let out := installWellKnownSkill P toLowerCase fsError skill targetDir done in
        isPathSafe P targetDir dir = true ->
        out = (done ++ [Rm dir; Mkdir dir]
                    ++ concat (map (fileOps P dir) (files skill)),
               Ok (succeeded dir))
        \/ exists msg, out.2 = Ok (failed dir msg)
                       /\ endsWithThrow fsError done out.1 msg).
Proof.
  split; intros skill dir out Hsafe; subst out.
  - unfold installRemoteSkill.
    fold (installDirOf P toLowerCase targetDir (installName skill)). fold dir.
    rewrite Hsafe. cbn [negb].
    apply (guarded_outcome dir
             ([Rm dir; Mkdir dir]
              ++ [WriteFile (join P dir "SKILL.md") (content skill)] ++ [])).
    + apply (returnsAfter_bind _ _ (fun _ => True)); [apply returnsAfter_cleanAndCreateDirectory|].
      intros _. apply (returnsAfter_bind _ _ (fun _ => True)); [apply returnsAfter_perform|].
      intros _. apply returnsAfter_ret.
    + install_body.
  - unfold installWellKnownSkill.
    fold (installDirOf P toLowerCase targetDir (wkInstallName skill)). fold dir.
    rewrite Hsafe. cbn [negb].
    replace (done ++ [Rm dir; Mkdir dir] ++ concat (map (fileOps P dir) (files skill)))
      with (done ++ [Rm dir; Mkdir dir]
                 ++ concat (map (fileOps P dir) (files skill)) ++ [])
      by now rewrite app_nil_r.
    apply guarded_outcome.
    + apply (returnsAfter_bind _ _ (fun _ => True)); [apply returnsAfter_cleanAndCreateDirectory|].
      intros _. apply (returnsAfter_bind _ _ (fun _ => True)).
      * apply returnsAfter_forEach. intros file. apply returnsAfter_writeSkillFile.
      * intros _. apply returnsAfter_ret.
    + apply throwsAtLast_bind;
        [apply emits_anything_cleanAndCreateDirectory
        |apply throwsAtLast_cleanAndCreateDirectory|].
      intros _. apply throwsAtLast_bind.
      * apply emits_forEach. intros file. apply emits_anything_writeSkillFile.
      * apply throwsAtLast_forEach; intros file;
          [apply emits_anything_writeSkillFile | apply throwsAtLast_writeSkillFile].
      * intros _. apply throwsAtLast_ret.
Qed.

End InstallOutcome.

Lemma install_ends_at_the_first_failure_witness :
  Installer.installWellKnownSkill (Installer.posix "/home/u") JsString.toLowerCaseAscii
    Installer.neverFails nestedSkill "/skills" []
  = ([Installer.Rm "/skills/s"; Installer.Mkdir "/skills/s";
      Installer.WriteFile "/skills/s/SKILL.md" "a";
      Installer.Mkdir "/skills/s/docs";
      Installer.WriteFile "/skills/s/docs/guide.md" "b"],
     Installer.Ok (Installer.succeeded "/skills/s"))
  /\ exists msg,
       (Installer.installRemoteSkill (Installer.posix "/home/u")
          JsString.toLowerCaseAscii readOnly remoteS "/skills" []).2
       = Installer.Ok (Installer.failed "/skills/s" msg)
       /\ endsWithThrow readOnly []
            (Installer.installRemoteSkill (Installer.posix "/home/u")
               JsString.toLowerCaseAscii readOnly remoteS "/skills" []).1
            msg.
Proof.
  destruct (install_ends_at_the_first_failure
              (Installer.posix "/home/u") JsString.toLowerCaseAscii
              Installer.neverFails "/skills" [])
    as (_ & Hwk).
  destruct (install_ends_at_the_first_failure
              (Installer.posix "/home/u") JsString.toLowerCaseAscii
              readOnly "/skills" [])
    as (Hremote & _).
  split.
  - destruct (Hwk nestedSkill eq_refl) as [H | (msg & H & _)];
      [exact H | discriminate H].
  - destruct (Hremote remoteS eq_refl) as [H | H]; [discriminate H | exact H].
Defined.

(** ** Command-line arguments *)
Section Arguments.

Import JsString.

Lemma list_ind2 {A} (Q : list A -> Prop) :
  Q [] -> (forall x, Q [x]) -> (forall x y l, Q l -> Q (y :: l) -> Q (x :: y :: l)) ->
  forall l, Q l.
Proof.
  intros H0 H1 H2 l. enough (Q l /\ forall x, Q (x :: l)) by tauto.
  induction l as [|y l [IH1 IH2]]; [now split|].
  split; [apply IH2|]. intros x. now apply H2.
Qed.

Lemma isOneOf_true arg a b : AddFlow.isOneOf arg a b = true <-> arg = a \/ arg = b.
Proof.
  unfold AddFlow.isOneOf. now rewrite orb_true_iff, !String.eqb_eq.
Qed.

Lemma startsWith_head c s : startsWith (String c s) (String c "") = true.
Proof.
  unfold startsWith. apply bool_decide_eq_true. exists (chars s). reflexivity.
Qed.

Lemma plainArg_dash s : AddFlow.plainArg (String "-" s) = false.
Proof. unfold AddFlow.plainArg. now rewrite startsWith_head. Qed.

Lemma plainArg_true arg :
  AddFlow.plainArg arg = true <-> arg <> "" /\ forall s, arg <> String "-" s.
Proof.
  split.
  - intros H. split; [now intros ->|]. intros s ->. now rewrite plainArg_dash in H.
  - intros [Hne Hd]. unfold AddFlow.plainArg. destruct arg as [|c s]; [congruence|].
    simpl. apply negb_true_iff, bool_decide_eq_false. intros [k Hk].
    injection Hk as -> _. now apply (Hd s).
Qed.

Lemma plainArg_no_option arg a b :
  AddFlow.plainArg arg = true ->
  AddFlow.isOneOf arg (String "-" a) (String "-" b) = false.
Proof.
  intros H. apply plainArg_true in H as [_ H]. apply not_true_iff_false.
  rewrite isOneOf_true. intros [E|E]; now apply H in E.
Qed.

Lemma plainArg_not arg a : AddFlow.plainArg arg = true -> String.eqb arg (String "-" a) = false.
Proof.
  intros H. apply plainArg_true in H as [_ H]. apply String.eqb_neq. apply H.
Qed.

(** Where [parseAddOptions] leaves the target directory. *)
Lemma add_parseLoop_targetDir args : forall collecting source options,
  Add.targetDir (AddFlow.parsedOptions
                   (AddFlow.parseLoop args collecting source options))
  = ListCmd.parseLoop args (Add.targetDir options).
Proof.
  induction args as [| x | x y l IHl IHyl] using list_ind2;
    intros collecting source options.
  - reflexivity.
  - cbn [AddFlow.parseLoop ListCmd.parseLoop].
    destruct (AddFlow.isOneOf x "-d" "--target-dir") eqn:D.
    + apply isOneOf_true in D as [-> | ->]; rewrite plainArg_dash, andb_false_r;
        reflexivity.
    + destruct (collecting && AddFlow.plainArg x); [reflexivity|].
      repeat (match goal with
              | |- context [if ?c then _ else _] => destruct c; [reflexivity|]
              end).
      reflexivity.
  - cbn [AddFlow.parseLoop ListCmd.parseLoop].
    destruct (AddFlow.isOneOf x "-d" "--target-dir") eqn:D.
    + apply isOneOf_true in D as [-> | ->]; rewrite plainArg_dash, andb_false_r;
        cbn [AddFlow.isOneOf String.eqb Ascii.eqb Bool.eqb orb]; apply IHl.
    + destruct (collecting && AddFlow.plainArg x); [apply IHyl|].
      repeat (match goal with
              | |- context [if ?c then _ else _] => destruct c; [apply IHyl|]
              end).
      apply IHyl.
Qed.

Lemma remove_parseLoop_targetDir args : forall skills options,
  Remove.targetDir (Remove.parsedOptions (Remove.parseLoop args skills options))
  = ListCmd.parseLoop args (Remove.targetDir options).
Proof.
  induction args as [| x | x y l IHl IHyl] using list_ind2; intros skills options.
  - reflexivity.
  - cbn [Remove.parseLoop ListCmd.parseLoop].
    destruct (AddFlow.isOneOf x "-d" "--target-dir") eqn:D.
    + apply isOneOf_true in D as [-> | ->]; reflexivity.
    + destruct (String.eqb x "--all"); [reflexivity|].
      destruct (AddFlow.plainArg x); reflexivity.
  - cbn [Remove.parseLoop ListCmd.parseLoop].
    destruct (AddFlow.isOneOf x "-d" "--target-dir") eqn:D.
    + apply isOneOf_true in D as [-> | ->]; cbn [String.eqb Ascii.eqb Bool.eqb];
        apply IHl.
    + destruct (String.eqb x "--all"); [apply IHyl|].
      destruct (AddFlow.plainArg x); apply IHyl.
Qed.

(** X15. [add], [remove] and [list] read the target directory off the
    same arguments in the same way: whatever the other arguments are,
    [parseAddOptions], [parseRemoveOptions] and [parseListOptions] end with
    the same [targetDir], so the three commands work in the same
    directory. *)
Theorem parsers_agree_on_the_target_directory (args : list string)
    (DEFAULT_SKILLS_DIR : string) :
  Add.targetDir (AddFlow.parsedOptions (AddFlow.parseAddOptions args))
  = ListCmd.parseListOptions args
  /\ Remove.targetDir (Remove.parsedOptions (Remove.parseRemoveOptions args))
     = ListCmd.parseListOptions args
  /\ AddFlow.resolveTargetDir DEFAULT_SKILLS_DIR
       (AddFlow.parsedOptions (AddFlow.parseAddOptions args))
     = removalDir DEFAULT_SKILLS_DIR
         (Remove.parsedOptions (Remove.parseRemoveOptions args)).
Proof.
  assert (Ha := add_parseLoop_targetDir args false [] AddFlow.noOptions).
  assert (Hr := remove_parseLoop_targetDir args []
                  {| Remove.all := false; Remove.targetDir := None |}).
  split; [exact Ha|]. split; [exact Hr|].
  unfold AddFlow.resolveTargetDir, removalDir.
  fold (AddFlow.parseAddOptions args) in Ha.
  fold (Remove.parseRemoveOptions args) in Hr.
  now rewrite Ha, Hr.
Qed.

Lemma parseLoop_plain_source x rest source options :
  AddFlow.plainArg x = true ->
  AddFlow.parseLoop (x :: rest) false source options
  = AddFlow.parseLoop rest false (source ++ [x]) options.
Proof.
  intros Hx. cbn [AddFlow.parseLoop andb].
  rewrite !(plainArg_no_option x _ _ Hx), !(plainArg_not x _ Hx), Hx. reflexivity.
Qed.

Lemma parseLoop_collects names : forall source options,
  Forall (fun a => AddFlow.plainArg a = true) names ->
  AddFlow.parseLoop names true source options
  = {| AddFlow.parsedSource := source;
       AddFlow.parsedOptions :=
         if names is [] then options
         else {| Add.yes := Add.yes options;
                 Add.skill := Some (default [] (Add.skill options) ++ names);
                 Add.listOnly := Add.listOnly options; Add.all := Add.all options;
                 Add.fullDepth := Add.fullDepth options;
                 Add.targetDir := Add.targetDir options |} |}.
Proof.
  induction names as [|n rest IH]; intros source options Hall; [reflexivity|].
  apply Forall_cons in Hall as [Hn Hrest].
  cbn [AddFlow.parseLoop]. rewrite Hn. cbn [andb]. rewrite (IH _ _ Hrest).
  f_equal. destruct rest; [reflexivity|]. unfold AddFlow.pushSkill. cbn.
  now rewrite <- app_assoc.
Qed.

(** X16. What [runFind] hands to [runAdd] through [parseAddOptions]: the
    package is the source and the skill picked is the only name in the
    skill filter, as long as neither is empty or starts with a hyphen.  A
    skill name that is empty or starts with a hyphen is not taken for a
    name: the filter is then empty, as if no skill had been picked. *)
Theorem find_hands_the_skill_to_add (pkg : string) (names : list string)
    (skillName : string) :
  AddFlow.plainArg pkg = true ->
  (Forall (fun a => AddFlow.plainArg a = true) names -> names <> [] ->
     AddFlow.parseAddOptions (pkg :: "--skill" :: names)
     = {| AddFlow.parsedSource := [pkg]; AddFlow.parsedOptions := filterOnly names |})
  /\ (AddFlow.plainArg skillName = false ->
        AddFlow.parsedSource (AddFlow.parseAddOptions [pkg; "--skill"; skillName])
        = [pkg]
        /\ Add.skill (AddFlow.parsedOptions
                        (AddFlow.parseAddOptions [pkg; "--skill"; skillName]))
           = Some []).
Proof.
  intros Hpkg. unfold AddFlow.parseAddOptions.
  rewrite !(parseLoop_plain_source pkg _ _ _ Hpkg). split.
  - intros Hnames Hne. cbn [AddFlow.parseLoop]. cbn.
    rewrite (parseLoop_collects names _ _ Hnames). destruct names; [congruence|].
    reflexivity.
  - intros Hskill. cbn [AddFlow.parseLoop]. cbn. rewrite Hskill. cbn.
    repeat (match goal with
            | |- context [if ?c then _ else _] => destruct c; [now split|]
            end).
    now split.
Qed.

Lemma parseLoop_keeps (J : string -> Prop) args : forall collecting source options,
  (forall a, a ∈ source \/ a ∈ default [] (Add.skill options) -> J a) ->
  (forall a, a ∈ args -> AddFlow.plainArg a = true -> J a) ->
  let r := AddFlow.parseLoop args collecting source options in
  forall a, a ∈ AddFlow.parsedSource r
            \/ a ∈ default [] (Add.skill (AddFlow.parsedOptions r)) -> J a.
Proof.
  induction args as [| x | x y l IHl IHyl] using list_ind2;
    intros collecting source options Hacc Hargs.
  - exact Hacc.
  - assert (Hx : AddFlow.plainArg x = true -> J x)
      by (apply Hargs, list_elem_of_here).
    cbn [AddFlow.parseLoop].
    destruct (collecting && AddFlow.plainArg x) eqn:C.
    + apply andb_true_iff in C as [_ C]. intros a. cbn.
      rewrite elem_of_app, list_elem_of_singleton.
      intros [H | [H | ->]]; [apply Hacc; now left | apply Hacc; now right | now apply Hx].
    + destruct (AddFlow.isOneOf x "-y" "--yes"); [exact Hacc|].
      destruct (AddFlow.isOneOf x "-l" "--list"); [exact Hacc|].
      destruct (String.eqb x "--all"); [exact Hacc|].
      destruct (AddFlow.isOneOf x "-d" "--target-dir"); [exact Hacc|].
      destruct (AddFlow.isOneOf x "-s" "--skill"); [exact Hacc|].
      destruct (String.eqb x "--full-depth"); [exact Hacc|].
      destruct (AddFlow.plainArg x) eqn:Px; [|exact Hacc].
      intros a. cbn. rewrite elem_of_app, list_elem_of_singleton.
      intros [[H | ->] | H]; [apply Hacc; now left | now apply Hx | apply Hacc; now right].
  - assert (Hx : AddFlow.plainArg x = true -> J x)
      by (apply Hargs, list_elem_of_here).
    assert (Hyl : forall a, a ∈ y :: l -> AddFlow.plainArg a = true -> J a)
      by (intros a Ha; apply Hargs; now apply list_elem_of_further).
    assert (Hl : forall a, a ∈ l -> AddFlow.plainArg a = true -> J a)
      by (intros a Ha; apply Hyl; now apply list_elem_of_further).
    cbn [AddFlow.parseLoop].
    destruct (collecting && AddFlow.plainArg x) eqn:C.
    + apply andb_true_iff in C as [_ C]. apply IHyl; [|exact Hyl]. intros a. cbn.
      rewrite elem_of_app, list_elem_of_singleton.
      intros [H | [H | ->]]; [apply Hacc; now left | apply Hacc; now right | now apply Hx].
    + destruct (AddFlow.isOneOf x "-y" "--yes"); [now apply IHyl|].
      destruct (AddFlow.isOneOf x "-l" "--list"); [now apply IHyl|].
      destruct (String.eqb x "--all"); [now apply IHyl|].
      destruct (AddFlow.isOneOf x "-d" "--target-dir"); [now apply IHl|].
      destruct (AddFlow.isOneOf x "-s" "--skill"); [now apply IHyl|].
      destruct (String.eqb x "--full-depth"); [now apply IHyl|].
      destruct (AddFlow.plainArg x) eqn:Px; [|now apply IHyl].
      apply IHyl; [|exact Hyl]. intros a. rewrite elem_of_app, list_elem_of_singleton.
      intros [[H | ->] | H]; [apply Hacc; now left | now apply Hx | apply Hacc; now right].
Qed.

(** X17. [parseAddOptions] never takes an option for a source or for a
    skill name: every source and every name of the skill filter is one of
    the arguments, is not empty and does not start with a hyphen. *)
Theorem parseAddOptions_takes_no_option_for_a_name (args : list string) (a : string) :
  a ∈ AddFlow.parsedSource (AddFlow.parseAddOptions args)
  \/ a ∈ default [] (Add.skill (AddFlow.parsedOptions (AddFlow.parseAddOptions args))) ->
  a ∈ args /\ a <> "" /\ forall s, a <> String "-" s.
Proof.
  intros H. rewrite <- plainArg_true.
  apply (parseLoop_keeps (fun a => a ∈ args /\ AddFlow.plainArg a = true)
           args false [] AddFlow.noOptions); [| |exact H].
  - intros b [Hb | Hb]; now apply elem_of_nil in Hb.
  - now intros b Hb Hp.
Qed.



Section AllFlag.

Context {Skill : Type}.
Variable filterSkills : list Skill -> list string -> list Skill.
Variable getSkillDisplayName : Skill -> string.
Variable multiselect : list Skill -> option (list Skill).
Variable toLowerCase : string -> string.
Variable multiselectWellKnown :
  list Installer.WellKnownSkill -> option (list Installer.WellKnownSkill).


End AllFlag.

End Arguments.

Lemma find_hands_the_skill_to_add_witness :
  AddFlow.parseAddOptions ["o/r"; "--skill"; "my skill"]
  = {| AddFlow.parsedSource := ["o/r"]; AddFlow.parsedOptions := filterOnly ["my skill"] |}
  /\ Add.skill (AddFlow.parsedOptions (AddFlow.parseAddOptions ["o/r"; "--skill"; "--all"]))
     = Some [].
Proof.
  destruct (find_hands_the_skill_to_add "o/r" ["my skill"] "--all" eq_refl)
    as [Hplain Hdash].
  split.
  - apply Hplain; [|discriminate]. repeat constructor.
  - now apply Hdash.
Defined.

Lemma parseAddOptions_takes_no_option_for_a_name_witness :
  "b" ∈ ["o/r"; "-y"; "-s"; "a"; "b"; "-d"; "-x"]
  /\ "b" <> "" /\ forall s, "b" <> String "-" s.
Proof.
  apply (parseAddOptions_takes_no_option_for_a_name
           ["o/r"; "-y"; "-s"; "a"; "b"; "-d"; "-x"] "b").
  right. vm_compute. apply list_elem_of_further, list_elem_of_here.
Defined.


(** ** Choosing among well-known skills *)
Section WellKnownSelection.

Import JsString Installer.

Variable toLowerCase : string -> string.
Variable multiselect : list WellKnownSkill -> option (list WellKnownSkill).

Lemma matchesRequested_spec names s :
  AddFlow.matchesRequested toLowerCase names s = true
  <-> requestedAs toLowerCase names s.
Proof.
  unfold AddFlow.matchesRequested, requestedAs. rewrite existsb_exists. split.
  - intros (name & Hin & H). exists name. apply list_elem_of_In in Hin.
    split; [exact Hin|]. now rewrite orb_true_iff, !String.eqb_eq in H.
  - intros (name & Hin & H). exists name. apply list_elem_of_In in Hin.
    split; [exact Hin|]. now rewrite orb_true_iff, !String.eqb_eq.
Qed.

Lemma filter_sublist {A} (f : A -> bool) (l : list A) : List.filter f l `sublist_of` l.
Proof.
  induction l as [|x l IH]; simpl; [constructor|].
  destruct (f x); now constructor.
Qed.

(** X19. Named skills of a well-known endpoint: without a '*' in the
    filter, [handleWellKnownSkills] selects, in the order of discovery, the
    skills whose install name or whose name is one of the requested names
    up to case, whatever the prompt would answer; when there is none it
    stops with status 1 after listing the install names. *)
Theorem wellKnown_skills_are_picked_by_either_name (options : Add.AddOptions)
    (skills : list WellKnownSkill) (names : list string) :
  ~ wildcard options -> explicitFilter options names ->
  exists selected,
    (forall s, s ∈ selected <-> s ∈ skills /\ requestedAs toLowerCase names s)
    /\ selected `sublist_of` skills
    /\ AddFlow.selectWellKnownSkills toLowerCase multiselect options skills
       = match selected with
         | [] => Add.NoMatch names (map wkInstallName skills)
         | _ :: _ => Add.Proceed selected
         end
    /\ (selected = [] ->
          Add.exitStatus
            (AddFlow.selectWellKnownSkills toLowerCase multiselect options skills)
          = Some 1).
Proof.
  intros Hw [Hs Hne].
  exists (List.filter (AddFlow.matchesRequested toLowerCase names) skills).
  assert (E : AddFlow.selectWellKnownSkills toLowerCase multiselect options skills
              = match List.filter (AddFlow.matchesRequested toLowerCase names) skills with
                | [] => Add.NoMatch names (map wkInstallName skills)
                | _ :: _ =>
                    Add.Proceed
                      (List.filter (AddFlow.matchesRequested toLowerCase names) skills)
                end).
  { unfold AddFlow.selectWellKnownSkills.
    rewrite Hs, (not_wildcard options names Hw Hs). cbn [default from_option id].
    destruct names as [|n names']; [congruence|]. cbn [length Nat.ltb Nat.leb].
    now destruct (List.filter _ skills). }
  split; [|split; [apply filter_sublist | split; [exact E|]]].
  - intros s. rewrite <- matchesRequested_spec, !list_elem_of_In.
    apply List.filter_In.
  - intros Hnil. rewrite E, Hnil. reflexivity.
Qed.

End WellKnownSelection.

Lemma wellKnown_skills_are_picked_by_either_name_witness :
  exists selected,
    wkAlpha ∈ selected /\ wkBeta ∈ selected
    /\ selected `sublist_of` [wkAlpha; wkBeta]
    /\ AddFlow.selectWellKnownSkills JsString.toLowerCaseAscii (fun _ => None)
         (filterOnly ["BETA"; "alpha skill"]) [wkAlpha; wkBeta]
       = match selected with
         | [] => Add.NoMatch ["BETA"; "alpha skill"] ["alpha"; "beta"]
         | _ :: _ => Add.Proceed selected
         end.
Proof.
  destruct (wellKnown_skills_are_picked_by_either_name
              JsString.toLowerCaseAscii (fun _ => None)
              (filterOnly ["BETA"; "alpha skill"]) [wkAlpha; wkBeta]
              ["BETA"; "alpha skill"])
    as (selected & Hmem & Hsub & Hsel & _).
  - intros (l & [= <-] & [H | [H | []]]); discriminate H.
  - split; [reflexivity | discriminate].
  - exists selected. split; [|split; [|split; [exact Hsub | exact Hsel]]].
    + apply Hmem. split; [apply list_elem_of_here|].
      exists "alpha skill". split; [|now right].
      apply list_elem_of_further, list_elem_of_here.
    + apply Hmem. split; [apply list_elem_of_further, list_elem_of_here|].
      exists "BETA". split; [apply list_elem_of_here | now left].
Defined.

(** ** What the add flows record *)
Section Recorded.

Import JsString SkillLock.

Variable httpGetTree : string -> list (string * string) -> option TreeResponse.
Variable sep : ascii.

Lemma addSkillToLock_stored now name entry disk e :
  getSkillFromLock name (addSkillToLock now name entry disk) = Some e ->
  sourceType e = newSourceType entry /\ skillPath e = newSkillPath entry
  /\ skillFolderHash e = newSkillFolderHash entry.
Proof.
  unfold getSkillFromLock, addSkillToLock. rewrite read_after_write. cbn [skills].
  unfold assign. destruct (skills (readSkillLockTyped disk) !! name) eqn:L.
  - rewrite lookup_insert_eq. now intros [= <-].
  - destruct (String.eqb name "__proto__").
    + rewrite L. discriminate.
    + rewrite lookup_insert_eq. now intros [= <-].
Qed.

Lemma skipped_without_path e : skillPath e = None -> Cli.skipped e = true.
Proof. unfold Cli.skipped. intros ->. now rewrite !orb_true_r. Qed.

Lemma skipped_without_hash e : skillFolderHash e = "" -> Cli.skipped e = true.
Proof. unfold Cli.skipped. intros ->. now rewrite orb_true_r. Qed.

Lemma skillFilesOf_values tempDir selected : forall skillFiles n p,
  AddFlow.skillFilesOf sep tempDir selected skillFiles !! n = Some p ->
  skillFiles !! n = Some p
  \/ (tempDir <> None /\ endsWith p "SKILL.md" = true).
Proof.
  induction selected as [|s rest IH]; intros skillFiles n p; cbn [AddFlow.skillFilesOf];
    [now left|].
  destruct (AddFlow.relativePathOf sep tempDir (Installer.path s)) as [rp|] eqn:E;
    [|apply IH].
  intros H. apply IH in H as [H | H]; [|now right].
  unfold AddFlow.assignPath in H.
  destruct (String.eqb (Installer.name s) "__proto__"); [now left|].
  destruct (decide (n = Installer.name s)) as [->|Hne].
  - rewrite lookup_insert_eq in H. injection H as ->. right.
    unfold AddFlow.relativePathOf in E.
    destruct tempDir as [t|]; [|discriminate]. split; [discriminate|].
    destruct (truthyOpt (Some t) && String.eqb _ _).
    + now injection E as <-.
    + destruct (truthyOpt (Some t) && startsWith _ _); [|discriminate].
      injection E as <-. apply endsWith_spec.
      exists (AddFlow.splitJoin sep
                (str (drop (String.length (default "" (Some t)) + 1)
                           (chars (Installer.path s))))
              +:+ "/").
      apply chars_inj. rewrite !chars_app. now rewrite <- app_assoc.
  - rewrite lookup_insert_ne in H by congruence. now left.
Qed.

Lemma fetchedHash_truthy ownerRepo p :
  AddFlow.fetchedHash httpGetTree ownerRepo p <> "" ->
  fetchSkillFolderHash httpGetTree ownerRepo p None
  = Some (AddFlow.fetchedHash httpGetTree ownerRepo p).
Proof.
  unfold AddFlow.fetchedHash.
  destruct (fetchSkillFolderHash httpGetTree ownerRepo p None) as [h|]; [|congruence].
  destruct (truthy h); congruence.
Qed.

(** X20. Of everything the add flows write to the lock file, only the
    entry of a skill found in a GitHub clone, recorded with the path of its
    manifest and with a fingerprint that could be fetched at that moment,
    will ever be looked at by [check] and [update].  The entries written
    for a direct URL, for a well-known endpoint, for a Mintlify site and
    for a local directory are always skipped. *)
Theorem only_fingerprinted_github_clones_are_checked (now name : string)
    (entry : NewEntry) (disk : Disk) (e : SkillLockEntry) :
  getAllLockedSkills (addSkillToLock now name entry disk) !! name = Some e ->
  (forall remoteSkill url,
     entry = AddFlow.remoteLockEntry httpGetTree remoteSkill url ->
     Cli.skipped e = true)
  /\ (forall sourceIdentifier s,
        entry = AddFlow.wellKnownLockEntry sourceIdentifier s -> Cli.skipped e = true)
  /\ (forall remoteSkill url,
        entry = AddFlow.mintlifyLockEntry remoteSkill url -> Cli.skipped e = true)
  /\ (forall parsedType parsedUrl normalizedSource tempDir selected s,
        entry = AddFlow.repoLockEntry httpGetTree parsedType parsedUrl normalizedSource
                  (AddFlow.skillFilesOf sep tempDir selected ∅) s ->
        Cli.skipped e = false ->
        parsedType = "github" /\ tempDir <> None
        /\ exists p h,
             skillPath e = Some p /\ endsWith p "SKILL.md" = true
             /\ fetchSkillFolderHash httpGetTree normalizedSource p None = Some h
             /\ h <> "" /\ skillFolderHash e = h).
Proof.
  intros Hstored. apply addSkillToLock_stored in Hstored as (Ht & Hp & Hh).
  split; [|split; [|split]].
  - intros r url ->. now apply skipped_without_path.
  - intros sid s ->. now apply skipped_without_path.
  - intros r url ->. now apply skipped_without_path.
  - intros pt pu ns tempDir selected s -> Hsk.
    apply skipped_false_iff in Hsk as (Hgh & Hhash & p & Hpath & Hne).
    cbn in Ht, Hp, Hh. rewrite Hpath in Hp. symmetry in Hp.
    rewrite Ht in Hgh. rewrite Hgh, Hp in Hh. cbn in Hh.
    destruct (truthy p) eqn:Tp; [|apply truthy_false in Tp; contradiction].
    cbn in Hh. split; [exact Hgh|].
    apply skillFilesOf_values in Hp as [Hp | [Htemp Hend]];
      [now rewrite lookup_empty in Hp|].
    split; [exact Htemp|]. exists p, (skillFolderHash e).
    split; [exact Hpath|]. split; [exact Hend|]. split; [|now split].
    rewrite Hh. apply fetchedHash_truthy. now rewrite <- Hh.
Qed.

Lemma length_chars s : String.length s = length (chars s).
Proof. induction s as [|c s IH]; simpl; [reflexivity | now rewrite IH]. Qed.

Lemma append_neq s c t : s +:+ String c t <> s.
Proof.
  intros H. apply (f_equal (fun x => length (chars x))) in H.
  rewrite chars_app in H. rewrite length_app in H. simpl in H. lia.
Qed.

Lemma backslashToSlash_fixed s : "\"%char ∉ chars s -> backslashToSlash s = s.
Proof.
  intros H. unfold backslashToSlash. rewrite <- (str_chars s) at 2. f_equal.
  induction (chars s) as [|c l IH]; [reflexivity|].
  apply not_elem_of_cons in H as [Hc Hl]. simpl. rewrite (IH Hl).
  destruct (Ascii.eqb c "\") eqn:E; [|reflexivity].
  apply Ascii.eqb_eq in E. congruence.
Qed.

(** X21. The path that [runAdd] records for a skill found in the clone
    at [tempDir/rel] is the folder of the skill, written with '/', followed
    by '/SKILL.md'.  From that path [fetchSkillFolderHash] gets back the
    folder it looks up in the tree, and [update] gets the folder it puts
    after '/tree/main/', provided the folder holds no backslash and does
    not end with '/'. *)
Theorem recorded_path_leads_back_to_the_folder (tempDir rel : string)
    (e : SkillLockEntry) :
  tempDir <> "" ->
  let folder := AddFlow.splitJoin sep rel in
  "\"%char ∉ chars folder ->
  endsWith folder "/" = false ->
  skillPath e = Some (folder +:+ "/SKILL.md") ->
  AddFlow.relativePathOf sep (Some tempDir) (tempDir +:+ String sep rel)
  = Some (folder +:+ "/SKILL.md")
  /\ folderPathOf (folder +:+ "/SKILL.md") = folder
  /\ Cli.installUrlOf e
     = stripSlashEnd (stripDotGit (sourceUrl e)) +:+ "/tree/main/" +:+ folder.
Proof.
  intros Htemp folder Hback Hslash Hpath.
  assert (Hend : endsWith (folder +:+ "/SKILL.md") "/SKILL.md" = true)
    by (apply endsWith_spec; now exists folder).
  assert (Hcut : sliceEnd (folder +:+ "/SKILL.md") 9 = folder)
    by apply (sliceEnd_app folder "/SKILL.md").
  split; [|split].
  - unfold AddFlow.relativePathOf. cbn [default from_option id truthyOpt].
    destruct (truthy tempDir) eqn:T; [|apply truthy_false in T; contradiction].
    cbn [andb].
    destruct (String.eqb (tempDir +:+ String sep rel) tempDir) eqn:E.
    { apply String.eqb_eq in E. now apply append_neq in E. }
    assert (Hstart : startsWith (tempDir +:+ String sep rel) (tempDir +:+ String sep "")
                     = true).
    { unfold startsWith. apply bool_decide_eq_true. exists (chars rel).
      rewrite !chars_app, <- app_assoc. reflexivity. }
    rewrite Hstart. do 2 f_equal. unfold folder. f_equal.
    rewrite length_chars, chars_app.
    replace (length (chars tempDir) + 1) with (length (chars tempDir ++ [sep]))
      by (rewrite length_app; reflexivity).
    change (chars (String sep rel)) with ([sep] ++ chars rel).
    rewrite app_assoc, drop_app_length. apply str_chars.
  - unfold folderPathOf.
    rewrite backslashToSlash_fixed.
    + now rewrite Hend, Hcut, Hslash.
    + rewrite chars_app. intros H. apply elem_of_app in H as [H | H]; [now apply Hback|].
      vm_compute in H. repeat (apply elem_of_cons in H as [H | H]; [discriminate|]).
      now apply elem_of_nil in H.
  - unfold Cli.installUrlOf. rewrite Hpath. cbn [truthyOpt default from_option id].
    destruct (truthy (folder +:+ "/SKILL.md")) eqn:T.
    + now rewrite Hend, Hcut, Hslash.
    + apply truthy_false in T. apply (f_equal chars) in T. rewrite chars_app in T.
      apply app_eq_nil in T as [_ T]. discriminate T.
Qed.

(** X22. [getGitHubToken] never returns an empty token.  [GITHUB_TOKEN]
    goes before [GH_TOKEN], which goes before the [gh] command, an empty
    value counting as absent; there is no token exactly when all three
    are absent or empty; and the requests of [fetchSkillFolderHash] carry
    an [Authorization] header exactly when there is a token, with that
    token as the bearer. *)
Theorem getGitHubToken_never_empty (GITHUB_TOKEN GH_TOKEN ghAuthToken : option string) :
  let token := getGitHubToken GITHUB_TOKEN GH_TOKEN ghAuthToken in
  token <> Some ""
  /\ (truthyOpt GITHUB_TOKEN = true -> token = GITHUB_TOKEN)
  /\ (truthyOpt GITHUB_TOKEN = false -> truthyOpt GH_TOKEN = true -> token = GH_TOKEN)
  /\ (token = None
      <-> truthyOpt GITHUB_TOKEN = false /\ truthyOpt GH_TOKEN = false
          /\ truthyOpt ghAuthToken = false)
  /\ (forall header,
        header ∈ requestHeaders token
        <-> header = ("Accept", "application/vnd.github.v3+json")
            \/ header = ("User-Agent", "skulls-cli")
            \/ exists t, token = Some t /\ header = ("Authorization", "Bearer " +:+ t)).
Proof.
  intros token. subst token. unfold getGitHubToken.
  assert (Hh : forall t, t <> "" -> forall header,
            header ∈ requestHeaders (Some t)
            <-> header = ("Accept", "application/vnd.github.v3+json")
                \/ header = ("User-Agent", "skulls-cli")
                \/ exists t', Some t = Some t'
                     /\ header = ("Authorization", "Bearer " +:+ t')).
  { intros t Ht header. unfold requestHeaders.
    destruct (truthy t) eqn:T; [|apply truthy_false in T; contradiction].
    cbn [app]. rewrite !elem_of_cons, elem_of_nil. split.
    - intros [H | [H | [H | []]]]; [now left | now right; left |].
      right. right. now exists t.
    - intros [H | [H | (t' & [= <-] & H)]]; auto. }
  assert (Hn : forall header,
            header ∈ requestHeaders None
            <-> header = ("Accept", "application/vnd.github.v3+json")
                \/ header = ("User-Agent", "skulls-cli")
                \/ exists t', None = Some t'
                     /\ header = ("Authorization", "Bearer " +:+ t')).
  { intros header. unfold requestHeaders. cbn [app].
    rewrite !elem_of_cons, elem_of_nil. split.
    - intros [H | [H | []]]; auto.
    - intros [H | [H | (t' & [=] & _)]]; auto. }
  destruct GITHUB_TOKEN as [[|c a]|], GH_TOKEN as [[|d b]|], ghAuthToken as [[|f g]|];
    cbn [truthyOpt truthy];
    (split; [discriminate|]); (split; [try discriminate; reflexivity|]);
    (split; [try discriminate; reflexivity|]);
    (split; [split; [try discriminate; now repeat split
                    | intros (? & ? & ?); try discriminate; reflexivity]|]);
    first [apply Hn | apply Hh; discriminate].
Qed.

End Recorded.

Lemma only_fingerprinted_github_clones_are_checked_witness :
  Cli.skipped
    (storedAs "2026-02-02T00:00:00.000Z" (AddFlow.wellKnownLockEntry "example.com" wkAlpha))
  = true.
Proof.
  destruct (only_fingerprinted_github_clones_are_checked
              (fun _ _ => None) "/"%char "2026-02-02T00:00:00.000Z" "alpha"
              (AddFlow.wellKnownLockEntry "example.com" wkAlpha) None
              (storedAs "2026-02-02T00:00:00.000Z"
                 (AddFlow.wellKnownLockEntry "example.com" wkAlpha)) eq_refl)
    as (_ & Hwk & _).
  now apply (Hwk "example.com" wkAlpha).
Defined.

Lemma recorded_path_leads_back_to_the_folder_witness :
  AddFlow.relativePathOf "/"%char (Some "/tmp/clone") "/tmp/clone/skills/a"
  = Some "skills/a/SKILL.md"
  /\ SkillLock.folderPathOf "skills/a/SKILL.md" = "skills/a"
  /\ Cli.installUrlOf firstInstall = "https://github.com/o/r/tree/main/skills/a".
Proof.
  apply (recorded_path_leads_back_to_the_folder "/"%char "/tmp/clone" "skills/a"
           firstInstall).
  - discriminate.
  - vm_compute. intros H.
    repeat (apply elem_of_cons in H as [H | H]; [discriminate|]).
    now apply elem_of_nil in H.
  - reflexivity.
  - reflexivity.
Defined.

(** ** The search prompt *)
Section SearchPrompt.

Import JsString Find.






End SearchPrompt.


(** ** The name of an installed directory *)
Section PathComponent.

Import JsString Installer.

Variable toLowerCase : string -> string.

(** X24. Whatever the name of a skill and whatever [toLowerCase] does,
    [sanitizeName] returns one path component: 1 to 255 characters, each a
    lower-case letter, a digit, a dot, an underscore or a hyphen, hence no
    slash and no backslash, and the first of them neither a dot nor a
    hyphen, hence neither '.' nor '..'. *)
Theorem sanitizeName_is_one_path_component (name : string) :
  let dirName := sanitizeName toLowerCase name in
  Forall nameChar (chars dirName)
  /\ 0 < length (chars dirName) <= 255
  /\ ("/"%char ∉ chars dirName) /\ ("\"%char ∉ chars dirName)
  /\ (forall c, head (chars dirName) = Some c -> c <> "."%char /\ c <> "-"%char)
  /\ dirName <> "." /\ dirName <> "..".
Proof.
  intros dirName. pose proof (sanitizeName_chars toLowerCase name) as Hc.
  pose proof (sanitizeName_length toLowerCase name) as Hl.
  pose proof (sanitizeName_head toLowerCase name) as Hh. fold dirName in Hc, Hl, Hh.
  assert (Hno : forall c, ~ nameChar c -> c ∉ chars dirName).
  { intros c Hn Hin. rewrite Forall_forall in Hc. now apply Hn, Hc. }
  assert (Hhead : forall c, head (chars dirName) = Some c -> c <> "."%char /\ c <> "-"%char).
  { intros c H. apply Hh in H. split; intros ->; discriminate H. }
  split; [exact Hc|]. split; [exact Hl|].
  split; [apply Hno; intros [H | H]; discriminate H|].
  split; [apply Hno; intros [H | H]; discriminate H|].
  split; [exact Hhead|].
  split; intros E; rewrite E in Hhead; now destruct (Hhead "."%char eq_refl).
Qed.

End PathComponent.

(** ** The folder of a skill, for [check] and for [update] *)
Section SameFolder.

Import JsString SkillLock Cli.

(** X25. [update] reinstalls from the folder that [check] fingerprints:
    for a skill path without a backslash, what [runUpdate] puts after
    '/tree/main/' is the folder that [fetchSkillFolderHash] looks up in the
    tree of the repository. *)
Theorem update_reinstalls_the_folder_that_check_fingerprints (e : SkillLockEntry)
    (p : string) :
  skillPath e = Some p -> p <> "" -> "\"%char ∉ chars p ->
  installUrlOf e
  = stripSlashEnd (stripDotGit (sourceUrl e)) +:+ "/tree/main/" +:+ folderPathOf p.
Proof.
  intros Hp Hne Hback. unfold installUrlOf, folderPathOf. rewrite Hp.
  cbn [truthyOpt default from_option id].
  destruct (truthy p) eqn:T; [|apply truthy_false in T; contradiction].
  now rewrite (backslashToSlash_fixed p Hback).
Qed.

End SameFolder.

Lemma update_reinstalls_the_folder_that_check_fingerprints_witness :
  Cli.installUrlOf firstInstall
  = "https://github.com/o/r" +:+ "/tree/main/" +:+ SkillLock.folderPathOf "skills/a/SKILL.md".
Proof.
  apply (update_reinstalls_the_folder_that_check_fingerprints
           firstInstall "skills/a/SKILL.md").
  - reflexivity.
  - discriminate.
  - vm_compute. intros H.
    repeat (apply elem_of_cons in H as [H | H]; [discriminate|]).
    now apply elem_of_nil in H.
Defined.

(** ** The lock file after the installs *)
Section LockUpdate.

Import JsString SkillLock.

Variable httpGetTree : string -> list (string * string) -> option TreeResponse.
Variable sep : ascii.
Variable lockWriteError : SkillLockFile -> option string.
Variable now : nat -> string.

Local Abbreviation tryAdd := (AddFlow.tryAddSkillToLock lockWriteError now).

Lemma addSkillToLock_other t k entry disk n :
  n <> k ->
  getSkillFromLock n (addSkillToLock t k entry disk) = getSkillFromLock n disk.
Proof.
  intros Hne. unfold getSkillFromLock, addSkillToLock. rewrite read_after_write.
  cbn [skills]. now apply assign_other.
Qed.

Lemma addSkillToLock_carries t k entry disk :
  k <> "__proto__" ->
  exists e, getSkillFromLock k (addSkillToLock t k entry disk) = Some e
            /\ carries e entry.
Proof.
  intros Hk. unfold getSkillFromLock, addSkillToLock.
  rewrite read_after_write. cbn [skills]. rewrite assign_plain by now left.
  rewrite lookup_insert_eq. eexists. split; [reflexivity|]. now repeat split.
Qed.

Lemma tryAdd_other i k entry disk n :
  n <> k -> getSkillFromLock n (tryAdd i k entry disk) = getSkillFromLock n disk.
Proof.
  intros Hne. unfold AddFlow.tryAddSkillToLock.
  destruct (_ ≫= lockWriteError); [reflexivity|]. now apply addSkillToLock_other.
Qed.

Lemma tryAdd_carries i k entry disk :
  writesSucceed lockWriteError -> k <> "__proto__" ->
  exists e, getSkillFromLock k (tryAdd i k entry disk) = Some e /\ carries e entry.
Proof.
  intros Hw Hk. unfold AddFlow.tryAddSkillToLock.
  destruct (addSkillToLock (now i) k entry disk ≫= lockWriteError) as [msg|] eqn:E.
  - unfold addSkillToLock, writeSkillLock in E. cbn in E. now rewrite Hw in E.
  - now apply addSkillToLock_carries.
Qed.

Section Loop.

Context {T : Type}.
Variables (keyOf shownAs : T -> string) (throwsFor : T -> bool).
Variable entryOf : T -> NewEntry.
Variable successfulSkillNames : list string.

Local Abbreviation record :=
  (AddFlow.recordEach lockWriteError now keyOf shownAs throwsFor entryOf
     successfulSkillNames).

(** The skill gets as far as [addSkillToLock]. *)
Local Abbreviation handedOn s :=
  (Add.includes successfulSkillNames (shownAs s) && negb (throwsFor s)).

Lemma recordEach_other selected n : forall i disk,
  (forall s, s ∈ selected -> handedOn s = true -> keyOf s <> n) ->
  getSkillFromLock n (record selected i disk) = getSkillFromLock n disk.
Proof.
  induction selected as [|s rest IH]; intros i disk Hno; [reflexivity|].
  cbn [AddFlow.recordEach]. rewrite IH.
  - destruct (handedOn s) eqn:E; [|reflexivity].
    apply tryAdd_other. intros ->. now apply (Hno s (list_elem_of_here _ _)).
  - intros s' Hs'. apply Hno. now apply list_elem_of_further.
Qed.

Lemma recordEach_recorded selected n : forall i disk,
  writesSucceed lockWriteError -> n <> "__proto__" ->
  (exists s, s ∈ selected /\ keyOf s = n /\ handedOn s = true) ->
  exists s e, s ∈ selected /\ keyOf s = n /\ handedOn s = true
              /\ getSkillFromLock n (record selected i disk) = Some e
              /\ carries e (entryOf s).
Proof.
  intros i disk Hw Hn. revert i disk.
  induction selected as [|s rest IH]; intros i disk (s0 & Hin & Hk & Hs).
  - now apply elem_of_nil in Hin.
  - cbn [AddFlow.recordEach].
    assert (Hdec : (exists s', s' ∈ rest /\ keyOf s' = n /\ handedOn s' = true)
                   \/ ~ (exists s', s' ∈ rest /\ keyOf s' = n /\ handedOn s' = true)).
    { destruct (existsb (fun s' => String.eqb (keyOf s') n && handedOn s') rest) eqn:E.
      - left. apply existsb_exists in E as (s' & H1 & H2).
        apply andb_true_iff in H2 as [H2 H3]. apply String.eqb_eq in H2.
        apply list_elem_of_In in H1. now exists s'.
      - right. intros (s' & H1 & H2 & H3).
        apply not_true_iff_false in E. apply E, existsb_exists. exists s'.
        apply list_elem_of_In in H1. split; [exact H1|].
        apply andb_true_iff. split; [now apply String.eqb_eq | exact H3]. }
    destruct Hdec as [Hrest | Hrest].
    + destruct (IH (S i)
                  (if handedOn s then tryAdd i (keyOf s) (entryOf s) disk else disk)
                  Hrest)
        as (s' & e & H1 & H2 & H3 & H4 & H5).
      exists s', e. split; [now apply list_elem_of_further|]. auto.
    + apply elem_of_cons in Hin as [-> | Hin];
        [|exfalso; apply Hrest; now exists s0].
      rewrite recordEach_other.
      * rewrite Hs. subst n.
        destruct (tryAdd_carries i (keyOf s) (entryOf s) disk Hw Hn) as (e & He & Hc).
        exists s, e. split; [apply list_elem_of_here|]. auto.
      * intros s' Hs' Hinc Hkey. apply Hrest. now exists s'.
Qed.

End Loop.

Lemma includes_successful results shown :
  Add.includes (map fst (AddFlow.successfulOf results)) shown = true
  <-> installedAs results shown.
Proof.
  rewrite includes_In, in_map_iff. unfold installedAs, AddFlow.successfulOf. split.
  - intros (r & Hr & Hin). apply List.filter_In in Hin as [Hin Hs].
    exists r. apply list_elem_of_In in Hin. auto.
  - intros (r & Hin & Hr & Hs). exists r. split; [exact Hr|].
    apply List.filter_In. apply list_elem_of_In in Hin. auto.
Qed.

(** X26. The lock file after the installs of [runAdd] and of
    [handleWellKnownSkills].  Without a normalized source [runAdd] writes
    nothing.  A name under which no selected skill was installed with
    success, or only skills whose block threw before [addSkillToLock],
    keeps the entry it had, or keeps having none.  And when the lock file
    can be written, every selected skill whose install succeeded is
    tracked afterwards, under its name for a repository and under its
    install name for a well-known endpoint, with the source and the source
    type of this run.  Two kinds of skill are left out of that last part:
    one named '__proto__', which an assignment does not store as a key,
    and, in [runAdd], one for which the path read from [skillFiles] is an
    inherited value that makes [fetchSkillFolderHash] throw. *)
Theorem lock_update_follows_the_installs
    (results : list (string * Installer.InstallResult)) (disk : Disk) :
  (forall getSkillDisplayName parsedType parsedUrl normalizedSource tempDir selected,
     let skillFiles := AddFlow.skillFilesOf sep tempDir selected ∅ in
     let after :=
       AddFlow.recordRepoInstalls httpGetTree sep lockWriteError now
         getSkillDisplayName parsedType parsedUrl normalizedSource tempDir
         selected results disk in
     (truthyOpt normalizedSource = false -> after = disk)
     /\ (forall n,
           (forall s, s ∈ selected -> Installer.name s = n ->
              ~ installedAs results (getSkillDisplayName s)
              \/ AddFlow.hashLookupThrows parsedType skillFiles s = true) ->
           getAllLockedSkills after !! n = getAllLockedSkills disk !! n)
     /\ (writesSucceed lockWriteError -> truthyOpt normalizedSource = true ->
         forall s, s ∈ selected -> installedAs results (getSkillDisplayName s) ->
           Installer.name s <> "__proto__" ->
           AddFlow.hashLookupThrows parsedType skillFiles s = false ->
           exists e, getAllLockedSkills after !! Installer.name s = Some e
                     /\ source e = default "" normalizedSource
                     /\ sourceType e = parsedType))
  /\ (forall sourceIdentifier selected,
        let after :=
          AddFlow.recordWellKnownInstalls lockWriteError now sourceIdentifier
            selected results disk in
        (forall n,
           (forall s, s ∈ selected -> Installer.wkInstallName s = n ->
              ~ installedAs results (Installer.wkInstallName s)) ->
           getAllLockedSkills after !! n = getAllLockedSkills disk !! n)
        /\ (writesSucceed lockWriteError ->
            forall s, s ∈ selected -> installedAs results (Installer.wkInstallName s) ->
              Installer.wkInstallName s <> "__proto__" ->
              exists e, getAllLockedSkills after !! Installer.wkInstallName s = Some e
                        /\ source e = sourceIdentifier
                        /\ sourceType e = "well-known")).
Proof.
  assert (Hsome : forall shown, installedAs results shown ->
            (0 <? length (AddFlow.successfulOf results)) = true).
  { intros shown H. apply includes_successful, includes_In in H.
    destruct (AddFlow.successfulOf results); [destruct H | reflexivity]. }
  split.
  - intros display pt pu ns tempDir selected skillFiles after. subst after.
    unfold AddFlow.recordRepoInstalls. cbv zeta. fold skillFiles. split; [|split].
    + intros ->. now rewrite andb_false_r.
    + intros n Hno. destruct (_ && _); [|reflexivity].
      apply (recordEach_other _ _ _ _ _ selected n). intros s Hs Hon <-.
      apply andb_true_iff in Hon as [Hinc Hthrows].
      apply negb_true_iff in Hthrows. apply includes_successful in Hinc.
      destruct (Hno s Hs eq_refl) as [H | H]; [now apply H | congruence].
    + intros Hw Hns s Hs Hinst Hproto Hthrows. rewrite (Hsome _ Hinst), Hns. cbn [andb].
      destruct (recordEach_recorded Installer.name display
                  (AddFlow.hashLookupThrows pt skillFiles)
                  (AddFlow.repoLockEntry httpGetTree pt pu (default "" ns) skillFiles)
                  (map fst (AddFlow.successfulOf results)) selected
                  (Installer.name s) 0 disk Hw Hproto)
        as (s' & e & _ & _ & _ & He & (Hc1 & Hc2 & _)).
      { exists s. split; [exact Hs|]. split; [reflexivity|].
        rewrite Hthrows, andb_true_r. now apply includes_successful. }
      exists e. split; [exact He|]. now split.
  - intros sid selected after. subst after.
    unfold AddFlow.recordWellKnownInstalls. cbv zeta. split.
    + intros n Hno. destruct (0 <? _); [|reflexivity].
      apply (recordEach_other _ _ _ _ _ selected n). intros s Hs Hon <-.
      rewrite andb_true_r in Hon.
      apply includes_successful in Hon. now apply (Hno s).
    + intros Hw s Hs Hinst Hproto. rewrite (Hsome _ Hinst).
      destruct (recordEach_recorded Installer.wkInstallName Installer.wkInstallName
                  (fun _ => false) (AddFlow.wellKnownLockEntry sid)
                  (map fst (AddFlow.successfulOf results)) selected
                  (Installer.wkInstallName s) 0 disk Hw Hproto)
        as (s' & e & _ & _ & _ & He & (Hc1 & Hc2 & _)).
      { exists s. split; [exact Hs|]. split; [reflexivity|].
        rewrite andb_true_r. now apply includes_successful. }
      exists e. split; [exact He|]. now split.
Qed.

End LockUpdate.

Lemma lock_update_follows_the_installs_witness :
  (exists e,
     SkillLock.getAllLockedSkills
       (AddFlow.recordRepoInstalls twoBranches "/"%char lockWritable midnight
          Installer.name "github" "https://github.com/o/r.git" (Some "o/r")
          (Some "/tmp/clone") [skillA; skillB] oneOfTwo None) !! "a"
     = Some e
     /\ SkillLock.source e = "o/r" /\ SkillLock.sourceType e = "github")
  /\ SkillLock.getAllLockedSkills
       (AddFlow.recordRepoInstalls twoBranches "/"%char lockWritable midnight
          Installer.name "github" "https://github.com/o/r.git" (Some "o/r")
          (Some "/tmp/clone") [skillA; skillB] oneOfTwo None) !! "b"
     = None.
Proof.
  destruct (lock_update_follows_the_installs twoBranches "/"%char lockWritable midnight
              oneOfTwo None) as [Hrepo _].
  destruct (Hrepo Installer.name "github" "https://github.com/o/r.git" (Some "o/r")
              (Some "/tmp/clone") [skillA; skillB]) as (_ & Hkeep & Hadd).
  split.
  - apply (Hadd (fun _ => eq_refl) eq_refl skillA);
      [apply list_elem_of_here | | discriminate | reflexivity].
    exists ("a", Installer.succeeded "/skills/a").
    split; [apply list_elem_of_here | now split].
  - rewrite (Hkeep "b"); [reflexivity|].
    intros s Hs Hname. left. intros (r & Hr & Hshown & Hok).
    apply elem_of_cons in Hr as [-> | Hr].
    + apply elem_of_cons in Hs as [-> | Hs]; [discriminate Hname|].
      apply list_elem_of_singleton in Hs as ->. discriminate Hshown.
    + apply list_elem_of_singleton in Hr as ->. discriminate Hok.
Defined.

(** A skill named '__proto__' is installed from the clone with 'a'.  Its
    path is not stored in [skillFiles]; with a GitHub source the value read
    back makes [fetchSkillFolderHash] throw, and with any other source
    [addSkillToLock] stores nothing under the name.  Either way the lock
    file tracks 'a' alone. *)
Example runAdd_does_not_record_proto :
  AddFlow.skillFilesOf "/"%char (Some "/tmp/clone") [skillA; skillProto] ∅
  = {[ "a" := "skills/a/SKILL.md" ]}
  /\ AddFlow.hashLookupThrows "github"
       (AddFlow.skillFilesOf "/"%char (Some "/tmp/clone") [skillA; skillProto] ∅)
       skillProto = true
  /\ dom (SkillLock.getAllLockedSkills
            (AddFlow.recordRepoInstalls twoBranches "/"%char lockWritable midnight
               Installer.name "github" "https://github.com/o/r.git" (Some "o/r")
               (Some "/tmp/clone") [skillA; skillProto]
               [("a", Installer.succeeded "/skills/a");
                ("__proto__", Installer.succeeded "/skills/__proto__")] None))
     = ({[ "a" ]} : gset string)
  /\ dom (SkillLock.getAllLockedSkills
            (AddFlow.recordRepoInstalls twoBranches "/"%char lockWritable midnight
               Installer.name "gitlab" "https://gitlab.com/o/r.git" (Some "o/r")
               (Some "/tmp/clone") [skillA; skillProto]
               [("a", Installer.succeeded "/skills/a");
                ("__proto__", Installer.succeeded "/skills/__proto__")] None))
     = ({[ "a" ]} : gset string).
Proof. vm_compute. repeat split. Qed.

(** ** [getOwnerRepoFromString] *)
Section OwnerRepo.

Import JsString Installer Find.

Lemma lastIndexOf_absent c l : forall i found, c ∉ l -> lastIndexOf c l i found = found.
Proof.
  induction l as [|x tl IH]; intros i found Hc; [reflexivity|].
  apply not_elem_of_cons in Hc as [Hx Hc]. cbn [lastIndexOf].
  destruct (Ascii.eqb x c) eqn:E; [apply Ascii.eqb_eq in E; congruence|].
  now apply IH.
Qed.

Lemma lastIndexOf_last c a b : forall i found,
  c ∉ b -> lastIndexOf c (a ++ c :: b) i found = Some (i + length a).
Proof.
  induction a as [|x a IH]; intros i found Hb; cbn [app lastIndexOf].
  - rewrite Ascii.eqb_refl, lastIndexOf_absent by exact Hb. f_equal. simpl. lia.
  - rewrite IH by exact Hb. f_equal. simpl. lia.
Qed.

Lemma last_occurrence (c : ascii) l :
  c ∈ l -> exists a b, l = a ++ c :: b /\ c ∉ b.
Proof.
  induction l as [|x tl IH]; intros Hin; [now apply elem_of_nil in Hin|].
  destruct (decide (c ∈ tl)) as [Htl | Htl].
  - destruct (IH Htl) as (a & b & -> & Hb). now exists (x :: a), b.
  - apply elem_of_cons in Hin as [-> | Hin]; [|contradiction]. now exists [], tl.
Qed.

Lemma first_occurrence (c : ascii) l :
  c ∈ l -> exists a b, l = a ++ c :: b /\ c ∉ a.
Proof.
  induction l as [|x tl IH]; intros Hin; [now apply elem_of_nil in Hin|].
  destruct (decide (x = c)) as [-> | Hne].
  - exists [], tl. split; [reflexivity | apply not_elem_of_nil].
  - apply elem_of_cons in Hin as [-> | Hin]; [congruence|].
    destruct (IH Hin) as (a & b & -> & Ha). exists (x :: a), b.
    split; [reflexivity|]. apply not_elem_of_cons. split; [congruence | exact Ha].
Qed.

Lemma isSlash_true c : isSlash c = true <-> c = "/"%char.
Proof. unfold isSlash. apply Ascii.eqb_eq. Qed.

Lemma splitSlash_no_slash l : forall cur,
  "/"%char ∉ l -> splitSlash cur l = [str (reverse cur ++ l)].
Proof.
  induction l as [|c tl IH]; intros cur Hl; cbn [splitSlash].
  - now rewrite app_nil_r.
  - apply not_elem_of_cons in Hl as [Hc Hl].
    destruct (isSlash c) eqn:E; [apply isSlash_true in E; congruence|].
    rewrite IH by exact Hl. rewrite reverse_cons, <- app_assoc. reflexivity.
Qed.

Lemma splitSlash_first a b : forall cur,
  "/"%char ∉ a ->
  splitSlash cur (a ++ "/"%char :: b) = str (reverse cur ++ a) :: splitSlash [] b.
Proof.
  induction a as [|c a IH]; intros cur Ha; cbn [app splitSlash].
  - now rewrite app_nil_r.
  - apply not_elem_of_cons in Ha as [Hc Ha].
    destruct (isSlash c) eqn:E; [apply isSlash_true in E; congruence|].
    rewrite IH by exact Ha. rewrite reverse_cons, <- app_assoc. reflexivity.
Qed.

Lemma splitSlash_nonempty l : forall cur, splitSlash cur l <> [].
Proof.
  induction l as [|c tl IH]; intros cur; cbn [splitSlash]; [discriminate|].
  destruct (isSlash c); [discriminate | apply IH].
Qed.

(** A string splits in two at its slashes exactly when it has one. *)
Lemma splitSlash_two l owner repo :
  splitSlash [] l = [owner; repo]
  <-> l = chars owner ++ "/"%char :: chars repo
      /\ ("/"%char ∉ chars owner) /\ ("/"%char ∉ chars repo).
Proof.
  split.
  - intros H. destruct (decide ("/"%char ∈ l)) as [Hin | Hno].
    + destruct (first_occurrence _ _ Hin) as (a & b & -> & Ha).
      rewrite splitSlash_first in H by exact Ha.
      change (reverse (@nil ascii)) with (@nil ascii) in H. cbn [app] in H.
      injection H as <- H.
      destruct (decide ("/"%char ∈ b)) as [Hb | Hb].
      * destruct (first_occurrence _ _ Hb) as (a' & b' & -> & Ha').
        rewrite splitSlash_first in H by exact Ha'. injection H as H1 H2.
        now apply splitSlash_nonempty in H2.
      * rewrite splitSlash_no_slash in H by exact Hb.
        change (reverse (@nil ascii)) with (@nil ascii) in H. cbn [app] in H.
        injection H as <-. now rewrite !chars_str.
    + rewrite splitSlash_no_slash in H by exact Hno. discriminate.
  - intros (-> & Ho & Hr).
    rewrite splitSlash_first by exact Ho. rewrite splitSlash_no_slash by exact Hr.
    change (reverse (@nil ascii)) with (@nil ascii). cbn [app]. now rewrite !str_chars.
Qed.

(** What [getOwnerRepoFromString] keeps of [pkg]. *)
Lemma repoPath_spec pkg :
  repoPathOf pkg
    (match lastIndexOf "@" (chars pkg) 0 None with
     | Some i => if 0 <? i then str (take i (chars pkg)) else pkg
     | None => pkg
     end).
Proof.
  destruct (decide ("@"%char ∈ chars pkg)) as [Hin | Hno].
  - destruct (last_occurrence _ _ Hin) as (a & b & E & Hb).
    rewrite E, lastIndexOf_last by exact Hb. cbn [Nat.add].
    destruct (0 <? length a) eqn:Z.
    + right. rewrite take_app_length. exists (str b). split; [|split].
      * apply chars_inj. rewrite chars_app, chars_str, E.
        change (chars (String "@" (str b))) with ("@"%char :: chars (str b)).
        now rewrite chars_str.
      * intros H. apply (f_equal chars) in H. rewrite chars_str in H.
        change (chars "") with (@nil ascii) in H. subst a. discriminate Z.
      * now rewrite chars_str.
    + left. split; [reflexivity|]. right. exists (str b).
      apply Nat.ltb_ge in Z. destruct a; [|simpl in Z; lia]. cbn [app] in E.
      split; [|now rewrite chars_str].
      apply chars_inj. rewrite E. change (chars (String "@" (str b)))
        with ("@"%char :: chars (str b)). now rewrite chars_str.
  - rewrite lastIndexOf_absent by exact Hno. left. split; [reflexivity | now left].
Qed.

Lemma repoPathOf_unique pkg p q : repoPathOf pkg p -> repoPathOf pkg q -> p = q.
Proof.
  intros [[-> Hp] | (s & Ep & Hne & Hs)] [[-> Hq] | (t & Eq & Hne' & Ht)].
  - reflexivity.
  - exfalso. destruct Hp as [Hp | (rest & E & Hrest)].
    + apply Hp. rewrite Eq, chars_app. apply elem_of_app. right. apply list_elem_of_here.
    + rewrite Eq in E. destruct q as [|c q]; [congruence|].
      injection E as -> E. apply Hrest. rewrite <- E, chars_app.
      apply elem_of_app. right. apply list_elem_of_here.
  - exfalso. destruct Hq as [Hq | (rest & E & Hrest)].
    + apply Hq. rewrite Ep, chars_app. apply elem_of_app. right. apply list_elem_of_here.
    + rewrite Ep in E. destruct p as [|c p]; [congruence|].
      injection E as -> E. apply Hrest. rewrite <- E, chars_app.
      apply elem_of_app. right. apply list_elem_of_here.
  - apply chars_inj. apply (f_equal chars) in Ep, Eq.
    rewrite chars_app in Ep, Eq.
    change (chars (String "@" s)) with ("@"%char :: chars s) in Ep.
    change (chars (String "@" t)) with ("@"%char :: chars t) in Eq.
    rewrite Ep in Eq. clear Ep pkg Hne Hne'.
    revert Eq. generalize (chars q) as lq. induction (chars p) as [|c lp IH]; intros lq Eq.
    + destruct lq as [|d lq]; [reflexivity|]. cbn [app] in Eq. injection Eq as <- Eq.
      exfalso. apply Hs. rewrite Eq. apply elem_of_app. right. apply list_elem_of_here.
    + destruct lq as [|d lq]; cbn [app] in Eq.
      * injection Eq as -> Eq. exfalso. apply Ht. rewrite <- Eq.
        apply elem_of_app. right. apply list_elem_of_here.
      * injection Eq as <- Eq. f_equal. now apply IH.
Qed.

(** X27. [getOwnerRepoFromString] finds an owner and a repository
    exactly in a package of the form 'owner/repo' or 'owner/repo@skill':
    what comes before the last '@' of the package, when that is not its
    first character, is the owner, one slash and the repository, both
    non-empty and without a slash. *)
Theorem getOwnerRepoFromString_reads_owner_and_repo (pkg owner repo : string) :
  getOwnerRepoFromString pkg = Some (owner, repo)
  <-> owner <> "" /\ repo <> ""
      /\ ("/"%char ∉ chars owner) /\ ("/"%char ∉ chars repo)
      /\ repoPathOf pkg (owner +:+ String "/" repo).
Proof.
  unfold getOwnerRepoFromString. pose proof (repoPath_spec pkg) as Hrp.
  set (repoPath := match lastIndexOf "@" (chars pkg) 0 None with
                   | Some i => if 0 <? i then str (take i (chars pkg)) else pkg
                   | None => pkg
                   end) in *.
  split.
  - destruct (splitSlash [] (chars repoPath)) as [|o [|r [|? ?]]] eqn:E;
      try discriminate.
    destruct (truthy o && truthy r) eqn:T; [|discriminate]. intros [= -> ->].
    apply andb_true_iff in T as [To Tr].
    apply splitSlash_two in E as (E & Ho & Hr).
    split; [now intros ->|]. split; [now intros ->|].
    split; [exact Ho|]. split; [exact Hr|].
    replace (owner +:+ String "/" repo) with repoPath; [exact Hrp|].
    apply chars_inj. now rewrite E, chars_app.
  - intros (Ho & Hr & Hos & Hrs & Hpath).
    rewrite (repoPathOf_unique pkg _ _ Hrp Hpath).
    assert (E : splitSlash [] (chars (owner +:+ String "/" repo)) = [owner; repo]).
    { apply splitSlash_two. split; [apply chars_app | now split]. }
    rewrite E.
    destruct owner; [congruence|]. destruct repo; [congruence|]. reflexivity.
Qed.

End OwnerRepo.
